(** * Osc99: OSC packets, bundles, messages and SLIP framing

    A shallow embedding of the C sources [OscSlip.c], [OscPacket.c],
    [OscBundle.c] and [OscMessage.c], and the properties of the codec that the
    specification states about them.

    Conventions of the embedding.
    - a C [char] is an [ascii]; a [char*] or a [char] array is a memory
      [Mem], a total map from offsets to bytes, so that a read or a write
      past the nominal end of an array is a read or a write of the bytes that
      follow it in memory;
    - [size_t], [int] and [unsigned int] counters are [nat] (every counter of
      the library is bounded by a capacity constant, far below the range of
      the C types); [int32_t] and 64-bit values are [Z];
    - a C function that mutates a structure through a pointer and returns an
      [int] becomes a function from the old structure to the new structure
      and the return code;
    - a function pointer to application code is a [bool] (set or [NULL]); the
      calls made through it are returned as a trace. *)

From Stdlib Require Import List ZArith Lia ZifyNat Ascii Bool Arith PeanoNat.
Import ListNotations.

(** ** Memory *)

Definition Mem := nat -> ascii.

Definition store (m : Mem) (i : nat) (v : ascii) : Mem :=
  fun j => if Nat.eqb j i then v else m j.

(** The first [n] bytes of a memory. *)
Definition bytes (m : Mem) (n : nat) : list ascii := map m (seq 0 n).

(** The memory seen through the pointer [&m[k]]. *)
Definition offset (m : Mem) (k : nat) : Mem := fun i => m (k + i).

(** A memory that holds the bytes of [l], then zeros. *)
Definition mem_of (l : list ascii) : Mem := fun i => nth i l "000"%char.

(** ** Capacity constants

    The headers that define the capacities are not part of the sources at
    hand; the constants are parameters of the development. *)

Class Limits := {
  MAX_TRANSPORT_SIZE : nat;
  MAX_OSC_PACKET_SIZE : nat;
  MIN_OSC_MESSAGE_SIZE : nat;
  MAX_OSC_MESSAGE_SIZE : nat;
  MAX_OSC_ADDRESS_PATTERN_LENGTH : nat;
  MAX_NUMBER_OF_ARGUMENTS : nat;
  MAX_OSC_TYPE_TAG_STRING_LENGTH : nat;
  MAX_ARGUMENTS_SIZE : nat;
  MIN_OSC_BUNDLE_SIZE : nat;
  MAX_OSC_BUNDLE_SIZE : nat;
  MAX_OSC_BUNDLE_ELEMENTS_SIZE : nat
}.

(** [#define OSC_SLIP_DECODER_BUFFER_SIZE MAX_TRANSPORT_SIZE] (OscSlip.h). *)
Definition OSC_SLIP_DECODER_BUFFER_SIZE {L : Limits} : nat := MAX_TRANSPORT_SIZE.

(** The capacities of a 1472-byte transport, used for the concrete runs. *)
Definition udp_limits : Limits := {|
  MAX_TRANSPORT_SIZE := 1472;
  MAX_OSC_PACKET_SIZE := 1472;
  MIN_OSC_MESSAGE_SIZE := 8;
  MAX_OSC_MESSAGE_SIZE := 1472;
  MAX_OSC_ADDRESS_PATTERN_LENGTH := 64;
  MAX_NUMBER_OF_ARGUMENTS := 16;
  MAX_OSC_TYPE_TAG_STRING_LENGTH := 17;
  MAX_ARGUMENTS_SIZE := 1380;
  MIN_OSC_BUNDLE_SIZE := 16;
  MAX_OSC_BUNDLE_SIZE := 1472;
  MAX_OSC_BUNDLE_ELEMENTS_SIZE := 1456
|}.

(** ** OscPacket.c, first part *)

Record OscPacket := mkOscPacket {
  contents : Mem;
  size : nat;
  processMessage : bool
}.

Definition OscPacketInitialise (oscPacket : OscPacket) : OscPacket :=
  {| contents := contents oscPacket; size := 0; processMessage := false |}.

(** [oscPacket.contents[oscPacket.size++] = c] *)
Definition packet_push (oscPacket : OscPacket) (c : ascii) : OscPacket :=
  {| contents := store (contents oscPacket) (size oscPacket) c;
     size := S (size oscPacket);
     processMessage := processMessage oscPacket |}.

(** ** OscSlip.c *)

Definition SLIP_END : ascii := "192"%char.      (* 0xC0 *)
Definition SLIP_ESC : ascii := "219"%char.      (* 0xDB *)
Definition SLIP_ESC_END : ascii := "220"%char.  (* 0xDC *)
Definition SLIP_ESC_ESC : ascii := "221"%char.  (* 0xDD *)

Record OscSlipDecoder := mkOscSlipDecoder {
  buffer : Mem;
  bufferIndex : nat;
  processPacket : bool
}.

Definition OscSlipDecoderInitialise (d : OscSlipDecoder) : OscSlipDecoder :=
  {| buffer := buffer d; bufferIndex := 0; processPacket := false |}.

(** The assignment [oscSlipDecoder.processPacket = ProcessPacket] of the
    application. *)
Definition set_processPacket (d : OscSlipDecoder) : OscSlipDecoder :=
  {| buffer := buffer d; bufferIndex := bufferIndex d; processPacket := true |}.

Section Slip.
Context {L : Limits}.

(** The [while (buffer[i] != SLIP_END)] loop of [OscSlipDecoderProcessByte];
    [None] is [return 1].  Every turn adds one byte to the packet and the
    turn that makes its size exceed [MAX_OSC_PACKET_SIZE] returns, so the
    loop takes at most [MAX_OSC_PACKET_SIZE + 1 - size] turns: [room] counts
    them down. *)
Fixpoint decode_loop (room : nat) (buffer : Mem) (i : nat) (oscPacket : OscPacket)
  : option OscPacket :=
  if (buffer i =? SLIP_END)%char then Some oscPacket
  else
    let step :=
      if (buffer i =? SLIP_ESC)%char then
        let i := S i in
        if (buffer i =? SLIP_ESC_END)%char then Some (i, packet_push oscPacket SLIP_END)
        else if (buffer i =? SLIP_ESC_ESC)%char then Some (i, packet_push oscPacket SLIP_ESC)
        else None                         (* error: unexpected byte value *)
      else Some (i, packet_push oscPacket (buffer i)) in
    match step with
    | None => None
    | Some (i, oscPacket) =>
        if MAX_OSC_PACKET_SIZE <? size oscPacket then None (* error: decoded packet too large *)
        else match room with
             | 0 => None
             | S room => decode_loop room buffer (S i) oscPacket
             end
    end.

(** [oscPacket] is the uninitialised local of the function.  The result is
    the decoder, the return code and the packet handed to [processPacket],
    if it was called. *)
Definition OscSlipDecoderProcessByte (d : OscSlipDecoder) (byte : ascii)
    (oscPacket : OscPacket) : OscSlipDecoder * Z * option OscPacket :=
  (* Add byte to buffer *)
  let buffer := store (buffer d) (bufferIndex d) byte in
  (* Increment index with overflow *)
  let bufferIndex :=
    if OSC_SLIP_DECODER_BUFFER_SIZE <=? S (bufferIndex d) then 0 else S (bufferIndex d) in
  (* Decode packet if END byte *)
  if (byte =? SLIP_END)%char then
    let d' := {| buffer := buffer; bufferIndex := 0; processPacket := processPacket d |} in
    if negb (processPacket d) then (d', 1%Z, None)
    else
      match decode_loop MAX_OSC_PACKET_SIZE buffer 0 (OscPacketInitialise oscPacket) with
      | None => (d', 1%Z, None)
      | Some oscPacket => (d', 0%Z, Some oscPacket)
      end
  else
    ({| buffer := buffer; bufferIndex := bufferIndex; processPacket := processPacket d |},
     0%Z, None).

(** The application's receive loop,
    [while (MySerialDataReady()) OscSlipDecoderProcessByte(&d, MySerialGetByte());]:
    the return codes and the packets handed to the handler, in order. *)
Fixpoint feed_bytes (d : OscSlipDecoder) (input : list ascii) (oscPacket : OscPacket)
  : OscSlipDecoder * list Z * list OscPacket :=
  match input with
  | [] => (d, [], [])
  | byte :: input =>
      let '(d, rc, call) := OscSlipDecoderProcessByte d byte oscPacket in
      let '(d, rcs, calls) := feed_bytes d input oscPacket in
      (d, rc :: rcs, match call with Some p => p :: calls | None => calls end)
  end.

(** The [for] loop of [OscSlipEncodePacket] with [n] packet bytes left; the
    return code 1 is the [return 1] inside the loop, 0 is its normal end. *)
Fixpoint encode_loop (n : nat) (contents : Mem) (packetIndex : nat)
    (destination : Mem) (encodedPacketSize destinationSize : nat) : Mem * nat * Z :=
  match n with
  | 0 => (destination, encodedPacketSize, 0%Z)
  | S n =>
      if destinationSize <? encodedPacketSize + 1 then
        (destination, encodedPacketSize, 1%Z)  (* error: destination too small *)
      else
        let c := contents packetIndex in
        let '(destination, encodedPacketSize) :=
          if (c =? SLIP_END)%char then
            (store (store destination encodedPacketSize SLIP_ESC)
                   (S encodedPacketSize) SLIP_ESC_END, S (S encodedPacketSize))
          else if (c =? SLIP_ESC)%char then
            (store (store destination encodedPacketSize SLIP_ESC)
                   (S encodedPacketSize) SLIP_ESC_ESC, S (S encodedPacketSize))
          else (store destination encodedPacketSize c, S encodedPacketSize) in
        encode_loop n contents (S packetIndex) destination encodedPacketSize destinationSize
  end.

(** The result is the destination memory, [*slipPacketSize] and the return
    code. *)
Definition OscSlipEncodePacket (oscPacket : OscPacket) (destination : Mem)
    (destinationSize : nat) : Mem * nat * Z :=
  let '(destination, encodedPacketSize, rc) :=
    encode_loop (size oscPacket) (contents oscPacket) 0 destination 0 destinationSize in
  if (rc =? 0)%Z then
    (store destination encodedPacketSize SLIP_END, S encodedPacketSize, 0%Z)
  else (destination, 0, 1%Z).

End Slip.

(** ** The SLIP encoding, as the specification words it *)

Definition slip_escape (c : ascii) : list ascii :=
  if (c =? SLIP_END)%char then [SLIP_ESC; SLIP_ESC_END]
  else if (c =? SLIP_ESC)%char then [SLIP_ESC; SLIP_ESC_ESC]
  else [c].

Definition slip_encode (p : list ascii) : list ascii :=
  flat_map slip_escape p ++ [SLIP_END].

(** ** Bytes and integers

    The unions [OscArgument32], [OscArgument64] and [OscTimeTag] overlay an
    integer with a [byteStruct] whose member [byte0] is the least significant
    byte.  The two floating-point members are carried as the integer that has
    the same object representation. *)

Definition byte_of_Z (z : Z) : ascii := ascii_of_N (Z.to_N (z mod 256)).
Definition Z_of_byte (c : ascii) : Z := Z.of_N (N_of_ascii c).

(** [byteStruct.byte<k>] of a union that holds [v]. *)
Definition byteN (k : nat) (v : Z) : ascii := byte_of_Z (v / 256 ^ Z.of_nat k).

(** The unsigned integer whose bytes are [l], most significant first. *)
Definition uint_of_bytes (l : list ascii) : Z :=
  fold_left (fun acc c => acc * 256 + Z_of_byte c)%Z l 0%Z.

(** The [int32] member after its four bytes were assigned. *)
Definition int32_of_bytes (byte3 byte2 byte1 byte0 : ascii) : Z :=
  let u := uint_of_bytes [byte3; byte2; byte1; byte0] in
  if (u <? 2 ^ 31)%Z then u else (u - 2 ^ 32)%Z.

(** Comparison [z > n] of a signed [z] with a [size_t] [n]: the signed
    operand is converted to unsigned, a negative one to a value above every
    size. *)
Definition gt_size_t (z : Z) (n : nat) : bool := ((z <? 0) || (Z.of_nat n <? z))%Z.

(** [for (i = 0; i < n; i++) destination[destinationIndex++] = source[sourceIndex++];] *)
Fixpoint copy_bytes (n : nat) (source : Mem) (sourceIndex : nat)
    (destination : Mem) (destinationIndex : nat) : Mem :=
  match n with
  | 0 => destination
  | S n => copy_bytes n source (S sourceIndex)
             (store destination destinationIndex (source sourceIndex)) (S destinationIndex)
  end.

(** Modelled from the spec: the enumerations [OscContentsType] and
    [OscTypeTag] and the constant [OSC_BUNDLE_HEADER] of the missing headers,
    from the first-byte discrimination of section 3.5, the tag table of
    section 3.1 and the bundle header of section 3.4. *)
Definition OscContentsTypeMessage : ascii := "/"%char.
Definition OscContentsTypeBundle : ascii := "#"%char.
Definition OSC_BUNDLE_HEADER : Mem :=
  mem_of ["#"; "b"; "u"; "n"; "d"; "l"; "e"; "000"]%char.
Definition OscTypeTagInt32 : ascii := "i"%char.
Definition OscTypeTagFloat32 : ascii := "f"%char.
Definition OscTypeTagString : ascii := "s"%char.
Definition OscTypeTagBlob : ascii := "b"%char.
Definition OscTypeTagInt64 : ascii := "h"%char.
Definition OscTypeTagTimeTag : ascii := "t"%char.
Definition OscTypeTagDouble : ascii := "d"%char.
Definition OscTypeTagAlternateString : ascii := "S"%char.
Definition OscTypeTagCharacter : ascii := "c"%char.
Definition OscTypeTagRgbaColour : ascii := "r"%char.
Definition OscTypeTagMidiMessage : ascii := "m"%char.
Definition OscTypeTagTrue : ascii := "T"%char.
Definition OscTypeTagFalse : ascii := "F"%char.
Definition OscTypeTagNil : ascii := "N"%char.
Definition OscTypeTagInfinitum : ascii := "I"%char.
Definition OscTypeTagBeginArray : ascii := "["%char.
Definition OscTypeTagEndArray : ascii := "]"%char.

(** [OSC_CONTENTS_IS_MESSAGE] and [OSC_CONTENTS_IS_BUNDLE] read the first
    byte behind the contents pointer. *)
Definition OSC_CONTENTS_IS_MESSAGE (oscContents : Mem) : bool :=
  (oscContents 0 =? OscContentsTypeMessage)%char.
Definition OSC_CONTENTS_IS_BUNDLE (oscContents : Mem) : bool :=
  (oscContents 0 =? OscContentsTypeBundle)%char.

(** ** OscMessage.c *)

Record OscMessage := mkOscMessage {
  oscAddressPattern : Mem;
  oscTypeTagString : Mem;
  arguments : Mem;
  oscAddressPatternLength : nat;
  oscTypeTagStringLength : nat;
  argumentsSize : nat;
  oscTypeTagStringIndex : nat;
  argumentsIndex : nat
}.

(** Modelled from the spec: the structures [RgbaColour] and [MidiMessage] of
    the missing header, four octets each, transmitted in the order of
    section 3.1; the first octet is [byte3] of the union. *)
Record RgbaColour := mkRgbaColour { red : ascii; green : ascii; blue : ascii; alpha : ascii }.
Record MidiMessage := mkMidiMessage { portID : ascii; status : ascii; data1 : ascii; data2 : ascii }.

(** [oscMessage->oscTypeTagString[oscMessage->oscTypeTagStringLength++] = tag;
     oscMessage->oscTypeTagString[oscMessage->oscTypeTagStringLength] = '\0';] *)
Definition push_tag (m : OscMessage) (tag : ascii) : OscMessage :=
  {| oscAddressPattern := oscAddressPattern m;
     oscTypeTagString :=
       store (store (oscTypeTagString m) (oscTypeTagStringLength m) tag)
             (S (oscTypeTagStringLength m)) "000"%char;
     arguments := arguments m;
     oscAddressPatternLength := oscAddressPatternLength m;
     oscTypeTagStringLength := S (oscTypeTagStringLength m);
     argumentsSize := argumentsSize m;
     oscTypeTagStringIndex := oscTypeTagStringIndex m;
     argumentsIndex := argumentsIndex m |}.

(** [oscMessage->arguments[oscMessage->argumentsSize++] = c;] *)
Definition push_argument (m : OscMessage) (c : ascii) : OscMessage :=
  {| oscAddressPattern := oscAddressPattern m;
     oscTypeTagString := oscTypeTagString m;
     arguments := store (arguments m) (argumentsSize m) c;
     oscAddressPatternLength := oscAddressPatternLength m;
     oscTypeTagStringLength := oscTypeTagStringLength m;
     argumentsSize := S (argumentsSize m);
     oscTypeTagStringIndex := oscTypeTagStringIndex m;
     argumentsIndex := argumentsIndex m |}.

Definition set_arguments (m : OscMessage) (a : Mem) (n : nat) : OscMessage :=
  {| oscAddressPattern := oscAddressPattern m;
     oscTypeTagString := oscTypeTagString m;
     arguments := a;
     oscAddressPatternLength := oscAddressPatternLength m;
     oscTypeTagStringLength := oscTypeTagStringLength m;
     argumentsSize := n;
     oscTypeTagStringIndex := oscTypeTagStringIndex m;
     argumentsIndex := argumentsIndex m |}.

Definition set_address (m : OscMessage) (a : Mem) (n : nat) : OscMessage :=
  {| oscAddressPattern := a;
     oscTypeTagString := oscTypeTagString m;
     arguments := arguments m;
     oscAddressPatternLength := n;
     oscTypeTagStringLength := oscTypeTagStringLength m;
     argumentsSize := argumentsSize m;
     oscTypeTagStringIndex := oscTypeTagStringIndex m;
     argumentsIndex := argumentsIndex m |}.

Definition set_type_tags (m : OscMessage) (a : Mem) (n : nat) : OscMessage :=
  {| oscAddressPattern := oscAddressPattern m;
     oscTypeTagString := a;
     arguments := arguments m;
     oscAddressPatternLength := oscAddressPatternLength m;
     oscTypeTagStringLength := n;
     argumentsSize := argumentsSize m;
     oscTypeTagStringIndex := oscTypeTagStringIndex m;
     argumentsIndex := argumentsIndex m |}.

Definition set_indexes (m : OscMessage) (t a : nat) : OscMessage :=
  {| oscAddressPattern := oscAddressPattern m;
     oscTypeTagString := oscTypeTagString m;
     arguments := arguments m;
     oscAddressPatternLength := oscAddressPatternLength m;
     oscTypeTagStringLength := oscTypeTagStringLength m;
     argumentsSize := argumentsSize m;
     oscTypeTagStringIndex := t;
     argumentsIndex := a |}.

Section Message.
Context {L : Limits}.

(** The [while] loop over the characters of [appendedParts] of
    [OscMessageAppendAddressPattern].  A C string is the list of its
    characters; the end of the list is its terminating null, and a null
    inside the list ends the string there. *)
Fixpoint append_address_loop (appendedParts : list ascii) (m : OscMessage)
  : OscMessage * Z :=
  match appendedParts with
  | [] => (m, 0%Z)
  | c :: appendedParts =>
      if (c =? "000")%char then (m, 0%Z)
      else if MAX_OSC_ADDRESS_PATTERN_LENGTH <=? oscAddressPatternLength m then
        (m, 1%Z)  (* error: address pattern too long *)
      else
        append_address_loop appendedParts
          (set_address m (store (oscAddressPattern m) (oscAddressPatternLength m) c)
                       (S (oscAddressPatternLength m)))
  end.

Definition OscMessageAppendAddressPattern (m : OscMessage) (appendedParts : list ascii)
  : OscMessage * Z :=
  if negb (hd "000"%char appendedParts =? OscContentsTypeMessage)%char then
    (m, 1%Z)  (* error: address must start with '/' *)
  else
    let '(m, rc) := append_address_loop appendedParts m in
    if (rc =? 0)%Z then
      (set_address m (store (oscAddressPattern m) (oscAddressPatternLength m) "000"%char)
                   (oscAddressPatternLength m), 0%Z)
    else (m, 1%Z).

Definition OscMessageSetAddressPattern (m : OscMessage) (newAddressPattern : list ascii)
  : OscMessage * Z :=
  OscMessageAppendAddressPattern (set_address m (oscAddressPattern m) 0) newAddressPattern.

Definition OscMessageInitialise (m : OscMessage) (newAddressPattern : list ascii)
  : OscMessage * Z :=
  let m :=
    {| oscAddressPattern := store (oscAddressPattern m) 0 "000"%char;
       oscTypeTagString := store (store (oscTypeTagString m) 0 ","%char) 1 "000"%char;
       arguments := arguments m;
       oscAddressPatternLength := 0;
       oscTypeTagStringLength := 1;
       argumentsSize := 0;
       oscTypeTagStringIndex := 1;
       argumentsIndex := 0 |} in
  if negb (hd "000"%char newAddressPattern =? "000")%char then
    OscMessageSetAddressPattern m newAddressPattern
  else (m, 0%Z).

(** The body shared by [OscMessageAddInt32], [OscMessageAddFloat32],
    [OscMessageAddCharacter], [OscMessageAddRgbaColour] and
    [OscMessageAddMidiMessage]: the two capacity tests, the tag, then the four
    bytes [byte3 .. byte0]. *)
Definition add_argument32 (m : OscMessage) (tag byte3 byte2 byte1 byte0 : ascii)
  : OscMessage * Z :=
  if MAX_NUMBER_OF_ARGUMENTS <? oscTypeTagStringLength m then (m, 1%Z)
  else if MAX_ARGUMENTS_SIZE <? argumentsSize m + 4 then (m, 1%Z)
  else
    let m := push_tag m tag in
    let m := push_argument m byte3 in
    let m := push_argument m byte2 in
    let m := push_argument m byte1 in
    let m := push_argument m byte0 in
    (m, 0%Z).

(** The body shared by [OscMessageAddInt64], [OscMessageAddTimeTag] and
    [OscMessageAddDouble]. *)
Definition add_argument64 (m : OscMessage) (tag : ascii) (v : Z) : OscMessage * Z :=
  if MAX_NUMBER_OF_ARGUMENTS <? oscTypeTagStringLength m then (m, 1%Z)
  else if MAX_ARGUMENTS_SIZE <? argumentsSize m + 8 then (m, 1%Z)
  else
    let m := push_tag m tag in
    let m := push_argument m (byteN 7 v) in
    let m := push_argument m (byteN 6 v) in
    let m := push_argument m (byteN 5 v) in
    let m := push_argument m (byteN 4 v) in
    let m := push_argument m (byteN 3 v) in
    let m := push_argument m (byteN 2 v) in
    let m := push_argument m (byteN 1 v) in
    let m := push_argument m (byteN 0 v) in
    (m, 0%Z).

(** The body shared by the six functions that add a tag without payload. *)
Definition add_tag_only (m : OscMessage) (tag : ascii) : OscMessage * Z :=
  if MAX_NUMBER_OF_ARGUMENTS <? oscTypeTagStringLength m then (m, 1%Z)
  else (push_tag m tag, 0%Z).

Definition OscMessageAddInt32 (m : OscMessage) (int32 : Z) : OscMessage * Z :=
  add_argument32 m OscTypeTagInt32 (byteN 3 int32) (byteN 2 int32) (byteN 1 int32) (byteN 0 int32).

Definition OscMessageAddFloat32 (m : OscMessage) (float32 : Z) : OscMessage * Z :=
  add_argument32 m OscTypeTagFloat32
    (byteN 3 float32) (byteN 2 float32) (byteN 1 float32) (byteN 0 float32).

(** [TerminateOscString]: the [do ... while] loop that adds null characters
    until the size is a multiple of 4.
    [room] is the maximum size minus the current size, so that [room = 0] is
    the test that the current size has reached the maximum. *)
Fixpoint TerminateOscString_loop (room : nat) (oscString : Mem) (oscStringSize : nat)
  : Mem * nat * Z :=
  match room with
  | 0 => (oscString, oscStringSize, 1%Z)  (* error: string exceeds maximum size *)
  | S room =>
      let oscString := store oscString oscStringSize "000"%char in
      let oscStringSize := S oscStringSize in
      if negb (oscStringSize mod 4 =? 0) then
        TerminateOscString_loop room oscString oscStringSize
      else (oscString, oscStringSize, 0%Z)
  end.

Definition TerminateOscString (oscString : Mem) (oscStringSize maxOscStringSize : nat)
  : Mem * nat * Z :=
  TerminateOscString_loop (maxOscStringSize - oscStringSize) oscString oscStringSize.

(** The [while] loop over the characters of [string] of [OscMessageAddString] on the local
    copy [argumentsSize]; the writes go to the arguments of the message. *)
Fixpoint add_string_loop (string : list ascii) (arguments : Mem) (argumentsSize : nat)
  : Mem * nat * Z :=
  match string with
  | [] => (arguments, argumentsSize, 0%Z)
  | c :: string =>
      if (c =? "000")%char then (arguments, argumentsSize, 0%Z)
      else if MAX_ARGUMENTS_SIZE <=? argumentsSize then
        (arguments, argumentsSize, 1%Z)  (* error: message full *)
      else add_string_loop string (store arguments argumentsSize c) (S argumentsSize)
  end.

Definition OscMessageAddString (m : OscMessage) (string : list ascii) : OscMessage * Z :=
  if MAX_NUMBER_OF_ARGUMENTS <? oscTypeTagStringLength m then (m, 1%Z)
  else
    (* local copy of argumentsSize in case function returns error *)
    let '(args, localSize, rc) := add_string_loop string (arguments m) (argumentsSize m) in
    if negb (rc =? 0)%Z then (set_arguments m args (argumentsSize m), 1%Z)
    else
      let '(args, localSize, rc) := TerminateOscString args localSize MAX_ARGUMENTS_SIZE in
      if negb (rc =? 0)%Z then (set_arguments m args (argumentsSize m), 1%Z)
      else (push_tag (set_arguments m args localSize) OscTypeTagString, 0%Z).

(** The [while (argumentsSize % 4 != 0)] loop of [OscMessageAddBlob];
    [room] is [MAX_ARGUMENTS_SIZE - argumentsSize]. *)
Fixpoint add_blob_pad_loop (room : nat) (arguments : Mem) (argumentsSize : nat)
  : Mem * nat * Z :=
  if argumentsSize mod 4 =? 0 then (arguments, argumentsSize, 0%Z)
  else
    match room with
    | 0 => (arguments, argumentsSize, 1%Z)  (* error: message full *)
    | S room => add_blob_pad_loop room (store arguments argumentsSize "000"%char) (S argumentsSize)
    end.

Definition OscMessageAddBlob (m : OscMessage) (source : Mem) (sourceSize : nat)
  : OscMessage * Z :=
  if MAX_NUMBER_OF_ARGUMENTS <? oscTypeTagStringLength m then (m, 1%Z)
  else if MAX_ARGUMENTS_SIZE <? argumentsSize m + 4 + sourceSize then (m, 1%Z)
  else
    (* local copy of argumentsSize in case function returns error *)
    let localSize := argumentsSize m in
    let blobSize := Z.of_nat sourceSize in
    let args := store (arguments m) localSize (byteN 3 blobSize) in
    let args := store args (localSize + 1) (byteN 2 blobSize) in
    let args := store args (localSize + 2) (byteN 1 blobSize) in
    let args := store args (localSize + 3) (byteN 0 blobSize) in
    let args := copy_bytes sourceSize source 0 args (localSize + 4) in
    let localSize := localSize + 4 + sourceSize in
    let '(args, localSize, rc) :=
      add_blob_pad_loop (MAX_ARGUMENTS_SIZE - localSize) args localSize in
    if negb (rc =? 0)%Z then (set_arguments m args (argumentsSize m), 1%Z)
    else (push_tag (set_arguments m args localSize) OscTypeTagBlob, 0%Z).

Definition OscMessageAddInt64 (m : OscMessage) (int64 : Z) : OscMessage * Z :=
  add_argument64 m OscTypeTagInt64 int64.

Definition OscMessageAddTimeTag (m : OscMessage) (oscTimeTag : Z) : OscMessage * Z :=
  add_argument64 m OscTypeTagTimeTag oscTimeTag.

Definition OscMessageAddDouble (m : OscMessage) (double64 : Z) : OscMessage * Z :=
  add_argument64 m OscTypeTagDouble double64.

Definition OscMessageAddAlternateString (m : OscMessage) (string : list ascii)
  : OscMessage * Z :=
  let '(m, rc) := OscMessageAddString m string in
  if negb (rc =? 0)%Z then (m, 1%Z)
  else
    (set_type_tags m
       (store (store (oscTypeTagString m) (oscTypeTagStringLength m - 1) OscTypeTagAlternateString)
              (oscTypeTagStringLength m) "000"%char)
       (oscTypeTagStringLength m), 0%Z).

Definition OscMessageAddCharacter (m : OscMessage) (asciiChar : ascii) : OscMessage * Z :=
  add_argument32 m OscTypeTagCharacter "000"%char "000"%char "000"%char asciiChar.

Definition OscMessageAddRgbaColour (m : OscMessage) (rgbaColour : RgbaColour)
  : OscMessage * Z :=
  add_argument32 m OscTypeTagRgbaColour
    (red rgbaColour) (green rgbaColour) (blue rgbaColour) (alpha rgbaColour).

Definition OscMessageAddMidiMessage (m : OscMessage) (midiMessage : MidiMessage)
  : OscMessage * Z :=
  add_argument32 m OscTypeTagMidiMessage
    (portID midiMessage) (status midiMessage) (data1 midiMessage) (data2 midiMessage).

Definition OscMessageAddBool (m : OscMessage) (boolean : bool) : OscMessage * Z :=
  add_tag_only m (if boolean then OscTypeTagTrue else OscTypeTagFalse).

Definition OscMessageAddNil (m : OscMessage) : OscMessage * Z :=
  add_tag_only m OscTypeTagNil.

Definition OscMessageAddInfinitum (m : OscMessage) : OscMessage * Z :=
  add_tag_only m OscTypeTagInfinitum.

Definition OscMessageAddBeginArray (m : OscMessage) : OscMessage * Z :=
  add_tag_only m OscTypeTagBeginArray.

Definition OscMessageAddEndArray (m : OscMessage) : OscMessage * Z :=
  add_tag_only m OscTypeTagEndArray.

Definition OscMessageGetSize (m : OscMessage) : nat :=
  let messageSize := 0 in
  let messageSize := messageSize + (oscAddressPatternLength m + 1) in
  let messageSize :=
    if negb (messageSize mod 4 =? 0) then messageSize + (4 - messageSize mod 4)
    else messageSize in
  let messageSize := messageSize + (oscTypeTagStringLength m + 1) in
  let messageSize :=
    if negb (messageSize mod 4 =? 0) then messageSize + (4 - messageSize mod 4)
    else messageSize in
  messageSize + argumentsSize m.

(** The result is the destination memory, [*oscMessageSize] and the return
    code. *)
Definition OscMessageToCharArray (m : OscMessage) (destination : Mem)
    (destinationSize : nat) : Mem * nat * Z :=
  (* Address pattern *)
  if oscAddressPatternLength m =? 0 then (destination, 0, 1%Z)
  else if negb (oscAddressPattern m 0 =? OscContentsTypeMessage)%char then (destination, 0, 1%Z)
  else if destinationSize <? oscAddressPatternLength m then (destination, 0, 1%Z)
  else
    let destination :=
      copy_bytes (oscAddressPatternLength m) (oscAddressPattern m) 0 destination 0 in
    let messageSize := oscAddressPatternLength m in
    let '(destination, messageSize, rc) :=
      TerminateOscString destination messageSize destinationSize in
    if negb (rc =? 0)%Z then (destination, 0, 1%Z)
    (* Type tag string *)
    else if destinationSize <? messageSize + oscTypeTagStringLength m then (destination, 0, 1%Z)
    else
      let destination :=
        copy_bytes (oscTypeTagStringLength m) (oscTypeTagString m) 0 destination messageSize in
      let messageSize := messageSize + oscTypeTagStringLength m in
      let '(destination, messageSize, rc) :=
        TerminateOscString destination messageSize destinationSize in
      if negb (rc =? 0)%Z then (destination, 0, 1%Z)
      (* Arguments *)
      else if destinationSize <? messageSize + argumentsSize m then (destination, 0, 1%Z)
      else
        let destination :=
          copy_bytes (argumentsSize m) (arguments m) 0 destination messageSize in
        (destination, messageSize + argumentsSize m, 0%Z).

(** The first loop of [OscMessageInitialiseFromCharArray], which copies the
    address pattern.  [remaining] is [sourceSize - (sourceIndex + 1)], so that
    [remaining = 0] is the test [++sourceIndex >= sourceSize]. *)
Fixpoint parse_address_loop (remaining : nat) (source : Mem) (sourceIndex : nat) (m : OscMessage)
  : OscMessage * nat * Z :=
  if (source sourceIndex =? "000")%char then (m, sourceIndex, 0%Z)
  else
    let m := set_address m (store (oscAddressPattern m) (oscAddressPatternLength m)
                                  (source sourceIndex))
                         (S (oscAddressPatternLength m)) in
    if MAX_OSC_ADDRESS_PATTERN_LENGTH <? oscAddressPatternLength m then
      (m, sourceIndex, 1%Z)  (* error: OSC address pattern too long *)
    else
      match remaining with
      | 0 => (m, S sourceIndex, 1%Z)  (* error: unexpected end of source *)
      | S remaining => parse_address_loop remaining source (S sourceIndex) m
      end.

(** The second loop, [while (source[sourceIndex - 1] != ',')]; [remaining] as
    above. *)
Fixpoint parse_comma_loop (remaining : nat) (source : Mem) (sourceIndex : nat) : nat * Z :=
  if (source (sourceIndex - 1) =? ",")%char then (sourceIndex, 0%Z)
  else
    match remaining with
    | 0 => (S sourceIndex, 1%Z)  (* error: unexpected end of source *)
    | S remaining => parse_comma_loop remaining source (S sourceIndex)
    end.

(** The third loop, which copies the type tags; [remaining] as above. *)
Fixpoint parse_type_tag_loop (remaining : nat) (source : Mem) (sourceIndex : nat) (m : OscMessage)
  : OscMessage * nat * Z :=
  if (source sourceIndex =? "000")%char then (m, sourceIndex, 0%Z)
  else
    let m := set_type_tags m (store (oscTypeTagString m) (oscTypeTagStringLength m)
                                    (source sourceIndex))
                           (S (oscTypeTagStringLength m)) in
    if MAX_OSC_TYPE_TAG_STRING_LENGTH <? oscTypeTagStringLength m then
      (m, sourceIndex, 1%Z)  (* error: type tag string too long *)
    else
      match remaining with
      | 0 => (m, S sourceIndex, 1%Z)  (* error: unexpected end of source *)
      | S remaining => parse_type_tag_loop remaining source (S sourceIndex) m
      end.

(** The [do ... while (sourceIndex % 4 != 0)] loop; [room] is
    [sourceSize - sourceIndex], so that [room = 0] is the test
    [++sourceIndex > sourceSize]. *)
Fixpoint parse_align_loop (room : nat) (sourceIndex : nat) : nat * Z :=
  match room with
  | 0 => (S sourceIndex, 1%Z)  (* error: unexpected end of source *)
  | S room =>
      let sourceIndex := S sourceIndex in
      if negb (sourceIndex mod 4 =? 0) then parse_align_loop room sourceIndex
      else (sourceIndex, 0%Z)
  end.

(** The arrays of the structure are memories without an end.  The two string
    loops test the length before they go on, so that they stay within
    [MAX_OSC_ADDRESS_PATTERN_LENGTH + 1] and [MAX_OSC_TYPE_TAG_STRING_LENGTH + 1]
    characters; the last loop copies the argument bytes without a test against
    [MAX_ARGUMENTS_SIZE], the bound that every [OscMessageAdd...] function
    tests before it writes to [arguments].  The definition is the C function
    as long as the [argumentsSize] of the result is at most
    [MAX_ARGUMENTS_SIZE]; beyond that the C function writes past what the
    array [arguments] holds, which a memory of its own for [arguments] does
    not show. *)
Definition OscMessageInitialiseFromCharArray (m : OscMessage) (source : Mem)
    (sourceSize : nat) : OscMessage * Z :=
  let m := fst (OscMessageInitialise m []) in
  (* Return error if not valid OSC message *)
  if negb (sourceSize mod 4 =? 0) then (m, 1%Z)
  else if sourceSize <? MIN_OSC_MESSAGE_SIZE then (m, 1%Z)
  else if MAX_OSC_MESSAGE_SIZE <? sourceSize then (m, 1%Z)
  else if negb (source 0 =? OscContentsTypeMessage)%char then (m, 1%Z)
  else
    (* OSC address pattern *)
    let '(m, sourceIndex, rc) := parse_address_loop (sourceSize - 1) source 0 m in
    if negb (rc =? 0)%Z then (m, 1%Z)
    else
      let m := set_address m (store (oscAddressPattern m) (oscAddressPatternLength m) "000"%char)
                           (oscAddressPatternLength m) in
      (* Advance index to OSC type tag string *)
      let '(sourceIndex, rc) :=
        parse_comma_loop (sourceSize - (sourceIndex + 1)) source sourceIndex in
      if negb (rc =? 0)%Z then (m, 1%Z)
      else
        (* OSC type tag string *)
        let '(m, sourceIndex, rc) :=
          parse_type_tag_loop (sourceSize - (sourceIndex + 1)) source sourceIndex m in
        if negb (rc =? 0)%Z then (m, 1%Z)
        else
          let m := set_type_tags m
                     (store (oscTypeTagString m) (oscTypeTagStringLength m) "000"%char)
                     (oscTypeTagStringLength m) in
          (* Advance index to arguments *)
          let '(sourceIndex, rc) := parse_align_loop (sourceSize - sourceIndex) sourceIndex in
          if negb (rc =? 0)%Z then (m, 1%Z)
          else
            (* Arguments *)
            (set_arguments m
               (copy_bytes (sourceSize - sourceIndex) source sourceIndex
                           (arguments m) (argumentsSize m))
               (argumentsSize m + (sourceSize - sourceIndex)), 0%Z).

(** [oscTypeTagStringLength - 1] is an unsigned subtraction: at length 0 it
    wraps to the highest value, which no index exceeds. *)
Definition OscMessageIsArgumentAvailable (m : OscMessage) : bool :=
  if oscTypeTagStringLength m =? 0 then true
  else oscTypeTagStringIndex m <=? oscTypeTagStringLength m - 1.

Definition OscMessageGetArgumentType (m : OscMessage) : ascii :=
  if oscTypeTagStringLength m <? oscTypeTagStringIndex m then "000"%char
  else oscTypeTagString m (oscTypeTagStringIndex m).

Definition OscMessageSkipArgument (m : OscMessage) : OscMessage * Z :=
  if oscTypeTagStringLength m <? oscTypeTagStringIndex m then (m, 1%Z)
  else (set_indexes m (S (oscTypeTagStringIndex m)) (argumentsIndex m), 0%Z).

(** The body shared by the readers of a 32-bit argument.  The third
    component is the four bytes [byte3 .. byte0] read into the union, when
    the function gets that far. *)
Definition get_argument32 (m : OscMessage) (tag : ascii)
  : OscMessage * Z * option (ascii * ascii * ascii * ascii) :=
  if negb (oscTypeTagString m (oscTypeTagStringIndex m) =? tag)%char then (m, 1%Z, None)
  else if argumentsSize m <? argumentsIndex m + 4 then (m, 1%Z, None)
  else
    let i := argumentsIndex m in
    (set_indexes m (S (oscTypeTagStringIndex m)) (i + 4), 0%Z,
     Some (arguments m i, arguments m (i + 1), arguments m (i + 2), arguments m (i + 3))).

(** The body shared by the readers of a 64-bit argument; the value is the
    unsigned integer assembled from [byte7 .. byte0]. *)
Definition get_argument64 (m : OscMessage) (tag : ascii) : OscMessage * Z * option Z :=
  if negb (oscTypeTagString m (oscTypeTagStringIndex m) =? tag)%char then (m, 1%Z, None)
  else if argumentsSize m <? argumentsIndex m + 8 then (m, 1%Z, None)
  else
    let i := argumentsIndex m in
    (set_indexes m (S (oscTypeTagStringIndex m)) (i + 8), 0%Z,
     Some (uint_of_bytes (bytes (offset (arguments m) i) 8))).

Definition OscMessageGetInt32 (m : OscMessage) : OscMessage * Z * option Z :=
  let '(m, rc, r) := get_argument32 m OscTypeTagInt32 in
  (m, rc, match r with
          | Some (b3, b2, b1, b0) => Some (int32_of_bytes b3 b2 b1 b0)
          | None => None
          end).

Definition OscMessageGetFloat32 (m : OscMessage) : OscMessage * Z * option Z :=
  let '(m, rc, r) := get_argument32 m OscTypeTagFloat32 in
  (m, rc, match r with
          | Some (b3, b2, b1, b0) => Some (uint_of_bytes [b3; b2; b1; b0])
          | None => None
          end).

(** The [do ... while (arguments[argumentsIndex++] != 0)] loop of
    [OscMessageGetString]; [room] is [destinationSize - destinationIndex], so
    that [room = 0] is the test [++destinationIndex > destinationSize]. *)
Fixpoint get_string_loop (room : nat) (arguments : Mem) (argumentsIndex : nat)
    (destination : Mem) (destinationIndex : nat) : Mem * nat * Z :=
  let destination := store destination destinationIndex (arguments argumentsIndex) in
  match room with
  | 0 => (destination, argumentsIndex, 1%Z)  (* error: destination too small *)
  | S room =>
      if (arguments argumentsIndex =? "000")%char then (destination, S argumentsIndex, 0%Z)
      else get_string_loop room arguments (S argumentsIndex) destination (S destinationIndex)
  end.

(** The [while (argumentsIndex % 4 != 0)] loop of [OscMessageGetString] and
    [OscMessageGetBlob]; [room] is [argumentsSize - argumentsIndex], so that
    [room = 0] is the test [++argumentsIndex > argumentsSize]. *)
Fixpoint get_align_loop (room : nat) (argumentsIndex : nat) : nat * Z :=
  if argumentsIndex mod 4 =? 0 then (argumentsIndex, 0%Z)
  else
    match room with
    | 0 => (S argumentsIndex, 1%Z)  (* error: message too short to contain argument *)
    | S room => get_align_loop room (S argumentsIndex)
    end.

(** The result is the message, the destination memory and the return code. *)
Definition OscMessageGetString (m : OscMessage) (destination : Mem) (destinationSize : nat)
  : OscMessage * Mem * Z :=
  let tag := oscTypeTagString m (oscTypeTagStringIndex m) in
  if negb (tag =? OscTypeTagString)%char && negb (tag =? OscTypeTagAlternateString)%char then
    (m, destination, 1%Z)
  else if argumentsSize m <? argumentsIndex m + 4 then (m, destination, 1%Z)
  else if destinationSize <? 4 then (m, destination, 1%Z)
  else
    (* local copy of argumentsIndex in case function returns error *)
    let '(destination, localIndex, rc) :=
      get_string_loop destinationSize (arguments m) (argumentsIndex m) destination 0 in
    if negb (rc =? 0)%Z then (m, destination, 1%Z)
    else
      let '(localIndex, rc) := get_align_loop (argumentsSize m - localIndex) localIndex in
      if negb (rc =? 0)%Z then (m, destination, 1%Z)
      else (set_indexes m (S (oscTypeTagStringIndex m)) localIndex, destination, 0%Z).

(** The result is the message, [*blobSize] when it is written, the
    destination memory and the return code. *)
Definition OscMessageGetBlob (m : OscMessage) (destination : Mem) (destinationSize : nat)
  : OscMessage * option Z * Mem * Z :=
  if negb (oscTypeTagString m (oscTypeTagStringIndex m) =? OscTypeTagBlob)%char then
    (m, None, destination, 1%Z)
  else if argumentsSize m <? argumentsIndex m + 4 then (m, None, destination, 1%Z)
  else
    (* local copy of argumentsIndex in case function returns error *)
    let localIndex := argumentsIndex m in
    let blobSizeArgument :=
      int32_of_bytes (arguments m localIndex) (arguments m (localIndex + 1))
                     (arguments m (localIndex + 2)) (arguments m (localIndex + 3)) in
    let localIndex := localIndex + 4 in
    if gt_size_t (Z.of_nat localIndex + blobSizeArgument) (argumentsSize m) then
      (m, None, destination, 1%Z)
    else if gt_size_t blobSizeArgument destinationSize then (m, None, destination, 1%Z)
    else
      let n := Z.to_nat blobSizeArgument in
      let destination := copy_bytes n (arguments m) localIndex destination 0 in
      let localIndex := localIndex + n in
      let '(localIndex, rc) := get_align_loop (argumentsSize m - localIndex) localIndex in
      if negb (rc =? 0)%Z then (m, None, destination, 1%Z)
      else (set_indexes m (S (oscTypeTagStringIndex m)) localIndex,
            Some blobSizeArgument, destination, 0%Z).

Definition OscMessageGetInt64 (m : OscMessage) : OscMessage * Z * option Z :=
  let '(m, rc, r) := get_argument64 m OscTypeTagInt64 in
  (m, rc, match r with
          | Some u => Some (if (u <? 2 ^ 63)%Z then u else (u - 2 ^ 64)%Z)
          | None => None
          end).

Definition OscMessageGetTimeTag (m : OscMessage) : OscMessage * Z * option Z :=
  get_argument64 m OscTypeTagTimeTag.

Definition OscMessageGetDouble (m : OscMessage) : OscMessage * Z * option Z :=
  get_argument64 m OscTypeTagDouble.

Definition OscMessageGetCharacter (m : OscMessage) : OscMessage * Z * option ascii :=
  if negb (oscTypeTagString m (oscTypeTagStringIndex m) =? OscTypeTagCharacter)%char then
    (m, 1%Z, None)
  else if argumentsSize m <? argumentsIndex m + 4 then (m, 1%Z, None)
  else
    let i := argumentsIndex m + 3 in
    (set_indexes m (S (oscTypeTagStringIndex m)) (S i), 0%Z, Some (arguments m i)).

Definition OscMessageGetRgbaColour (m : OscMessage) : OscMessage * Z * option RgbaColour :=
  let '(m, rc, r) := get_argument32 m OscTypeTagRgbaColour in
  (m, rc, match r with
          | Some (b3, b2, b1, b0) => Some (mkRgbaColour b3 b2 b1 b0)
          | None => None
          end).

Definition OscMessageGetMidiMessage (m : OscMessage) : OscMessage * Z * option MidiMessage :=
  let '(m, rc, r) := get_argument32 m OscTypeTagMidiMessage in
  (m, rc, match r with
          | Some (b3, b2, b1, b0) => Some (mkMidiMessage b3 b2 b1 b0)
          | None => None
          end).

End Message.

(** ** OscBundle.c *)

Record OscBundle := mkOscBundle {
  header : Mem;
  oscTimeTag : Z;
  oscBundleElements : Mem;
  oscBundleElementsSize : nat;
  oscBundleElementsIndex : nat
}.

Record OscBundleElement := mkOscBundleElement {
  elementContents : Mem;   (* the member [contents], a pointer into the bundle *)
  elementSize : Z          (* the member [size.int32] *)
}.

Section Bundle.
Context {L : Limits}.

Definition OscBundleInitialise (b : OscBundle) (oscTimeTag : Z) : OscBundle :=
  {| header := copy_bytes 8 OSC_BUNDLE_HEADER 0 (header b) 0;
     oscTimeTag := oscTimeTag;
     oscBundleElements := oscBundleElements b;
     oscBundleElementsSize := 0;
     oscBundleElementsIndex := oscBundleElementsIndex b |}.

Definition OscBundleEmpty (b : OscBundle) : OscBundle :=
  {| header := header b;
     oscTimeTag := oscTimeTag b;
     oscBundleElements := oscBundleElements b;
     oscBundleElementsSize := 0;
     oscBundleElementsIndex := oscBundleElementsIndex b |}.

Definition OscBundleIsEmpty (b : OscBundle) : bool := oscBundleElementsSize b =? 0.

Definition OscBundleGetSize (b : OscBundle) : nat := 8 + 8 + oscBundleElementsSize b.

(** The result is the destination memory, [*oscBundleSize] and the return
    code. *)
Definition OscBundleToCharArray (b : OscBundle) (destination : Mem) (destinationSize : nat)
  : Mem * nat * Z :=
  if destinationSize <? 8 + 8 + oscBundleElementsSize b then (destination, 0, 1%Z)
  else
    let destination := copy_bytes 8 (header b) 0 destination 0 in
    let destination := store destination 8 (byteN 7 (oscTimeTag b)) in
    let destination := store destination 9 (byteN 6 (oscTimeTag b)) in
    let destination := store destination 10 (byteN 5 (oscTimeTag b)) in
    let destination := store destination 11 (byteN 4 (oscTimeTag b)) in
    let destination := store destination 12 (byteN 3 (oscTimeTag b)) in
    let destination := store destination 13 (byteN 2 (oscTimeTag b)) in
    let destination := store destination 14 (byteN 1 (oscTimeTag b)) in
    let destination := store destination 15 (byteN 0 (oscTimeTag b)) in
    let destination :=
      copy_bytes (oscBundleElementsSize b) (oscBundleElements b) 0 destination 16 in
    (destination, 16 + oscBundleElementsSize b, 0%Z).

(** The [do ... while (sourceIndex < sourceSize)] loop of
    [OscBundleInitialiseFromCharArray]; [further] is
    [sourceSize - (sourceIndex + 1)], the number of turns after this one, so
    that [further = 0] is the end of the loop. *)
Fixpoint parse_elements_loop (further : nat) (source : Mem) (sourceIndex : nat)
    (oscBundleElements : Mem) (oscBundleElementsSize : nat) : Mem * nat :=
  let oscBundleElements :=
    store oscBundleElements oscBundleElementsSize (source sourceIndex) in
  match further with
  | 0 => (oscBundleElements, S oscBundleElementsSize)
  | S further =>
      parse_elements_loop further source (S sourceIndex)
        oscBundleElements (S oscBundleElementsSize)
  end.

Definition OscBundleInitialiseFromCharArray (b : OscBundle) (source : Mem) (sourceSize : nat)
  : OscBundle * Z :=
  (* Return error if not valid bundle *)
  if negb (sourceSize mod 4 =? 0) then (b, 1%Z)
  else if sourceSize <? MIN_OSC_BUNDLE_SIZE then (b, 1%Z)
  else if MAX_OSC_BUNDLE_SIZE <? sourceSize then (b, 1%Z)
  else if negb (source 0 =? OscContentsTypeBundle)%char then (b, 1%Z)
  else
    let '(elements, elementsSize) :=
      parse_elements_loop (sourceSize - (16 + 1)) source 16 (oscBundleElements b) 0 in
    ({| header := copy_bytes 8 source 0 (header b) 0;
        oscTimeTag := uint_of_bytes (bytes (offset source 8) 8);
        oscBundleElements := elements;
        oscBundleElementsSize := elementsSize;
        oscBundleElementsIndex := 0 |}, 0%Z).

Definition OscBundleIsBundleElementAvailable (b : OscBundle) : bool :=
  oscBundleElementsIndex b + 4 <? oscBundleElementsSize b.

(** [e] is the element structure of the caller, whose [contents] member is
    left alone when the function fails. *)
Definition OscBundleGetBundleElement (b : OscBundle) (e : OscBundleElement)
  : OscBundle * OscBundleElement * Z :=
  if oscBundleElementsSize b <=? oscBundleElementsIndex b + 4 then
    (b, e, 1%Z)  (* error: too few bytes to contain bundle element *)
  else
    let i := oscBundleElementsIndex b in
    let size := int32_of_bytes (oscBundleElements b i) (oscBundleElements b (i + 1))
                               (oscBundleElements b (i + 2)) (oscBundleElements b (i + 3)) in
    let b := {| header := header b;
                oscTimeTag := oscTimeTag b;
                oscBundleElements := oscBundleElements b;
                oscBundleElementsSize := oscBundleElementsSize b;
                oscBundleElementsIndex := i + 4 |} in
    let e := {| elementContents := elementContents e; elementSize := size |} in
    if (size <? 0)%Z then (b, e, 1%Z)  (* error: size cannot be negative *)
    else if negb (size mod 4 =? 0)%Z then (b, e, 1%Z)  (* error: size not multiple of 4 *)
    else if (Z.of_nat (oscBundleElementsSize b) <? Z.of_nat (oscBundleElementsIndex b) + size)%Z
    then (b, e, 1%Z)  (* error: too few bytes for indicated size *)
    else
      ({| header := header b;
          oscTimeTag := oscTimeTag b;
          oscBundleElements := oscBundleElements b;
          oscBundleElementsSize := oscBundleElementsSize b;
          oscBundleElementsIndex := oscBundleElementsIndex b + Z.to_nat size |},
       {| elementContents := offset (oscBundleElements b) (oscBundleElementsIndex b);
          elementSize := size |}, 0%Z).

End Bundle.

(** ** OscPacket.c, second part *)

(** The structure behind an [OscContents] pointer that designates a message
    or a bundle structure (rather than bytes inside a packet). *)
Inductive OscContents :=
| ContentsMessage (oscMessage : OscMessage)
| ContentsBundle (oscBundle : OscBundle).

(** The first member of each structure is the array whose first byte the
    macros [OSC_CONTENTS_IS_MESSAGE] and [OSC_CONTENTS_IS_BUNDLE] read. *)
Definition contents_memory (c : OscContents) : Mem :=
  match c with
  | ContentsMessage m => oscAddressPattern m
  | ContentsBundle b => header b
  end.

(** A call of the application's [processMessage]: the time tag of the
    enclosing bundle ([None] for the null pointer) and the message. *)
Definition MessageCall : Type := option Z * OscMessage.

Section Packet.
Context {L : Limits}.

(** [None] stands for the two cases in which a structure would be read
    through a pointer to the other type (a message structure whose first
    byte is ['#'], a bundle structure whose first byte is ['/']), which the
    embedding does not describe. *)
Definition OscPacketInitialiseFromContents (oscPacket : OscPacket) (oscContents : OscContents)
  : option (OscPacket * Z) :=
  let oscError := 1%Z in
  let r1 :=
    if OSC_CONTENTS_IS_MESSAGE (contents_memory oscContents) then
      match oscContents with
      | ContentsMessage m =>
          Some (OscMessageToCharArray m (contents oscPacket) MAX_OSC_PACKET_SIZE)
      | ContentsBundle _ => None
      end
    else Some (contents oscPacket, size oscPacket, oscError) in
  match r1 with
  | None => None
  | Some (c, s, oscError) =>
      let r2 :=
        if OSC_CONTENTS_IS_BUNDLE (contents_memory oscContents) then
          match oscContents with
          | ContentsBundle b => Some (OscBundleToCharArray b c MAX_OSC_PACKET_SIZE)
          | ContentsMessage _ => None
          end
        else Some (c, s, oscError) in
      match r2 with
      | None => None
      | Some (c, s, oscError) =>
          let oscPacket := {| contents := c; size := s; processMessage := false |} in
          if negb (oscError =? 0)%Z then Some (oscPacket, oscError)
          else Some (oscPacket, 1%Z)
      end
  end.

Definition OscPacketInitialiseFromCharArray (oscPacket : OscPacket) (source : Mem)
    (sourceSize : nat) : OscPacket * Z :=
  if MAX_OSC_PACKET_SIZE <? sourceSize then
    ({| contents := contents oscPacket; size := 0;
        processMessage := processMessage oscPacket |}, 1%Z)
  else
    ({| contents := copy_bytes sourceSize source 0 (contents oscPacket) 0;
        size := sourceSize;
        processMessage := false |}, 0%Z).

(** [DeconstructContents].  [m0], [b0] and [e0] are what the uninitialised
    locals [oscMessage], [oscBundle] and [oscBundleElement] hold when they
    are declared.  The result is the return code and the calls of
    [processMessage] made before the return; [None] is the exhaustion of
    [fuel], which bounds the depth of the recursion and the number of turns of
    the loop over the elements of one bundle. *)
Fixpoint DeconstructContents (fuel : nat) (m0 : OscMessage) (b0 : OscBundle)
    (e0 : OscBundleElement) (enclosingTimeTag : option Z) (oscContents : Mem)
    (contentsSize : nat) {struct fuel} : option (Z * list MessageCall) :=
  match fuel with
  | 0 => None
  | S fuel =>
      if contentsSize =? 0 then Some (1%Z, [])  (* error: contents empty *)
      else if OSC_CONTENTS_IS_MESSAGE oscContents then
        (* Contents is message *)
        let oscMessage := fst (OscMessageInitialiseFromCharArray m0 oscContents contentsSize) in
        Some (0%Z, [(enclosingTimeTag, oscMessage)])
      else if OSC_CONTENTS_IS_BUNDLE oscContents then
        (* Contents is bundle *)
        let oscBundle := fst (OscBundleInitialiseFromCharArray b0 oscContents contentsSize) in
        (fix elements (turns : nat) (oscBundle : OscBundle) (oscBundleElement : OscBundleElement)
             {struct turns} : option (Z * list MessageCall) :=
           match turns with
           | 0 => None
           | S turns =>
               if negb (OscBundleIsBundleElementAvailable oscBundle) then
                 Some (0%Z, [])  (* no more bundle elements *)
               else
                 let '(oscBundle, oscBundleElement, oscError) :=
                   OscBundleGetBundleElement oscBundle oscBundleElement in
                 if negb (oscError =? 0)%Z then
                   Some (oscError, [])  (* error: get bundle element failed *)
                 else
                   match DeconstructContents fuel m0 b0 e0
                           (Some (oscTimeTag oscBundle))
                           (elementContents oscBundleElement)
                           (Z.to_nat (elementSize oscBundleElement)) with
                   | None => None
                   | Some (oscError, calls) =>
                       if negb (oscError =? 0)%Z then
                         Some (oscError, calls)  (* error: contents deconstruction failed *)
                       else
                         match elements turns oscBundle oscBundleElement with
                         | None => None
                         | Some (oscError, calls') => Some (oscError, calls ++ calls')
                         end
                   end
           end) fuel oscBundle e0
      else Some (1%Z, [])  (* error: invalid or uninitialised contents *)
  end.

(** The result is the return code and the calls of [processMessage];
    [None] as for [DeconstructContents]. *)
Definition OscPacketProcessMessages (fuel : nat) (m0 : OscMessage) (b0 : OscBundle)
    (e0 : OscBundleElement) (oscPacket : OscPacket) : option (Z * list MessageCall) :=
  if negb (processMessage oscPacket) then Some (1%Z, [])  (* error: user function undefined *)
  else DeconstructContents fuel m0 b0 e0 None (contents oscPacket) (size oscPacket).

End Packet.

(** ** Arguments, and the calls that append and read them *)

Inductive OscArgument :=
| ArgInt32 (int32 : Z)
| ArgFloat32 (float32 : Z)
| ArgString (string : list ascii)
| ArgBlob (blob : list ascii)
| ArgInt64 (int64 : Z)
| ArgTimeTag (oscTimeTag : Z)
| ArgDouble (double64 : Z)
| ArgAlternateString (string : list ascii)
| ArgCharacter (asciiChar : ascii)
| ArgRgbaColour (rgbaColour : RgbaColour)
| ArgMidiMessage (midiMessage : MidiMessage)
| ArgBool (boolean : bool)
| ArgNil
| ArgInfinitum
| ArgBeginArray
| ArgEndArray.

(** The value is one that the C type of the parameter holds: integers in
    the range of their type, floating-point patterns of 32 or 64 bits, strings
    without a null character, blobs whose size is an [int32_t]. *)
Definition argument_ok (a : OscArgument) : Prop :=
  match a with
  | ArgInt32 v => (- 2 ^ 31 <= v < 2 ^ 31)%Z
  | ArgFloat32 v => (0 <= v < 2 ^ 32)%Z
  | ArgString s | ArgAlternateString s => Forall (fun c => c <> "000"%char) s
  | ArgInt64 v => (- 2 ^ 63 <= v < 2 ^ 63)%Z
  | ArgTimeTag v | ArgDouble v => (0 <= v < 2 ^ 64)%Z
  | ArgBlob l => (Z.of_nat (length l) < 2 ^ 31)%Z
  | _ => True
  end.

(** The type tag of an argument and the bytes it occupies among the
    arguments of a message, after the table of section 3.1 of the
    specification. *)
Definition argument_tag (a : OscArgument) : ascii :=
  match a with
  | ArgInt32 _ => OscTypeTagInt32
  | ArgFloat32 _ => OscTypeTagFloat32
  | ArgString _ => OscTypeTagString
  | ArgBlob _ => OscTypeTagBlob
  | ArgInt64 _ => OscTypeTagInt64
  | ArgTimeTag _ => OscTypeTagTimeTag
  | ArgDouble _ => OscTypeTagDouble
  | ArgAlternateString _ => OscTypeTagAlternateString
  | ArgCharacter _ => OscTypeTagCharacter
  | ArgRgbaColour _ => OscTypeTagRgbaColour
  | ArgMidiMessage _ => OscTypeTagMidiMessage
  | ArgBool true => OscTypeTagTrue
  | ArgBool false => OscTypeTagFalse
  | ArgNil => OscTypeTagNil
  | ArgInfinitum => OscTypeTagInfinitum
  | ArgBeginArray => OscTypeTagBeginArray
  | ArgEndArray => OscTypeTagEndArray
  end.

(** The size of a string of [n] characters once [TerminateOscString] has
    added its nulls: the next multiple of 4 above [n]. *)
Definition terminated (n : nat) : nat := n + (4 - n mod 4).

Definition nulls (n : nat) : list ascii := repeat "000"%char n.

Definition big_endian32 (v : Z) : list ascii :=
  [byteN 3 v; byteN 2 v; byteN 1 v; byteN 0 v].

Definition big_endian64 (v : Z) : list ascii :=
  [byteN 7 v; byteN 6 v; byteN 5 v; byteN 4 v; byteN 3 v; byteN 2 v; byteN 1 v; byteN 0 v].

Definition argument_bytes (a : OscArgument) : list ascii :=
  match a with
  | ArgInt32 v | ArgFloat32 v => big_endian32 v
  | ArgString s | ArgAlternateString s => s ++ nulls (4 - length s mod 4)
  | ArgBlob l =>
      big_endian32 (Z.of_nat (length l)) ++ l ++ nulls ((4 - length l mod 4) mod 4)
  | ArgInt64 v | ArgTimeTag v | ArgDouble v => big_endian64 v
  | ArgCharacter c => ["000"; "000"; "000"; c]%char
  | ArgRgbaColour c => [red c; green c; blue c; alpha c]
  | ArgMidiMessage c => [portID c; status c; data1 c; data2 c]
  | ArgBool _ | ArgNil | ArgInfinitum | ArgBeginArray | ArgEndArray => []
  end.

(** A successful [OscMessageAdd...] call: the message [m'] is [m] with one
    more tag and with [wire] after its argument bytes. *)
Definition appended (m m' : OscMessage) (tag : ascii) (wire : list ascii) : Prop :=
  oscTypeTagStringLength m' = S (oscTypeTagStringLength m) /\
  bytes (oscTypeTagString m') (S (oscTypeTagStringLength m)) =
    bytes (oscTypeTagString m) (oscTypeTagStringLength m) ++ [tag] /\
  oscTypeTagString m' (S (oscTypeTagStringLength m)) = "000"%char /\
  argumentsSize m' = argumentsSize m + length wire /\
  bytes (arguments m') (argumentsSize m') =
    bytes (arguments m) (argumentsSize m) ++ wire /\
  oscAddressPattern m' = oscAddressPattern m /\
  oscAddressPatternLength m' = oscAddressPatternLength m /\
  oscTypeTagStringIndex m' = oscTypeTagStringIndex m /\
  argumentsIndex m' = argumentsIndex m.

(** The message holds the arguments [l]: its type tag string is the comma
    and their tags, its argument bytes are theirs, in order. *)
Definition holds_arguments (m : OscMessage) (l : list OscArgument) : Prop :=
  oscTypeTagStringLength m = S (length l) /\
  bytes (oscTypeTagString m) (S (length l)) = ","%char :: map argument_tag l /\
  oscTypeTagString m (S (length l)) = "000"%char /\
  argumentsSize m = length (flat_map argument_bytes l) /\
  bytes (arguments m) (argumentsSize m) = flat_map argument_bytes l.

(** The string held by a destination of [n] bytes: the bytes before the
    first null. *)
Fixpoint c_string (n : nat) (m : Mem) (i : nat) : list ascii :=
  match n with
  | 0 => []
  | S n => if (m i =? "000")%char then [] else m i :: c_string n m (S i)
  end.

Section Calls.
Context {L : Limits}.

(** The [OscMessageAdd...] call for an argument. *)
Definition OscMessageAdd (m : OscMessage) (a : OscArgument) : OscMessage * Z :=
  match a with
  | ArgInt32 v => OscMessageAddInt32 m v
  | ArgFloat32 v => OscMessageAddFloat32 m v
  | ArgString s => OscMessageAddString m s
  | ArgBlob l => OscMessageAddBlob m (mem_of l) (length l)
  | ArgInt64 v => OscMessageAddInt64 m v
  | ArgTimeTag v => OscMessageAddTimeTag m v
  | ArgDouble v => OscMessageAddDouble m v
  | ArgAlternateString s => OscMessageAddAlternateString m s
  | ArgCharacter c => OscMessageAddCharacter m c
  | ArgRgbaColour c => OscMessageAddRgbaColour m c
  | ArgMidiMessage c => OscMessageAddMidiMessage m c
  | ArgBool b => OscMessageAddBool m b
  | ArgNil => OscMessageAddNil m
  | ArgInfinitum => OscMessageAddInfinitum m
  | ArgBeginArray => OscMessageAddBeginArray m
  | ArgEndArray => OscMessageAddEndArray m
  end.

(** A message under construction: [OscMessageInitialise] with an address,
    then the [OscMessageAdd...] calls in order.  The return code is that of
    the first call that fails, after which nothing more is called. *)
Fixpoint add_arguments (m : OscMessage) (l : list OscArgument) : OscMessage * Z :=
  match l with
  | [] => (m, 0%Z)
  | a :: l =>
      let '(m, rc) := OscMessageAdd m a in
      if (rc =? 0)%Z then add_arguments m l else (m, rc)
  end.

Definition build_message (m0 : OscMessage) (address : list ascii) (l : list OscArgument)
  : OscMessage * Z :=
  let '(m, rc) := OscMessageInitialise m0 address in
  if (rc =? 0)%Z then add_arguments m l else (m, rc).

(** A tag without payload has no reader: the application compares
    [OscMessageGetArgumentType] and calls [OscMessageSkipArgument]. *)
Definition skip_tag (m : OscMessage) (tag : ascii) (a : OscArgument)
  : OscMessage * option OscArgument :=
  if (OscMessageGetArgumentType m =? tag)%char then
    let '(m', rc) := OscMessageSkipArgument m in
    if (rc =? 0)%Z then (m', Some a) else (m, None)
  else (m, None).

(** The positional read of the next argument with the reader for the kind
    of [kind], into a destination of [destinationSize] bytes for a string or
    a blob; [None] when the reader fails. *)
Definition read_argument (destination : Mem) (destinationSize : nat)
    (m : OscMessage) (kind : OscArgument) : OscMessage * option OscArgument :=
  match kind with
  | ArgInt32 _ =>
      let '(m, _, r) := OscMessageGetInt32 m in (m, option_map ArgInt32 r)
  | ArgFloat32 _ =>
      let '(m, _, r) := OscMessageGetFloat32 m in (m, option_map ArgFloat32 r)
  | ArgString _ =>
      if (OscMessageGetArgumentType m =? OscTypeTagString)%char then
        let '(m, d, rc) := OscMessageGetString m destination destinationSize in
        (m, if (rc =? 0)%Z then Some (ArgString (c_string destinationSize d 0)) else None)
      else (m, None)
  | ArgBlob _ =>
      let '(m, r, d, rc) := OscMessageGetBlob m destination destinationSize in
      (m, option_map (fun n => ArgBlob (bytes d (Z.to_nat n))) r)
  | ArgInt64 _ =>
      let '(m, _, r) := OscMessageGetInt64 m in (m, option_map ArgInt64 r)
  | ArgTimeTag _ =>
      let '(m, _, r) := OscMessageGetTimeTag m in (m, option_map ArgTimeTag r)
  | ArgDouble _ =>
      let '(m, _, r) := OscMessageGetDouble m in (m, option_map ArgDouble r)
  | ArgAlternateString _ =>
      if (OscMessageGetArgumentType m =? OscTypeTagAlternateString)%char then
        let '(m, d, rc) := OscMessageGetString m destination destinationSize in
        (m, if (rc =? 0)%Z
            then Some (ArgAlternateString (c_string destinationSize d 0)) else None)
      else (m, None)
  | ArgCharacter _ =>
      let '(m, _, r) := OscMessageGetCharacter m in (m, option_map ArgCharacter r)
  | ArgRgbaColour _ =>
      let '(m, _, r) := OscMessageGetRgbaColour m in (m, option_map ArgRgbaColour r)
  | ArgMidiMessage _ =>
      let '(m, _, r) := OscMessageGetMidiMessage m in (m, option_map ArgMidiMessage r)
  | ArgBool _ =>
      if (OscMessageGetArgumentType m =? OscTypeTagTrue)%char
      then skip_tag m OscTypeTagTrue (ArgBool true)
      else skip_tag m OscTypeTagFalse (ArgBool false)
  | ArgNil => skip_tag m OscTypeTagNil ArgNil
  | ArgInfinitum => skip_tag m OscTypeTagInfinitum ArgInfinitum
  | ArgBeginArray => skip_tag m OscTypeTagBeginArray ArgBeginArray
  | ArgEndArray => skip_tag m OscTypeTagEndArray ArgEndArray
  end.

Fixpoint read_arguments (destination : Mem) (destinationSize : nat)
    (m : OscMessage) (kinds : list OscArgument) : list (option OscArgument) :=
  match kinds with
  | [] => []
  | k :: kinds =>
      let '(m, r) := read_argument destination destinationSize m k in
      r :: read_arguments destination destinationSize m kinds
  end.

End Calls.

(** What an application observes of a message: the address pattern and the
    type tag string with their terminating nulls, the argument bytes, the
    three sizes and the two read indexes. *)
Definition message_view (m : OscMessage)
  : list ascii * list ascii * list ascii * nat * nat * nat * nat * nat :=
  (bytes (oscAddressPattern m) (oscAddressPatternLength m + 1),
   bytes (oscTypeTagString m) (oscTypeTagStringLength m + 1),
   bytes (arguments m) (argumentsSize m),
   oscAddressPatternLength m, oscTypeTagStringLength m, argumentsSize m,
   oscTypeTagStringIndex m, argumentsIndex m).

(** The part of it that the [OscMessageAdd...] calls are about: the type tag
    string, the tag count, the argument bytes and their size. *)
Definition arguments_view (m : OscMessage) : list ascii * nat * list ascii * nat :=
  (bytes (oscTypeTagString m) (oscTypeTagStringLength m + 1),
   oscTypeTagStringLength m,
   bytes (arguments m) (argumentsSize m),
   argumentsSize m).

(** A memory of zeros, and structures over it, for the concrete runs. *)
Definition zeros : Mem := mem_of [].
Definition blank_message : OscMessage := mkOscMessage zeros zeros zeros 0 0 0 0 0.
Definition blank_bundle : OscBundle := mkOscBundle zeros 0 zeros 0 0.
Definition blank_element : OscBundleElement := mkOscBundleElement zeros 0.
Definition blank_packet : OscPacket := mkOscPacket zeros 0 false.
Definition blank_decoder : OscSlipDecoder := mkOscSlipDecoder zeros 0 false.

(** The 16 bytes of an empty bundle with time tag 0. *)
Definition bundle_header_bytes : list ascii :=
  ["#"; "b"; "u"; "n"; "d"; "l"; "e"; "000";
   "000"; "000"; "000"; "000"; "000"; "000"; "000"; "000"]%char.

(** The message [/example] without arguments. *)
Definition example_message : OscMessage :=
  fst (OscMessageInitialise (L := udp_limits) blank_message
         ["/"; "e"; "x"; "a"; "m"; "p"; "l"; "e"]%char).

(** A message with one argument of several kinds, for the concrete runs. *)
Definition sample_arguments : list OscArgument :=
  [ArgInt32 (-5); ArgString ["h"; "e"; "l"; "l"; "o"]%char;
   ArgBlob ["001"; "002"; "003"]%char; ArgBool true; ArgNil; ArgInt64 (-7);
   ArgAlternateString ["a"; "b"; "c"]%char; ArgCharacter "x"%char; ArgTimeTag 77;
   ArgFloat32 1065353216; ArgBool false].

Definition sample_message : OscMessage :=
  fst (build_message (L := udp_limits) blank_message ["/"; "t"; "e"; "s"; "t"]%char
         sample_arguments).

(** The message [/a,] with the argument 1, and the message [/a] with the
    argument true. *)
Definition comma_message : OscMessage :=
  fst (build_message (L := udp_limits) blank_message ["/"; "a"; ","]%char [ArgInt32 1]).

Definition bool_message : OscMessage :=
  fst (build_message (L := udp_limits) blank_message ["/"; "a"]%char [ArgBool true]).

(** The message parsed from the serialization of a message. *)
Definition reparsed (m : OscMessage) : OscMessage * Z :=
  let '(d, n, _) := OscMessageToCharArray m zeros 1472 in
  OscMessageInitialiseFromCharArray (L := udp_limits) blank_message d n.

(** ** OscBundle.c, second part *)

(** The array [m] after a callee wrote through the pointer [&m[k]] and left
    the memory [d] behind that pointer. *)
Definition write_back (m : Mem) (k : nat) (d : Mem) : Mem :=
  fun j => if j <? k then m j else d (j - k).

Section BundleContents.
Context {L : Limits}.

(** The subtraction is done in [size_t], whose width the sources do not
    fix.  A result that is not negative is the value returned.  When
    [oscBundleElementsSize + 4] exceeds [MAX_OSC_BUNDLE_ELEMENTS_SIZE] the
    subtraction wraps around: the value returned is then this negative number
    plus [2 ^ w] for a [size_t] of [w] bits, above every size (as in
    [gt_size_t]).  [OscBundleAddContents] calls the function only after it has
    tested that the result is not negative. *)
Definition OscBundleGetRemainingCapacity (b : OscBundle) : Z :=
  (Z.of_nat MAX_OSC_BUNDLE_ELEMENTS_SIZE - Z.of_nat (oscBundleElementsSize b) - 4)%Z.

(** [sizeof (OscArgument32)] is 4.  The size that [OscMessageToCharArray] or
    [OscBundleToCharArray] stores through the address of
    [oscBundleElement.size.int32], cast to a pointer to [size_t], is the value
    of the member [int32] afterwards: [size_t] and [int32_t] are taken to have
    the same width.  The callee writes into the element array of the bundle, behind
    the four bytes kept for the size, and what it wrote stays there when it
    fails.  [None] as for [OscPacketInitialiseFromContents]. *)
Definition OscBundleAddContents (b : OscBundle) (oscContents : OscContents)
  : option (OscBundle * Z) :=
  if MAX_OSC_BUNDLE_ELEMENTS_SIZE <? oscBundleElementsSize b + 4 then
    Some (b, 1%Z)  (* error: bundle full *)
  else
    let start := oscBundleElementsSize b + 4 in
    let elementContents := offset (oscBundleElements b) start in
    let capacity := Z.to_nat (OscBundleGetRemainingCapacity b) in
    let oscError := 1%Z in
    let r1 :=
      if OSC_CONTENTS_IS_MESSAGE (contents_memory oscContents) then
        match oscContents with
        | ContentsMessage m => Some (OscMessageToCharArray m elementContents capacity)
        | ContentsBundle _ => None
        end
      else Some (elementContents, 0, oscError) in
    match r1 with
    | None => None
    | Some (c, s, oscError) =>
        let r2 :=
          if OSC_CONTENTS_IS_BUNDLE (contents_memory oscContents) then
            match oscContents with
            | ContentsBundle child => Some (OscBundleToCharArray child c capacity)
            | ContentsMessage _ => None
            end
          else Some (c, s, oscError) in
        match r2 with
        | None => None
        | Some (c, s, oscError) =>
            let elements := write_back (oscBundleElements b) start c in
            if negb (oscError =? 0)%Z then
              Some ({| header := header b;
                       oscTimeTag := oscTimeTag b;
                       oscBundleElements := elements;
                       oscBundleElementsSize := oscBundleElementsSize b;
                       oscBundleElementsIndex := oscBundleElementsIndex b |}, oscError)
            else
              let int32 := Z.of_nat s in
              let i := oscBundleElementsSize b in
              let elements := store elements i (byteN 3 int32) in
              let elements := store elements (i + 1) (byteN 2 int32) in
              let elements := store elements (i + 2) (byteN 1 int32) in
              let elements := store elements (i + 3) (byteN 0 int32) in
              Some ({| header := header b;
                       oscTimeTag := oscTimeTag b;
                       oscBundleElements := elements;
                       oscBundleElementsSize := i + 4 + s;
                       oscBundleElementsIndex := oscBundleElementsIndex b |}, 0%Z)
        end
    end.

(** The calls [OscBundleAddContents(&b, &c1); OscBundleAddContents(&b, &c2); ...]
    of an application that stops at the first call that fails. *)
Fixpoint add_contents (b : OscBundle) (l : list OscContents) : option (OscBundle * Z) :=
  match l with
  | [] => Some (b, 0%Z)
  | c :: l =>
      match OscBundleAddContents b c with
      | None => None
      | Some (b, rc) => if (rc =? 0)%Z then add_contents b l else Some (b, rc)
      end
  end.

End BundleContents.

(** ** Wire forms *)

(** The bytes of a serialized message: the address pattern and the type tag
    string, each followed by one to four nulls up to a multiple of 4, then
    the argument bytes. *)
Definition message_wire (m : OscMessage) : list ascii :=
  bytes (oscAddressPattern m) (oscAddressPatternLength m) ++
  nulls (4 - oscAddressPatternLength m mod 4) ++
  bytes (oscTypeTagString m) (oscTypeTagStringLength m) ++
  nulls (4 - oscTypeTagStringLength m mod 4) ++
  bytes (arguments m) (argumentsSize m).

(** The bytes of a serialized bundle: the header, the time tag, most
    significant byte first, and the element region. *)
Definition bundle_wire (b : OscBundle) : list ascii :=
  bytes (header b) 8 ++ big_endian64 (oscTimeTag b) ++
  bytes (oscBundleElements b) (oscBundleElementsSize b).

Definition contents_wire (c : OscContents) : list ascii :=
  match c with
  | ContentsMessage m => message_wire m
  | ContentsBundle b => bundle_wire b
  end.

(** A bundle element: the size of the contents as a big-endian int32, then
    the contents. *)
Definition element_wire (w : list ascii) : list ascii :=
  big_endian32 (Z.of_nat (length w)) ++ w.

(** The structure can be serialized: its first byte tells what it is, and a
    message has an address pattern. *)
Definition serializable (c : OscContents) : Prop :=
  match c with
  | ContentsMessage m =>
      oscAddressPatternLength m <> 0 /\ oscAddressPattern m 0 = OscContentsTypeMessage
  | ContentsBundle b => header b 0 = OscContentsTypeBundle
  end.

(** What an application observes of a bundle, apart from the read index. *)
Definition bundle_view (b : OscBundle) : list ascii * Z * list ascii * nat :=
  (bytes (header b) 8, oscTimeTag b,
   bytes (oscBundleElements b) (oscBundleElementsSize b), oscBundleElementsSize b).

(** ** Packets on the wire *)

(** The assignment [oscPacket.processMessage = &ProcessMessage] of the
    application. *)
Definition set_processMessage (oscPacket : OscPacket) : OscPacket :=
  {| contents := contents oscPacket; size := size oscPacket; processMessage := true |}.

(** The loop of [DeconstructContents] over the elements of a bundle, with the
    recursive call as the parameter [walk]. *)
Definition elements_loop (walk : option Z -> Mem -> nat -> option (Z * list MessageCall)) :=
  fix elements (turns : nat) (oscBundle : OscBundle) (oscBundleElement : OscBundleElement)
      {struct turns} : option (Z * list MessageCall) :=
    match turns with
    | 0 => None
    | S turns =>
        if negb (OscBundleIsBundleElementAvailable oscBundle) then
          Some (0%Z, [])  (* no more bundle elements *)
        else
          let '(oscBundle, oscBundleElement, oscError) :=
            OscBundleGetBundleElement oscBundle oscBundleElement in
          if negb (oscError =? 0)%Z then
            Some (oscError, [])  (* error: get bundle element failed *)
          else
            match walk (Some (oscTimeTag oscBundle))
                       (elementContents oscBundleElement)
                       (Z.to_nat (elementSize oscBundleElement)) with
            | None => None
            | Some (oscError, calls) =>
                if negb (oscError =? 0)%Z then
                  Some (oscError, calls)  (* error: contents deconstruction failed *)
                else
                  match elements turns oscBundle oscBundleElement with
                  | None => None
                  | Some (oscError, calls') => Some (oscError, calls ++ calls')
                  end
            end
    end.

(** The first [n] bytes of the memory are not null. *)
Definition no_null (m : Mem) (n : nat) : bool :=
  forallb (fun c => negb (c =? "000")%char) (bytes m n).

(** The messages that the library builds and parses: an address pattern of
    1 to [MAX_OSC_ADDRESS_PATTERN_LENGTH] characters that starts with ['/'],
    does not end with a comma and is null-terminated, a type tag string of 1
    to [MAX_OSC_TYPE_TAG_STRING_LENGTH] characters that starts with a comma
    and is null-terminated, argument bytes whose size is a multiple of 4, the
    read indexes at the first argument, and a serialized size of at most
    [MAX_OSC_MESSAGE_SIZE]. *)
Definition well_formed_message {L : Limits} (m : OscMessage) : bool :=
  let a := oscAddressPatternLength m in
  let t := oscTypeTagStringLength m in
  (1 <=? a) && (a <=? MAX_OSC_ADDRESS_PATTERN_LENGTH) &&
  (oscAddressPattern m 0 =? OscContentsTypeMessage)%char &&
  no_null (oscAddressPattern m) a &&
  (oscAddressPattern m a =? "000")%char &&
  negb (oscAddressPattern m (a - 1) =? ",")%char &&
  (1 <=? t) && (t <=? MAX_OSC_TYPE_TAG_STRING_LENGTH) &&
  (oscTypeTagString m 0 =? ",")%char &&
  no_null (oscTypeTagString m) t &&
  (oscTypeTagString m t =? "000")%char &&
  (argumentsSize m mod 4 =? 0) &&
  (oscTypeTagStringIndex m =? 1) && (argumentsIndex m =? 0) &&
  (OscMessageGetSize m <=? MAX_OSC_MESSAGE_SIZE).

(** The contents of a packet: a message, or a bundle with a time tag and
    elements that are contents themselves. *)
Unset Elimination Schemes.
Inductive OscTree :=
| TreeMessage (oscMessage : OscMessage)
| TreeBundle (timeTag : Z) (elements : list OscTree).
Set Elimination Schemes.

Fixpoint tree_wire (t : OscTree) : list ascii :=
  match t with
  | TreeMessage m => message_wire m
  | TreeBundle timeTag elements =>
      bytes OSC_BUNDLE_HEADER 8 ++ big_endian64 timeTag ++
      flat_map (fun e => element_wire (tree_wire e)) elements
  end.

(** The size of the wire form of contents: positive, a multiple of 4, and a
    value of an [int32_t]. *)
Definition wire_size_ok (t : OscTree) : Prop :=
  0 < length (tree_wire t) /\ length (tree_wire t) mod 4 = 0 /\
  (Z.of_nat (length (tree_wire t)) < 2 ^ 31)%Z.

(** The calls of [processMessage] that the contents stand for: one for each
    message, in order, with the time tag of the bundle that holds the message
    and with what is observed of the message. *)
Definition MessageView : Type :=
  list ascii * list ascii * list ascii * nat * nat * nat * nat * nat.

Fixpoint tree_calls (enclosing : option Z) (t : OscTree) : list (option Z * MessageView) :=
  match t with
  | TreeMessage m => [(enclosing, message_view m)]
  | TreeBundle timeTag elements => flat_map (tree_calls (Some timeTag)) elements
  end.

Definition call_view (c : MessageCall) : option Z * MessageView :=
  (fst c, message_view (snd c)).

(** The messages are well formed, the time tags are 64-bit values and every
    bundle is at most [MAX_OSC_BUNDLE_SIZE] bytes long. *)
Fixpoint tree_ok {L : Limits} (t : OscTree) : bool :=
  match t with
  | TreeMessage m => well_formed_message m
  | TreeBundle timeTag elements =>
      (0 <=? timeTag)%Z && (timeTag <? 2 ^ 64)%Z &&
      (length (tree_wire t) <=? MAX_OSC_BUNDLE_SIZE) &&
      forallb tree_ok elements
  end.

(** The contents fit the structures that receive them: no message has more
    than [MAX_ARGUMENTS_SIZE] argument bytes and no bundle more than
    [MAX_OSC_BUNDLE_ELEMENTS_SIZE] element bytes.  The parsers copy into
    [arguments] and [oscBundleElements] without a test against these bounds
    of their own. *)
Fixpoint tree_fits {L : Limits} (t : OscTree) : bool :=
  match t with
  | TreeMessage m => argumentsSize m <=? MAX_ARGUMENTS_SIZE
  | TreeBundle _ elements =>
      (length (flat_map (fun e => element_wire (tree_wire e)) elements)
         <=? MAX_OSC_BUNDLE_ELEMENTS_SIZE) &&
      forallb tree_fits elements
  end.

(** A value of [fuel] that is enough for [DeconstructContents] on the wire
    form of the contents. *)
Fixpoint tree_fuel (t : OscTree) : nat :=
  match t with
  | TreeMessage _ => 1
  | TreeBundle _ elements => 2 + list_sum (map tree_fuel elements)
  end.

(** The structure [c] holds the contents [t]: it can be serialized, and its
    serialized bytes are the wire form of [t]. *)
Definition holds_tree (c : OscContents) (t : OscTree) : Prop :=
  serializable c /\ contents_wire c = tree_wire t.

(** Structures for the concrete runs: a bundle with the time tag 7 that holds
    [sample_message]; the contents [/example], that bundle and [/a], and what
    they stand for. *)
Definition inner_bundle : OscBundle :=
  match add_contents (L := udp_limits) (OscBundleInitialise blank_bundle 7)
          [ContentsMessage sample_message] with
  | Some (b, _) => b
  | None => blank_bundle
  end.

Definition sample_contents : list OscContents :=
  [ContentsMessage example_message; ContentsBundle inner_bundle; ContentsMessage bool_message].

Definition sample_trees : list OscTree :=
  [TreeMessage example_message; TreeBundle 7 [TreeMessage sample_message];
   TreeMessage bool_message].

(** The message after the positional reads of [kinds], each with the reader
    of its kind as in [read_arguments]. *)
Definition after_reads (destination : Mem) (destinationSize : nat) (m : OscMessage)
    (kinds : list OscArgument) : OscMessage :=
  fold_left (fun m kind => fst (read_argument destination destinationSize m kind)) kinds m.

(** * Properties *)

(** ** Memory *)

Lemma store_eq (m : Mem) i v : store m i v i = v.
Proof. unfold store. now rewrite Nat.eqb_refl. Qed.

Lemma store_neq (m : Mem) i v j : j <> i -> store m i v j = m j.
Proof. unfold store. intros H. apply Nat.eqb_neq in H. now rewrite H. Qed.

Lemma bytes_length (m : Mem) n : length (bytes m n) = n.
Proof. unfold bytes. now rewrite length_map, length_seq. Qed.

Lemma bytes_S (m : Mem) n : bytes m (S n) = bytes m n ++ [m n].
Proof. unfold bytes. now rewrite seq_S, map_app. Qed.

Lemma bytes_ext (m m' : Mem) n :
  (forall i, i < n -> m i = m' i) -> bytes m n = bytes m' n.
Proof.
  intros H. unfold bytes. apply map_ext_in. intros i Hi.
  apply in_seq in Hi. apply H. lia.
Qed.

Lemma bytes_nth (m : Mem) n i d : i < n -> nth i (bytes m n) d = m i.
Proof.
  intros H. unfold bytes.
  rewrite (nth_indep _ d (m 0)) by (now rewrite length_map, length_seq).
  rewrite (map_nth m (seq 0 n) 0 i). now rewrite seq_nth.
Qed.

Lemma bytes_eq_inv (m m' : Mem) n :
  bytes m n = bytes m' n -> forall i, i < n -> m i = m' i.
Proof.
  intros H i Hi. rewrite <- (bytes_nth m n i "000"%char Hi), H. now apply bytes_nth.
Qed.

Lemma bytes_store_ge (m : Mem) n i v : n <= i -> bytes (store m i v) n = bytes m n.
Proof. intros H. apply bytes_ext. intros j Hj. apply store_neq. lia. Qed.

Lemma bytes_add (m : Mem) a b : bytes m (a + b) = bytes m a ++ bytes (offset m a) b.
Proof.
  unfold bytes, offset. rewrite seq_app, map_app. f_equal.
  generalize 0. induction b as [|b IH]; intros k; simpl; [reflexivity|].
  f_equal; [f_equal; lia|]. apply (IH (S k)).
Qed.

Lemma bytes_push (m : Mem) n v : bytes (store m n v) (S n) = bytes m n ++ [v].
Proof. rewrite bytes_S, store_eq, bytes_store_ge; auto. Qed.

Lemma bytes_offset_nth (m : Mem) i (l : list ascii) j :
  bytes (offset m i) (length l) = l -> j < length l -> m (i + j) = nth j l "000"%char.
Proof.
  intros H Hj. change (m (i + j)) with (offset m i j).
  rewrite <- (bytes_nth (offset m i) (length l) j "000"%char Hj). now rewrite H.
Qed.

Lemma copy_bytes_at n : forall (source : Mem) si (destination : Mem) di j,
  copy_bytes n source si destination di j =
  if (di <=? j) && (j <? di + n) then source (si + (j - di)) else destination j.
Proof.
  induction n as [|n IH]; intros source si destination di j; simpl.
  - destruct (di <=? j) eqn:E1; simpl; [|reflexivity].
    destruct (j <? di + 0) eqn:E2; [|reflexivity].
    apply Nat.leb_le in E1. apply Nat.ltb_lt in E2. lia.
  - rewrite IH. unfold store.
    destruct (di <=? j) eqn:E1, (S di <=? j) eqn:E3, (j <? S di + n) eqn:E4,
             (j <? di + S n) eqn:E2, (j =? di) eqn:E5; simpl;
      repeat match goal with
             | H : (_ <=? _) = true |- _ => apply Nat.leb_le in H
             | H : (_ <=? _) = false |- _ => apply Nat.leb_gt in H
             | H : (_ <? _) = true |- _ => apply Nat.ltb_lt in H
             | H : (_ <? _) = false |- _ => apply Nat.ltb_ge in H
             | H : (_ =? _) = true |- _ => apply Nat.eqb_eq in H
             | H : (_ =? _) = false |- _ => apply Nat.eqb_neq in H
             end; try lia; try reflexivity.
    + f_equal. lia.
    + subst. f_equal. lia.
Qed.

Lemma copy_bytes_below n (source : Mem) si (destination : Mem) di j :
  j < di -> copy_bytes n source si destination di j = destination j.
Proof.
  intros H. rewrite copy_bytes_at.
  destruct (di <=? j) eqn:E; [apply Nat.leb_le in E; lia | reflexivity].
Qed.

Lemma copy_bytes_in n (source : Mem) si (destination : Mem) di j :
  j < n -> copy_bytes n source si destination di (di + j) = source (si + j).
Proof.
  intros H. rewrite copy_bytes_at.
  replace (di <=? di + j) with true by (symmetry; apply Nat.leb_le; lia).
  replace (di + j <? di + n) with true by (symmetry; apply Nat.ltb_lt; lia).
  simpl. f_equal. lia.
Qed.

Lemma copy_bytes_above n (source : Mem) si (destination : Mem) di j :
  di + n <= j -> copy_bytes n source si destination di j = destination j.
Proof.
  intros H. rewrite copy_bytes_at.
  replace (j <? di + n) with false by (symmetry; apply Nat.ltb_ge; lia).
  now rewrite andb_false_r.
Qed.

Lemma bytes_copy_bytes n (source : Mem) si (destination : Mem) di :
  bytes (copy_bytes n source si destination di) (di + n) =
  bytes destination di ++ bytes (offset source si) n.
Proof.
  rewrite bytes_add. f_equal.
  - apply bytes_ext. intros j Hj. now apply copy_bytes_below.
  - apply bytes_ext. intros j Hj. unfold offset. now apply copy_bytes_in.
Qed.

Lemma mem_of_bytes (l : list ascii) : bytes (mem_of l) (length l) = l.
Proof.
  apply nth_ext with (d := "000"%char) (d' := "000"%char).
  - apply bytes_length.
  - intros i Hi. rewrite bytes_length in Hi. now rewrite bytes_nth.
Qed.

Lemma app_same_length {A} (a a' b b' : list A) :
  length a = length a' -> a ++ b = a' ++ b' -> a = a' /\ b = b'.
Proof.
  revert a'. induction a as [|x a IH]; intros [|x' a'] Hl H; simpl in *; try discriminate.
  - now split.
  - injection H as -> H. injection Hl as Hl. destruct (IH a' Hl H) as [-> ->]. now split.
Qed.

Lemma offset_offset (m : Mem) a b n :
  bytes (offset (offset m a) b) n = bytes (offset m (a + b)) n.
Proof. apply bytes_ext. intros j _. unfold offset. f_equal. lia. Qed.

Lemma bytes_app_inv (m : Mem) (a b : list ascii) :
  bytes m (length (a ++ b)) = a ++ b ->
  bytes m (length a) = a /\ bytes (offset m (length a)) (length b) = b.
Proof.
  rewrite length_app, bytes_add. intros H.
  apply app_same_length in H; [exact H | apply bytes_length].
Qed.

(** ** SLIP *)

Section SlipProperties.
Context {L : Limits}.

Lemma slip_escape_no_end c : Forall (fun x => x <> SLIP_END) (slip_escape c).
Proof.
  unfold slip_escape.
  destruct (Ascii.eqb_spec c SLIP_END) as [->|Hc]; [repeat constructor; discriminate|].
  destruct (Ascii.eqb_spec c SLIP_ESC) as [->|Hc']; repeat constructor; auto; discriminate.
Qed.

Lemma slip_body_no_end l : Forall (fun x => x <> SLIP_END) (flat_map slip_escape l).
Proof.
  induction l as [|c l IH]; simpl; [constructor|].
  apply Forall_app. split; [apply slip_escape_no_end | exact IH].
Qed.

(** The loop of the encoder appends the escaped bytes to what the
    destination holds. *)
Lemma encode_loop_ok n : forall (contents : Mem) k (destination : Mem) e destinationSize d' e',
  encode_loop n contents k destination e destinationSize = (d', e', 0%Z) ->
  e' = e + length (flat_map slip_escape (bytes (offset contents k) n)) /\
  bytes d' e' = bytes destination e ++ flat_map slip_escape (bytes (offset contents k) n).
Proof.
  induction n as [|n IH]; intros contents k destination e destinationSize d' e' H; simpl in H.
  - inversion H; subst. simpl. rewrite app_nil_r. split; [lia | reflexivity].
  - destruct (destinationSize <? e + 1); [discriminate|].
    assert (Hb : bytes (offset contents k) (S n) =
                 contents k :: bytes (offset contents (S k)) n).
    { change (S n) with (1 + n). rewrite bytes_add. simpl. unfold offset at 1.
      rewrite Nat.add_0_r. f_equal. apply bytes_ext. intros i _. unfold offset.
      f_equal. lia. }
    rewrite Hb. simpl flat_map. unfold slip_escape at 1 3.
    destruct (contents k =? SLIP_END)%char.
    + apply IH in H. destruct H as [H1 H2]. split.
      * rewrite H1, length_app. simpl. lia.
      * rewrite H2, !bytes_push. now rewrite <- !app_assoc.
    + destruct (contents k =? SLIP_ESC)%char.
      * apply IH in H. destruct H as [H1 H2]. split.
        -- rewrite H1, length_app. simpl. lia.
        -- rewrite H2, !bytes_push. now rewrite <- !app_assoc.
      * apply IH in H. destruct H as [H1 H2]. split.
        -- rewrite H1. simpl. lia.
        -- rewrite H2, bytes_push. now rewrite <- app_assoc.
Qed.

(** A successful [OscSlipEncodePacket] leaves the encoding of the
    specification at the destination address. *)
Lemma OscSlipEncodePacket_ok (p : OscPacket) (destination : Mem) destinationSize d' n :
  OscSlipEncodePacket p destination destinationSize = (d', n, 0%Z) ->
  bytes d' n = slip_encode (bytes (contents p) (size p)).
Proof.
  unfold OscSlipEncodePacket.
  destruct (encode_loop (size p) (contents p) 0 destination 0 destinationSize)
    as [[d1 e1] rc] eqn:E.
  destruct (Z.eqb_spec rc 0) as [->|Hrc]; [|discriminate].
  intros H. inversion H; subst. apply encode_loop_ok in E. destruct E as [_ E].
  rewrite bytes_push, E. reflexivity.
Qed.

(** The loop of the decoder on a buffer that holds, from [i] on, the escaped
    form of [l] and an END. *)
Lemma decode_loop_ok l : forall room (buffer : Mem) i (p : OscPacket),
  bytes (offset buffer i) (length (slip_encode l)) = slip_encode l ->
  size p + length l <= MAX_OSC_PACKET_SIZE ->
  length l <= room ->
  exists q, decode_loop room buffer i p = Some q /\
            size q = size p + length l /\
            bytes (contents q) (size q) = bytes (contents p) (size p) ++ l /\
            processMessage q = processMessage p.
Proof.
  unfold slip_encode.
  induction l as [|c l IH]; intros room buffer i p Hb Hsize Hroom.
  - exists p. simpl in Hb.
    pose proof (bytes_offset_nth buffer i [SLIP_END] 0 Hb) as H0.
    rewrite Nat.add_0_r in H0. simpl in H0.
    destruct room; simpl; rewrite H0 by lia; simpl;
      (split; [reflexivity | split; [lia | split; [now rewrite app_nil_r | reflexivity]]]).
  - simpl in Hsize, Hroom. destruct room as [|room]; [lia|].
    simpl flat_map in Hb. rewrite <- app_assoc in Hb.
    set (rest := flat_map slip_escape l ++ [SLIP_END]) in *.
    assert (Hnext : forall k, length (slip_escape c) = k ->
              bytes (offset buffer (i + k)) (length rest) = rest).
    { intros k <-. apply bytes_app_inv in Hb. destruct Hb as [_ Hb].
      now rewrite offset_offset in Hb. }
    assert (Hat : forall j, j < length (slip_escape c) ->
              buffer (i + j) = nth j (slip_escape c) "000"%char).
    { intros j Hj.
      rewrite (bytes_offset_nth buffer i (slip_escape c ++ rest) j Hb)
        by (rewrite length_app; lia).
      now rewrite app_nth1. }
    unfold slip_escape in Hnext, Hat.
    simpl decode_loop.
    destruct (Ascii.eqb_spec c SLIP_END) as [->|Hc].
    + pose proof (Hat 0 ltac:(simpl; lia)) as H0. pose proof (Hat 1 ltac:(simpl; lia)) as H1.
      rewrite Nat.add_0_r in H0. rewrite Nat.add_1_r in H1. simpl in H0, H1.
      rewrite H0, H1. simpl.
      replace (MAX_OSC_PACKET_SIZE <? S (size p)) with false
        by (symmetry; apply Nat.ltb_ge; lia).
      destruct (IH room buffer (S (S i)) (packet_push p SLIP_END)) as (q & Hq & Hs & Hc' & Hp).
      * etransitivity; [|exact (Hnext 2 eq_refl)]. apply bytes_ext. intros j _. unfold offset. f_equal. lia.
      * simpl. lia.
      * lia.
      * exists q. split; [exact Hq|]. cbn [packet_push size contents processMessage] in Hs, Hc', Hp. split; [lia|].
        split; [|exact Hp]. rewrite Hc', bytes_push, <- app_assoc. reflexivity.
    + destruct (Ascii.eqb_spec c SLIP_ESC) as [->|Hc2].
      * pose proof (Hat 0 ltac:(simpl; lia)) as H0. pose proof (Hat 1 ltac:(simpl; lia)) as H1.
        rewrite Nat.add_0_r in H0. rewrite Nat.add_1_r in H1. simpl in H0, H1.
        rewrite H0, H1. simpl.
        replace (MAX_OSC_PACKET_SIZE <? S (size p)) with false
          by (symmetry; apply Nat.ltb_ge; lia).
        destruct (IH room buffer (S (S i)) (packet_push p SLIP_ESC)) as (q & Hq & Hs & Hc' & Hp).
        -- etransitivity; [|exact (Hnext 2 eq_refl)]. apply bytes_ext. intros j _. unfold offset. f_equal. lia.
        -- simpl. lia.
        -- lia.
        -- exists q. split; [exact Hq|]. cbn [packet_push size contents processMessage] in Hs, Hc', Hp. split; [lia|].
           split; [|exact Hp]. rewrite Hc', bytes_push, <- app_assoc. reflexivity.
      * pose proof (Hat 0 ltac:(simpl; lia)) as H0.
        rewrite Nat.add_0_r in H0. simpl in H0. rewrite H0.
        apply Ascii.eqb_neq in Hc, Hc2. rewrite Hc, Hc2. simpl.
        replace (MAX_OSC_PACKET_SIZE <? S (size p)) with false
          by (symmetry; apply Nat.ltb_ge; lia).
        destruct (IH room buffer (S i) (packet_push p c)) as (q & Hq & Hs & Hc' & Hp).
        -- etransitivity; [|exact (Hnext 1 eq_refl)]. apply bytes_ext. intros j _. unfold offset. f_equal. lia.
        -- simpl. lia.
        -- lia.
        -- exists q. split; [exact Hq|]. cbn [packet_push size contents processMessage] in Hs, Hc', Hp. split; [lia|].
           split; [|exact Hp]. rewrite Hc', bytes_push, <- app_assoc. reflexivity.
Qed.

(** The count of turns given to the loop of the decoder is enough: a larger
    one gives the same result. *)
Lemma decode_loop_room room : forall (buffer : Mem) i (p : OscPacket),
  MAX_OSC_PACKET_SIZE - size p <= room ->
  decode_loop room buffer i p = decode_loop (MAX_OSC_PACKET_SIZE - size p) buffer i p.
Proof.
  induction room as [|room IH]; intros buffer i p H.
  - now replace (MAX_OSC_PACKET_SIZE - size p) with 0 by lia.
  - destruct (MAX_OSC_PACKET_SIZE - size p) as [|k] eqn:E.
    + simpl. destruct (buffer i =? SLIP_END)%char; [reflexivity|].
      replace (MAX_OSC_PACKET_SIZE <? S (size p)) with true
        by (symmetry; apply Nat.ltb_lt; lia).
      destruct (buffer i =? SLIP_ESC)%char;
        [destruct (buffer (S i) =? SLIP_ESC_END)%char;
         [|destruct (buffer (S i) =? SLIP_ESC_ESC)%char]|];
        simpl; try reflexivity;
        now replace (MAX_OSC_PACKET_SIZE <? S (size p)) with true
          by (symmetry; apply Nat.ltb_lt; lia).
    + simpl. destruct (buffer i =? SLIP_END)%char; [reflexivity|].
      destruct (buffer i =? SLIP_ESC)%char;
        [destruct (buffer (S i) =? SLIP_ESC_END)%char;
         [|destruct (buffer (S i) =? SLIP_ESC_ESC)%char]|];
        simpl; try reflexivity;
        (destruct (MAX_OSC_PACKET_SIZE <? S (size p)); [reflexivity|]);
        (rewrite IH by (simpl; lia)); simpl; (replace (MAX_OSC_PACKET_SIZE - S (size p)) with k by lia);
        reflexivity.
Qed.

Lemma feed_bytes_app a : forall d b junk,
  feed_bytes d (a ++ b) junk =
  let '(d1, r1, c1) := feed_bytes d a junk in
  let '(d2, r2, c2) := feed_bytes d1 b junk in
  (d2, r1 ++ r2, c1 ++ c2).
Proof.
  induction a as [|x a IH]; intros d b junk; simpl.
  - now destruct (feed_bytes d b junk) as [[d2 r2] c2].
  - destruct (OscSlipDecoderProcessByte d x junk) as [[d1 rc] call].
    rewrite IH. destruct (feed_bytes d1 a junk) as [[d2 r2] c2].
    destruct (feed_bytes d2 b junk) as [[d3 r3] c3]. now destruct call.
Qed.

(** Bytes other than END are stored one after the other, as long as the
    write index stays inside the buffer; the handler is not called. *)
Lemma feed_bytes_body body : forall d junk,
  Forall (fun x => x <> SLIP_END) body ->
  bufferIndex d + length body < OSC_SLIP_DECODER_BUFFER_SIZE ->
  exists d', feed_bytes d body junk = (d', repeat 0%Z (length body), []) /\
             bufferIndex d' = bufferIndex d + length body /\
             processPacket d' = processPacket d /\
             bytes (buffer d') (bufferIndex d') = bytes (buffer d) (bufferIndex d) ++ body.
Proof.
  induction body as [|c body IH]; intros d junk Hne Hlen.
  - exists d. simpl. rewrite Nat.add_0_r, app_nil_r. auto.
  - inversion Hne as [|? ? Hc Hne']; subst. simpl in Hlen. simpl feed_bytes.
    unfold OscSlipDecoderProcessByte. apply Ascii.eqb_neq in Hc. rewrite Hc.
    replace (OSC_SLIP_DECODER_BUFFER_SIZE <=? S (bufferIndex d)) with false
      by (symmetry; apply Nat.leb_gt; lia).
    match goal with |- context [feed_bytes ?d1 body junk] =>
      destruct (IH d1 junk Hne') as (d' & Hf & Hi & Hp & Hb); [simpl; lia|] end.
    rewrite Hf. exists d'. cbn [bufferIndex processPacket buffer] in Hi, Hp, Hb.
    split; [reflexivity|]. split; [simpl; lia|]. split; [exact Hp|].
    rewrite Hb, bytes_push, <- app_assoc. reflexivity.
Qed.

Lemma slip_round_trip_eq (p : OscPacket) (destination : Mem) (destinationSize : nat)
    (d0 : OscSlipDecoder) (junk : OscPacket) (encoded : Mem) (n : nat) :
  OscSlipEncodePacket p destination destinationSize = (encoded, n, 0%Z) ->
  n <= OSC_SLIP_DECODER_BUFFER_SIZE ->
  size p <= MAX_OSC_PACKET_SIZE ->
  exists d q,
    feed_bytes (set_processPacket (OscSlipDecoderInitialise d0)) (bytes encoded n) junk
      = (d, repeat 0%Z n, [q]) /\
    size q = size p /\
    bytes (contents q) (size q) = bytes (contents p) (size p).
Proof.
  intros Henc Hn Hp.
  pose proof (OscSlipEncodePacket_ok _ _ _ _ _ Henc) as Hb.
  assert (Hlen : n = length (slip_encode (bytes (contents p) (size p)))).
  { rewrite <- Hb. now rewrite bytes_length. }
  set (l := bytes (contents p) (size p)) in *.
  rewrite Hb. unfold slip_encode in *. rewrite length_app in Hlen. simpl in Hlen.
  rewrite feed_bytes_app.
  destruct (feed_bytes_body (flat_map slip_escape l)
              (set_processPacket (OscSlipDecoderInitialise d0)) junk)
    as (d1 & Hf & Hi & Hpp & Hbuf).
  { apply slip_body_no_end. }
  { simpl. lia. }
  rewrite Hf. simpl in Hi, Hpp. simpl feed_bytes.
  unfold OscSlipDecoderProcessByte. rewrite Ascii.eqb_refl, Hpp. simpl negb. cbv iota.
  destruct (decode_loop_ok l MAX_OSC_PACKET_SIZE
              (store (buffer d1) (bufferIndex d1) SLIP_END) 0 (OscPacketInitialise junk))
    as (q & Hq & Hs & Hc & _).
  { unfold slip_encode. rewrite length_app. simpl length.
    etransitivity; [apply bytes_ext; intros i _; unfold offset; simpl; reflexivity|].
    rewrite Nat.add_1_r, <- Hi, bytes_push, Hbuf. simpl. reflexivity. }
  { simpl. unfold l. rewrite bytes_length. exact Hp. }
  { unfold l. rewrite bytes_length. exact Hp. }
  rewrite Hq. eexists. exists q. split.
  - rewrite Hlen, Nat.add_1_r. rewrite <- (Nat.add_1_r (length _)), repeat_app. reflexivity.
  - simpl in Hs, Hc. unfold l in Hs. rewrite bytes_length in Hs. split; [exact Hs|].
    now rewrite Hc.
Qed.

(** C3: for every packet whose SLIP encoding, trailing END included, fits
    in the decoder buffer and whose size is at most [MAX_OSC_PACKET_SIZE],
    feeding the bytes written by [OscSlipEncodePacket] one at a time to a
    freshly initialised decoder with a registered handler makes every call
    return 0 and calls the handler exactly once, with a packet whose size
    and contents are those of the packet encoded. *)
Theorem slip_round_trip (p : OscPacket) (destination : Mem) (destinationSize : nat)
    (d0 : OscSlipDecoder) (junk : OscPacket) :
  let r := OscSlipEncodePacket p destination destinationSize in
  let encoded := fst (fst r) in
  let n := snd (fst r) in
  snd r = 0%Z ->
  n <= OSC_SLIP_DECODER_BUFFER_SIZE ->
  size p <= MAX_OSC_PACKET_SIZE ->
  exists d q,
    feed_bytes (set_processPacket (OscSlipDecoderInitialise d0)) (bytes encoded n) junk
      = (d, repeat 0%Z n, [q]) /\
    size q = size p /\
    bytes (contents q) (size q) = bytes (contents p) (size p).
Proof.
  intros r encoded n Hrc. subst encoded n.
  destruct r as [[encoded n] rc] eqn:E. cbn [fst snd] in *. subst rc.
  now apply (slip_round_trip_eq p destination destinationSize).
Qed.

(** C8, amended: when a decoder with a registered handler receives END as
    the first byte of a frame, the call returns 0, the handler is called once
    with an empty packet (size 0), and the write index is back at 0, so that
    the following bytes begin a new frame. *)
Theorem empty_frame_delivered (d : OscSlipDecoder) (junk : OscPacket) :
  bufferIndex d = 0 ->
  processPacket d = true ->
  exists d' q,
    OscSlipDecoderProcessByte d SLIP_END junk = (d', 0%Z, Some q) /\
    size q = 0 /\ bufferIndex d' = 0 /\ processPacket d' = true.
Proof.
  intros Hi Hp. unfold OscSlipDecoderProcessByte.
  rewrite Ascii.eqb_refl, Hp, Hi. simpl negb. cbv iota.
  assert (H : decode_loop MAX_OSC_PACKET_SIZE (store (buffer d) 0 SLIP_END) 0
                (OscPacketInitialise junk) = Some (OscPacketInitialise junk)).
  { destruct MAX_OSC_PACKET_SIZE; reflexivity. }
  rewrite H. eexists. eexists. split; [reflexivity|]. simpl. auto.
Qed.

End SlipProperties.

(** C3, at the packet C0 DB 01 and a destination of 100 bytes. *)
Lemma slip_round_trip_witness :
  let p := mkOscPacket (mem_of ["192"; "219"; "001"]%char) 3 false in
  let r := OscSlipEncodePacket p zeros 100 in
  exists d q,
    feed_bytes (L := udp_limits) (set_processPacket (OscSlipDecoderInitialise blank_decoder))
      (bytes (fst (fst r)) (snd (fst r))) blank_packet
      = (d, repeat 0%Z (snd (fst r)), [q]) /\
    size q = size p /\
    bytes (contents q) (size q) = bytes (contents p) (size p).
Proof.
  intros p r.
  apply (slip_round_trip (L := udp_limits) p zeros 100 blank_decoder blank_packet).
  - reflexivity.
  - cbv. lia.
  - cbv. lia.
Defined.

(** C6, the defect: with a packet of the single byte 01 and a destination
    of one byte, [OscSlipEncodePacket] returns 0, reports two bytes written
    and has stored the END at index 1, past the destination. *)
Lemma OscSlipEncodePacket_overrun :
  let p := mkOscPacket (mem_of ["001"]%char) 1 false in
  let r := OscSlipEncodePacket p zeros 1 in
  snd r = 0%Z /\ snd (fst r) = 2 /\ fst (fst r) 1 = SLIP_END /\ zeros 1 <> SLIP_END.
Proof. vm_compute. repeat split; discriminate. Qed.

(** C8 as stated fails: a fresh decoder with a registered handler that
    receives END as its first byte calls the handler. *)
Lemma empty_frame_counterexample :
  snd (OscSlipDecoderProcessByte (L := udp_limits)
         (set_processPacket (OscSlipDecoderInitialise blank_decoder)) SLIP_END blank_packet)
  <> None.
Proof. vm_compute. discriminate. Qed.

Lemma empty_frame_delivered_witness :
  exists d' q,
    OscSlipDecoderProcessByte (L := udp_limits)
      (set_processPacket (OscSlipDecoderInitialise blank_decoder)) SLIP_END blank_packet
      = (d', 0%Z, Some q) /\
    size q = 0 /\ bufferIndex d' = 0 /\ processPacket d' = true.
Proof.
  apply (empty_frame_delivered (L := udp_limits)); reflexivity.
Defined.

(** ** Bundles *)

Section BundleProperties.
Context {L : Limits}.

(** C7, amended: for every bundle whose element region has more than 4
    bytes past the iteration cursor, [OscBundleGetBundleElement] reads the
    big-endian int32 size at the cursor and succeeds whenever that size is
    non-negative, a multiple of 4 and does not extend past the element region:
    it returns 0, the element has that size and points just past the size
    prefix, and the cursor moves past the contents of the element.  With 4
    bytes or fewer past the cursor the call fails and leaves the bundle and
    the element as they were, so that a size prefix of 0 in the last 4 bytes
    is rejected. *)
Theorem OscBundleGetBundleElement_ok (b : OscBundle) (e : OscBundleElement) :
  let i := oscBundleElementsIndex b in
  let s := int32_of_bytes (oscBundleElements b i) (oscBundleElements b (i + 1))
                          (oscBundleElements b (i + 2)) (oscBundleElements b (i + 3)) in
  (i + 4 < oscBundleElementsSize b ->
   (0 <= s)%Z -> (s mod 4 = 0)%Z -> i + 4 + Z.to_nat s <= oscBundleElementsSize b ->
   exists b' e',
     OscBundleGetBundleElement b e = (b', e', 0%Z) /\
     elementSize e' = s /\
     (forall j, elementContents e' j = oscBundleElements b (i + 4 + j)) /\
     oscBundleElementsIndex b' = i + 4 + Z.to_nat s /\
     oscBundleElementsSize b' = oscBundleElementsSize b /\
     oscBundleElements b' = oscBundleElements b /\
     oscTimeTag b' = oscTimeTag b) /\
  (oscBundleElementsSize b <= i + 4 ->
   OscBundleGetBundleElement b e = (b, e, 1%Z)).
Proof.
  intros i s. split.
  - intros Hi Hs Hm Hfit. unfold OscBundleGetBundleElement. fold i. fold s.
    replace (oscBundleElementsSize b <=? i + 4) with false
      by (symmetry; apply Nat.leb_gt; lia).
    replace (s <? 0)%Z with false by (symmetry; apply Z.ltb_ge; lia).
    rewrite Hm. simpl negb. cbv iota. cbn [oscBundleElementsSize oscBundleElementsIndex].
    replace (Z.of_nat (oscBundleElementsSize b) <? Z.of_nat (i + 4) + s)%Z with false
      by (symmetry; apply Z.ltb_ge; lia).
    eexists. eexists. split; [reflexivity|]. cbn. repeat split.
  - intros Hi. unfold OscBundleGetBundleElement. fold i.
    now replace (oscBundleElementsSize b <=? i + 4) with true
      by (symmetry; apply Nat.leb_le; lia).
Qed.

End BundleProperties.

(** C7 as stated fails: the bundle parsed from a header and the four bytes
    00 00 00 00 has exactly 4 bytes past the cursor, they hold the size 0,
    which is non-negative, a multiple of 4 and inside the element region, and
    [OscBundleGetBundleElement] rejects it. *)
Lemma zero_size_element_counterexample :
  let r := OscBundleInitialiseFromCharArray (L := udp_limits) blank_bundle
             (mem_of (bundle_header_bytes ++ ["000"; "000"; "000"; "000"]%char)) 20 in
  let b := fst r in
  snd r = 0%Z /\
  oscBundleElementsSize b - oscBundleElementsIndex b = 4 /\
  int32_of_bytes (oscBundleElements b 0) (oscBundleElements b 1)
                 (oscBundleElements b 2) (oscBundleElements b 3) = 0%Z /\
  snd (OscBundleGetBundleElement b blank_element) <> 0%Z.
Proof. vm_compute. repeat split; discriminate. Qed.

(** C7 amended, at a bundle with one element of 8 bytes. *)
Lemma OscBundleGetBundleElement_ok_witness :
  let b := fst (OscBundleInitialiseFromCharArray (L := udp_limits) blank_bundle
                  (mem_of (bundle_header_bytes ++
                           ["000"; "000"; "000"; "008";
                            "/"; "a"; "000"; "000"; ","; "000"; "000"; "000"]%char)) 28) in
  exists b' e',
    OscBundleGetBundleElement b blank_element = (b', e', 0%Z) /\
    elementSize e' = 8%Z /\
    (forall j, elementContents e' j = oscBundleElements b (0 + 4 + j)) /\
    oscBundleElementsIndex b' = 12 /\
    oscBundleElementsSize b' = oscBundleElementsSize b /\
    oscBundleElements b' = oscBundleElements b /\
    oscTimeTag b' = oscTimeTag b.
Proof.
  intros b.
  apply (proj1 (OscBundleGetBundleElement_ok b blank_element)).
  - vm_compute. lia.
  - vm_compute. discriminate.
  - reflexivity.
  - vm_compute. lia.
Defined.

(** C9, the defect: parsing the 16 bytes of an empty bundle succeeds, but
    the loop that copies the elements runs once before it tests the source
    index, so the element region has size 1 (the byte that follows the source),
    and the size of the parsed bundle is 17. *)
Lemma empty_bundle_parse_size :
  let r := OscBundleInitialiseFromCharArray (L := udp_limits) blank_bundle
             (mem_of bundle_header_bytes) 16 in
  snd r = 0%Z /\ oscBundleElementsSize (fst r) = 1 /\ OscBundleGetSize (fst r) = 17.
Proof. vm_compute. repeat split. Qed.

(** The same for every choice of the capacities that admits a bundle of 16
    bytes. *)
Lemma empty_bundle_parse_size_general {L : Limits} (b : OscBundle) (source : Mem) :
  MIN_OSC_BUNDLE_SIZE <= 16 <= MAX_OSC_BUNDLE_SIZE ->
  source 0 = OscContentsTypeBundle ->
  snd (OscBundleInitialiseFromCharArray b source 16) = 0%Z /\
  oscBundleElementsSize (fst (OscBundleInitialiseFromCharArray b source 16)) = 1.
Proof.
  intros [H1 H2] H0. unfold OscBundleInitialiseFromCharArray.
  replace (16 <? MIN_OSC_BUNDLE_SIZE) with false by (symmetry; apply Nat.ltb_ge; lia).
  replace (MAX_OSC_BUNDLE_SIZE <? 16) with false by (symmetry; apply Nat.ltb_ge; lia).
  rewrite H0. simpl. auto.
Qed.

(** ** Packets *)

(** [OscPacketInitialiseFromContents] never returns 0. *)
Lemma OscPacketInitialiseFromContents_nonzero {L : Limits} (p p' : OscPacket)
    (c : OscContents) (rc : Z) :
  OscPacketInitialiseFromContents p c = Some (p', rc) -> rc <> 0%Z.
Proof.
  intros H. unfold OscPacketInitialiseFromContents in H.
  repeat match type of H with
         | context [if ?b then _ else _] => destruct b eqn:?
         | context [match ?x with _ => _ end] => destruct x eqn:?
         end; try discriminate; inversion H; subst; try discriminate;
    intros ->; discriminate.
Qed.

(** C2, the defect: the message [/example] serializes into the packet
    buffer, 16 bytes, and [OscPacketInitialiseFromContents] leaves the packet
    holding them, but returns 1. *)
Lemma OscPacketInitialiseFromContents_returns_error :
  snd (OscMessageToCharArray example_message zeros (MAX_OSC_PACKET_SIZE (Limits := udp_limits)))
    = 0%Z /\
  exists p,
    OscPacketInitialiseFromContents (L := udp_limits) blank_packet
      (ContentsMessage example_message) = Some (p, 1%Z) /\
    size p = 16 /\
    bytes (contents p) (size p) =
      ["/"; "e"; "x"; "a"; "m"; "p"; "l"; "e"; "000"; "000"; "000"; "000";
       ","; "000"; "000"; "000"]%char.
Proof.
  split; [reflexivity|]. eexists. split; [reflexivity|]. split; reflexivity.
Qed.

(** Contents that start with ['/'] are handed to the handler and the walk
    returns 0, whatever [OscMessageInitialiseFromCharArray] returned. *)
Lemma DeconstructContents_message {L : Limits} (fuel : nat) (m0 : OscMessage)
    (b0 : OscBundle) (e0 : OscBundleElement) (timeTag : option Z) (source : Mem) (n : nat) :
  n <> 0 ->
  source 0 = OscContentsTypeMessage ->
  DeconstructContents (S fuel) m0 b0 e0 timeTag source n =
    Some (0%Z, [(timeTag, fst (OscMessageInitialiseFromCharArray m0 source n))]).
Proof.
  intros Hn H0. cbn [DeconstructContents].
  apply Nat.eqb_neq in Hn. rewrite Hn. unfold OSC_CONTENTS_IS_MESSAGE.
  now rewrite H0, Ascii.eqb_refl.
Qed.

(** C4, the defect: a packet holds a bundle whose only element is the four
    bytes [/abc].  Parsing the element as a message fails (too few bytes, no
    terminating null), but the walk hands the unfinished message to the
    handler and returns 0; the same happens for a packet of these four
    bytes. *)
Lemma visitor_ignores_parse_failure :
  let child := mem_of ["/"; "a"; "b"; "c"]%char in
  let packet := mkOscPacket
                  (mem_of (bundle_header_bytes ++
                           ["000"; "000"; "000"; "004"; "/"; "a"; "b"; "c"]%char))
                  24 true in
  snd (OscMessageInitialiseFromCharArray (L := udp_limits) blank_message child 4) = 1%Z /\
  (exists m, OscPacketProcessMessages (L := udp_limits) 3 blank_message blank_bundle
               blank_element packet = Some (0%Z, [(Some 0%Z, m)])) /\
  (exists m, OscPacketProcessMessages (L := udp_limits) 3 blank_message blank_bundle
               blank_element (mkOscPacket child 4 true) = Some (0%Z, [(None, m)])).
Proof.
  split; [reflexivity|]. split; eexists; vm_compute; reflexivity.
Qed.

(** ** Bytes and integers *)

Ltac Zify.zify_post_hook ::= Z.to_euclidean_division_equations.

Lemma Z_of_byte_of_Z z : Z_of_byte (byte_of_Z z) = (z mod 256)%Z.
Proof.
  unfold Z_of_byte, byte_of_Z. rewrite N_ascii_embedding by lia. lia.
Qed.

Lemma uint32_of_bytes v : uint_of_bytes (big_endian32 v) = (v mod 2 ^ 32)%Z.
Proof.
  unfold uint_of_bytes, big_endian32, byteN. simpl fold_left. rewrite !Z_of_byte_of_Z.
  change (256 ^ Z.of_nat 3)%Z with 16777216%Z. change (256 ^ Z.of_nat 2)%Z with 65536%Z.
  change (256 ^ Z.of_nat 1)%Z with 256%Z. change (256 ^ Z.of_nat 0)%Z with 1%Z.
  change (2 ^ 32)%Z with 4294967296%Z. Z.to_euclidean_division_equations. lia.
Qed.

Lemma uint_of_bytes_app a b :
  uint_of_bytes (a ++ b) = (uint_of_bytes a * 256 ^ Z.of_nat (length b) + uint_of_bytes b)%Z.
Proof.
  unfold uint_of_bytes. rewrite fold_left_app. generalize (fold_left
    (fun (acc : Z) (c : ascii) => (acc * 256 + Z_of_byte c)%Z) a 0%Z) as x.
  induction b as [|c b IH] using rev_ind; intros x.
  - simpl. lia.
  - rewrite !fold_left_app. simpl fold_left. rewrite IH, length_app. simpl length.
    rewrite Nat2Z.inj_add, Z.pow_add_r by lia. change (256 ^ Z.of_nat 1)%Z with 256%Z.
    simpl. nia.
Qed.

Lemma byteN_high k v : byteN (k + 4) v = byteN k (v / 2 ^ 32).
Proof.
  unfold byteN. f_equal. rewrite Nat2Z.inj_add, Z.pow_add_r by lia.
  change (256 ^ Z.of_nat 4)%Z with (2 ^ 32)%Z.
  rewrite (Z.mul_comm (256 ^ Z.of_nat k)), <- Z.div_div by lia. reflexivity.
Qed.

Lemma uint64_of_bytes v : uint_of_bytes (big_endian64 v) = (v mod 2 ^ 64)%Z.
Proof.
  replace (big_endian64 v) with (big_endian32 (v / 2 ^ 32) ++ big_endian32 v).
  - rewrite uint_of_bytes_app, !uint32_of_bytes. simpl length.
    change (256 ^ Z.of_nat 4)%Z with 4294967296%Z.
    change (2 ^ 32)%Z with 4294967296%Z. change (2 ^ 64)%Z with 18446744073709551616%Z.
    Z.to_euclidean_division_equations. lia.
  - unfold big_endian32, big_endian64. simpl app.
    now rewrite <- (byteN_high 3), <- (byteN_high 2), <- (byteN_high 1), <- (byteN_high 0).
Qed.

(** ** Messages: serialization *)

Section MessageProperties.
Context {L : Limits}.


Lemma TerminateOscString_loop_ok room : forall (s : Mem) size s' size' rc,
  TerminateOscString_loop room s size = (s', size', rc) ->
  (forall j, j < size -> s' j = s j) /\
  (rc = 0%Z /\ size' = terminated size /\ size' - size <= room /\
   (forall j, size <= j < size' -> s' j = "000"%char) /\
   (forall j, size' <= j -> s' j = s j)
   \/ rc = 1%Z /\ room < 4 - size mod 4).
Proof.
  unfold terminated.
  induction room as [|room IH]; intros s size s' size' rc H;
    cbn [TerminateOscString_loop] in H.
  - inversion H; subst. split; [auto|]. right. split; [reflexivity | lia].
  - destruct (S size mod 4 =? 0) eqn:E; cbn [negb] in H.
    + apply Nat.eqb_eq in E. inversion H; subst. split.
      * intros j Hj. apply store_neq. lia.
      * left. split; [reflexivity|]. split; [lia|]. split; [lia|]. split.
        -- intros j Hj. replace j with size by lia. apply store_eq.
        -- intros j Hj. apply store_neq. lia.
    + apply Nat.eqb_neq in E. apply IH in H. destruct H as [H1 H2]. split.
      * intros j Hj. rewrite H1 by lia. apply store_neq. lia.
      * destruct H2 as [(-> & Hs & Hr & Hz & Ha) | (-> & Hr)]; [left | right].
        -- split; [reflexivity|]. split; [lia|]. split; [lia|]. split.
           ++ intros j Hj. destruct (Nat.eq_dec j size) as [->|Hne].
              ** rewrite H1 by lia. apply store_eq.
              ** apply Hz. lia.
           ++ intros j Hj. rewrite Ha by lia. apply store_neq. lia.
        -- split; [reflexivity | lia].
Qed.

Lemma TerminateOscString_ok (s : Mem) size max s' size' rc :
  TerminateOscString s size max = (s', size', rc) ->
  (forall j, j < size -> s' j = s j) /\
  (rc = 0%Z /\ size' = terminated size /\ size' <= max /\
   (forall j, size <= j < size' -> s' j = "000"%char) /\
   (forall j, size' <= j -> s' j = s j)
   \/ rc = 1%Z /\ max < terminated size).
Proof.
  unfold TerminateOscString. intros H. apply TerminateOscString_loop_ok in H.
  destruct H as [H1 H2]. split; [exact H1|].
  unfold terminated in *.
  destruct H2 as [(-> & Hs & Hr & Hz & Ha) | (-> & Hr)]; [left | right].
  - repeat split; auto. lia.
  - split; [reflexivity | lia].
Qed.

(** With no room left, [TerminateOscString] fails at once: the variant of
    its loop is the test of the source. *)
Lemma TerminateOscString_full (s : Mem) size max :
  max <= size -> TerminateOscString s size max = (s, size, 1%Z).
Proof.
  intros H. unfold TerminateOscString. now replace (max - size) with 0 by lia.
Qed.

(** The layout that a successful [OscMessageToCharArray] leaves at the
    destination: the address, nulls up to a multiple of 4, the type tag
    string, nulls up to a multiple of 4, the arguments. *)
Lemma OscMessageToCharArray_ok (m : OscMessage) (destination : Mem) destinationSize d n :
  OscMessageToCharArray m destination destinationSize = (d, n, 0%Z) ->
  let a := oscAddressPatternLength m in
  let t := oscTypeTagStringLength m in
  let A := terminated a in
  let T := terminated (A + t) in
  n = T + argumentsSize m /\ n <= destinationSize /\
  a <> 0 /\ oscAddressPattern m 0 = OscContentsTypeMessage /\
  (forall j, j < a -> d j = oscAddressPattern m j) /\
  (forall j, a <= j < A -> d j = "000"%char) /\
  (forall j, j < t -> d (A + j) = oscTypeTagString m j) /\
  (forall j, A + t <= j < T -> d j = "000"%char) /\
  (forall j, j < argumentsSize m -> d (T + j) = arguments m j).
Proof.
  intros H a t A T. unfold OscMessageToCharArray in H.
  destruct (oscAddressPatternLength m =? 0) eqn:Ea; [discriminate|].
  apply Nat.eqb_neq in Ea.
  destruct (Ascii.eqb_spec (oscAddressPattern m 0) OscContentsTypeMessage) as [E0|];
    [|discriminate]. simpl negb in H. cbv iota in H.
  destruct (destinationSize <? oscAddressPatternLength m); [discriminate|].
  destruct (TerminateOscString _ _ destinationSize) as [[d1 n1] rc1] eqn:T1 in H.
  apply TerminateOscString_ok in T1. destruct T1 as [K1 K1'].
  destruct K1' as [(-> & Hn1 & Hle1 & Hz1 & Ha1) | (-> & _)]; [|discriminate].
  simpl negb in H. cbv iota in H.
  destruct (destinationSize <? n1 + oscTypeTagStringLength m); [discriminate|].
  destruct (TerminateOscString _ _ destinationSize) as [[d2 n2] rc2] eqn:T2 in H.
  apply TerminateOscString_ok in T2. destruct T2 as [K2 K2'].
  destruct K2' as [(-> & Hn2 & Hle2 & Hz2 & Ha2) | (-> & _)]; [|discriminate].
  simpl negb in H. cbv iota in H.
  destruct (destinationSize <? n2 + argumentsSize m) eqn:E3; [discriminate|].
  apply Nat.ltb_ge in E3. inversion H; subst d n. clear H.
  fold a in Hn1, Hz1, Ha1, K1, Ea. fold t in Hn2, Hz2, Ha2, K2.
  assert (HA : n1 = A) by exact Hn1. assert (HT : n2 = T) by (unfold T; now rewrite <- HA).
  assert (HaA : a < A) by (unfold A, terminated; lia).
  assert (HtT : A + t < T) by (unfold T, terminated; lia).
  rewrite HT in *. rewrite HA in *. clear Hn1 Hn2 HA HT.
  split; [reflexivity|]. split; [exact E3|]. split; [exact Ea|]. split; [exact E0|].
  split; [|split; [|split; [|split]]].
  - intros j Hj. rewrite copy_bytes_below by lia. rewrite K2 by lia.
    rewrite copy_bytes_below by lia. rewrite K1 by lia.
    rewrite <- (Nat.add_0_l j) at 1. rewrite copy_bytes_in by lia. reflexivity.
  - intros j Hj. rewrite copy_bytes_below by lia. rewrite K2 by lia.
    rewrite copy_bytes_below by lia. apply Hz1. exact Hj.
  - intros j Hj. rewrite copy_bytes_below by lia. rewrite K2 by lia.
    rewrite copy_bytes_in by lia. reflexivity.
  - intros j Hj. rewrite copy_bytes_below by lia. apply Hz2. lia.
  - intros j Hj. rewrite copy_bytes_in by lia. reflexivity.
Qed.

Lemma round_up_terminated x :
  (if negb ((x + 1) mod 4 =? 0) then x + 1 + (4 - (x + 1) mod 4) else x + 1) = terminated x.
Proof.
  unfold terminated. destruct (Nat.eqb_spec ((x + 1) mod 4) 0); cbn [negb]; lia.
Qed.

(** ** Messages: appending arguments *)

Lemma bytes_app_intro (m : Mem) a (l : list ascii) :
  (forall j, j < length l -> m (a + j) = nth j l "000"%char) ->
  bytes m (a + length l) = bytes m a ++ l.
Proof.
  intros H. rewrite bytes_add. f_equal.
  apply nth_ext with (d := "000"%char) (d' := "000"%char); [apply bytes_length|].
  intros j Hj. rewrite bytes_length in Hj. rewrite bytes_nth by exact Hj. now apply H.
Qed.

Lemma nth_nulls j n : nth j (nulls n) "000"%char = "000"%char.
Proof.
  unfold nulls. destruct (Nat.lt_ge_cases j n) as [H|H].
  - now rewrite nth_repeat_lt.
  - apply nth_overflow. now rewrite repeat_length.
Qed.

Lemma length_nulls n : length (nulls n) = n.
Proof. apply repeat_length. Qed.

Lemma nth_app_nulls j (l : list ascii) n :
  length l <= j -> nth j (l ++ nulls n) "000"%char = "000"%char.
Proof. intros H. rewrite app_nth2 by lia. apply nth_nulls. Qed.

(** Reduction of the projections of a message that was just built. *)
Ltac msimpl :=
  cbn [oscAddressPattern oscTypeTagString arguments oscAddressPatternLength
       oscTypeTagStringLength argumentsSize oscTypeTagStringIndex argumentsIndex
       push_tag push_argument set_arguments set_address set_type_tags set_indexes
       fst snd] in *.

Lemma push_tag_appended (m : OscMessage) tag : appended m (push_tag m tag) tag [].
Proof.
  unfold appended. msimpl. repeat split; auto.
  - rewrite bytes_store_ge by lia. apply bytes_push.
  - apply store_eq.
  - now rewrite app_nil_r.
Qed.

Lemma push_argument_appended (m m' : OscMessage) tag wire c :
  appended m m' tag wire -> appended m (push_argument m' c) tag (wire ++ [c]).
Proof.
  unfold appended. msimpl.
  intros (H1 & H2 & H3 & H4 & H5 & H6 & H7 & H8 & H9).
  repeat split; auto.
  - rewrite H4, length_app. simpl. lia.
  - rewrite bytes_push, H5. now rewrite app_assoc.
Qed.

Lemma add_argument32_ok (m m' : OscMessage) tag b3 b2 b1 b0 rc :
  add_argument32 m tag b3 b2 b1 b0 = (m', rc) ->
  rc = 1%Z /\ m' = m \/
  rc = 0%Z /\ oscTypeTagStringLength m <= MAX_NUMBER_OF_ARGUMENTS /\
  appended m m' tag [b3; b2; b1; b0].
Proof.
  unfold add_argument32.
  destruct (MAX_NUMBER_OF_ARGUMENTS <? oscTypeTagStringLength m) eqn:E1;
    [intros H; inversion H; auto|].
  destruct (MAX_ARGUMENTS_SIZE <? argumentsSize m + 4); [intros H; inversion H; auto|].
  intros H; inversion H; subst. right. split; [reflexivity|].
  apply Nat.ltb_ge in E1. split; [exact E1|].
  change [b3; b2; b1; b0] with (((([] ++ [b3]) ++ [b2]) ++ [b1]) ++ [b0]).
  repeat apply push_argument_appended. apply push_tag_appended.
Qed.

Lemma add_argument64_ok (m m' : OscMessage) tag v rc :
  add_argument64 m tag v = (m', rc) ->
  rc = 1%Z /\ m' = m \/
  rc = 0%Z /\ oscTypeTagStringLength m <= MAX_NUMBER_OF_ARGUMENTS /\
  appended m m' tag (big_endian64 v).
Proof.
  unfold add_argument64.
  destruct (MAX_NUMBER_OF_ARGUMENTS <? oscTypeTagStringLength m) eqn:E1;
    [intros H; inversion H; auto|].
  destruct (MAX_ARGUMENTS_SIZE <? argumentsSize m + 8); [intros H; inversion H; auto|].
  intros H; inversion H; subst. right. split; [reflexivity|].
  apply Nat.ltb_ge in E1. split; [exact E1|].
  change (big_endian64 v) with
    (((((((([] ++ [byteN 7 v]) ++ [byteN 6 v]) ++ [byteN 5 v]) ++ [byteN 4 v])
        ++ [byteN 3 v]) ++ [byteN 2 v]) ++ [byteN 1 v]) ++ [byteN 0 v]).
  repeat apply push_argument_appended. apply push_tag_appended.
Qed.

Lemma add_tag_only_ok (m m' : OscMessage) tag rc :
  add_tag_only m tag = (m', rc) ->
  rc = 1%Z /\ m' = m \/
  rc = 0%Z /\ oscTypeTagStringLength m <= MAX_NUMBER_OF_ARGUMENTS /\
  appended m m' tag [].
Proof.
  unfold add_tag_only.
  destruct (MAX_NUMBER_OF_ARGUMENTS <? oscTypeTagStringLength m) eqn:E1;
    intros H; inversion H; subst; auto.
  right. split; [reflexivity|]. apply Nat.ltb_ge in E1. split; [exact E1|].
  apply push_tag_appended.
Qed.

Lemma add_string_loop_ok string : forall (args : Mem) size args' size' rc,
  add_string_loop string args size = (args', size', rc) ->
  (forall j, j < size -> args' j = args j) /\ size <= size' /\
  (rc = 1%Z \/
   rc = 0%Z /\
   (Forall (fun c => c <> "000"%char) string ->
    size' = size + length string /\
    forall j, j < length string -> args' (size + j) = nth j string "000"%char)).
Proof.
  induction string as [|c string IH]; intros args size args' size' rc H; simpl in H.
  - inversion H; subst. split; [auto|]. split; [lia|]. right. split; [reflexivity|].
    intros _. split; [simpl; lia|]. simpl. intros j Hj. lia.
  - destruct (Ascii.eqb_spec c "000"%char) as [->|Hc].
    + inversion H; subst. split; [auto|]. split; [lia|]. right. split; [reflexivity|].
      intros Hf. inversion Hf. congruence.
    + destruct (MAX_ARGUMENTS_SIZE <=? size).
      * inversion H; subst. auto.
      * apply IH in H. destruct H as (H1 & Hle & H2). split; [|split; [lia|]].
        -- intros j Hj. rewrite H1 by lia. apply store_neq. lia.
        -- destruct H2 as [->|[-> H2]]; [auto|]. right. split; [reflexivity|].
           intros Hf. inversion Hf as [|? ? _ Hf']; subst.
           destruct (H2 Hf') as [Hs Hn]. split; [simpl; lia|].
           intros [|j] Hj; simpl in *.
           ++ rewrite Nat.add_0_r, H1 by lia. apply store_eq.
           ++ rewrite <- Hn by lia. f_equal. lia.
Qed.

Lemma add_blob_pad_loop_ok room : forall (args : Mem) size args' size' rc,
  add_blob_pad_loop room args size = (args', size', rc) ->
  (forall j, j < size -> args' j = args j) /\
  (rc = 1%Z \/
   rc = 0%Z /\ size' = size + (4 - size mod 4) mod 4 /\ size' <= size + room /\
   forall j, size <= j < size' -> args' j = "000"%char).
Proof.
  induction room as [|room IH]; intros args size args' size' rc H;
    cbn [add_blob_pad_loop] in H;
    destruct (Nat.eqb_spec (size mod 4) 0) as [E|E].
  - inversion H; subst. split; [auto|]. right. split; [reflexivity|]. split; [lia|].
    split; [lia|]. intros j Hj. lia.
  - inversion H; subst. auto.
  - inversion H; subst. split; [auto|]. right. split; [reflexivity|]. split; [lia|].
    split; [lia|]. intros j Hj. lia.
  - apply IH in H. destruct H as [H1 H2]. split.
    + intros j Hj. rewrite H1 by lia. apply store_neq. lia.
    + destruct H2 as [->|(-> & Hs & Hr & Hz)]; [auto|]. right. split; [reflexivity|].
      split; [lia|]. split; [lia|]. intros j Hj. destruct (Nat.eq_dec j size) as [->|Hne].
      * rewrite H1 by lia. apply store_eq.
      * apply Hz. lia.
Qed.

Lemma arguments_view_set_arguments (m : OscMessage) (args : Mem) :
  (forall j, j < argumentsSize m -> args j = arguments m j) ->
  arguments_view (set_arguments m args (argumentsSize m)) = arguments_view m.
Proof.
  intros H. unfold arguments_view. msimpl. f_equal. f_equal. now apply bytes_ext.
Qed.

Lemma appended_commit (m : OscMessage) (args : Mem) n tag wire :
  n = argumentsSize m + length wire ->
  (forall j, j < argumentsSize m -> args j = arguments m j) ->
  (forall j, j < length wire -> args (argumentsSize m + j) = nth j wire "000"%char) ->
  appended m (push_tag (set_arguments m args n) tag) tag wire.
Proof.
  intros Hn Hlow Hw. unfold appended. msimpl. repeat split; auto.
  - rewrite bytes_store_ge by lia. apply bytes_push.
  - apply store_eq.
  - rewrite Hn, bytes_app_intro by exact Hw. f_equal. now apply bytes_ext.
Qed.

Lemma OscMessageAddString_ok (m m' : OscMessage) string rc :
  OscMessageAddString m string = (m', rc) ->
  rc = 1%Z /\ arguments_view m' = arguments_view m \/
  rc = 0%Z /\ oscTypeTagStringLength m <= MAX_NUMBER_OF_ARGUMENTS /\
  (Forall (fun c => c <> "000"%char) string -> argumentsSize m mod 4 = 0 ->
   appended m m' OscTypeTagString (string ++ nulls (4 - length string mod 4))).
Proof.
  unfold OscMessageAddString.
  destruct (MAX_NUMBER_OF_ARGUMENTS <? oscTypeTagStringLength m) eqn:E1;
    [intros H; inversion H; auto|]. apply Nat.ltb_ge in E1.
  destruct (add_string_loop string (arguments m) (argumentsSize m)) as [[a1 n1] rc1] eqn:E2.
  apply add_string_loop_ok in E2. destruct E2 as (K1 & Kle & K2).
  destruct K2 as [->|[-> K2]]; cbn [negb Z.eqb].
  { intros H; inversion H; subst. left. split; [reflexivity|].
    now apply arguments_view_set_arguments. }
  destruct (TerminateOscString a1 n1 MAX_ARGUMENTS_SIZE) as [[a2 n2] rc2] eqn:E3.
  apply TerminateOscString_ok in E3. destruct E3 as [K3 K4].
  assert (Hn1 : forall j, j < argumentsSize m -> a2 j = arguments m j).
  { intros j Hj. rewrite K3 by lia. now apply K1. }
  destruct K4 as [(-> & Hn2 & Hle2 & Hz & Ha) | (-> & _)]; cbn [negb Z.eqb].
  2:{ intros H; inversion H; subst. left. split; [reflexivity|].
      now apply arguments_view_set_arguments. }
  intros H; inversion H; subst. right. split; [reflexivity|]. split; [exact E1|].
  intros Hf Hm. destruct (K2 Hf) as [Hs Hc]. unfold terminated in *.
  apply appended_commit.
  - rewrite length_app, length_nulls. lia.
  - exact Hn1.
  - intros j Hj. rewrite length_app, length_nulls in Hj.
    destruct (Nat.lt_ge_cases j (length string)) as [Hlt|Hge].
    + rewrite app_nth1 by exact Hlt. rewrite K3 by lia. now apply Hc.
    + rewrite nth_app_nulls by exact Hge. apply Hz. lia.
Qed.

Lemma OscMessageAddAlternateString_ok (m m' : OscMessage) string rc :
  OscMessageAddAlternateString m string = (m', rc) ->
  rc = 1%Z /\ arguments_view m' = arguments_view m \/
  rc = 0%Z /\ oscTypeTagStringLength m <= MAX_NUMBER_OF_ARGUMENTS /\
  (Forall (fun c => c <> "000"%char) string -> argumentsSize m mod 4 = 0 ->
   appended m m' OscTypeTagAlternateString (string ++ nulls (4 - length string mod 4))).
Proof.
  unfold OscMessageAddAlternateString.
  destruct (OscMessageAddString m string) as [m1 rc1] eqn:E.
  apply OscMessageAddString_ok in E.
  destruct E as [(-> & Hv) | (-> & Hle & Hs)]; cbn [negb Z.eqb];
    intros H; inversion H; subst; [auto|].
  right. split; [reflexivity|]. split; [exact Hle|]. intros Hf Hm.
  destruct (Hs Hf Hm) as (H1 & H2 & H3 & H4 & H5 & H6 & H7 & H8 & H9).
  unfold appended. msimpl. rewrite H1. replace (S (oscTypeTagStringLength m) - 1)
    with (oscTypeTagStringLength m) by lia.
  repeat split; auto.
  - rewrite bytes_store_ge by lia. rewrite bytes_push. f_equal.
    rewrite bytes_S in H2. now apply app_inj_tail in H2.
  - apply store_eq.
Qed.

Lemma OscMessageAddBlob_ok (m m' : OscMessage) (source : Mem) n rc :
  OscMessageAddBlob m source n = (m', rc) ->
  rc = 1%Z /\ arguments_view m' = arguments_view m \/
  rc = 0%Z /\ oscTypeTagStringLength m <= MAX_NUMBER_OF_ARGUMENTS /\
  (argumentsSize m mod 4 = 0 ->
   appended m m' OscTypeTagBlob
     (big_endian32 (Z.of_nat n) ++ bytes source n ++ nulls ((4 - n mod 4) mod 4))).
Proof.
  unfold OscMessageAddBlob.
  destruct (MAX_NUMBER_OF_ARGUMENTS <? oscTypeTagStringLength m) eqn:E1;
    [intros H; inversion H; auto|]. apply Nat.ltb_ge in E1.
  destruct (MAX_ARGUMENTS_SIZE <? argumentsSize m + 4 + n); [intros H; inversion H; auto|].
  cbv zeta.
  set (z := argumentsSize m).
  set (a4 := store (store (store (store (arguments m) z _) (z + 1) _) (z + 2) _) (z + 3) _).
  destruct (add_blob_pad_loop _ (copy_bytes n source 0 a4 (z + 4)) (z + 4 + n))
    as [[a2 n2] rc2] eqn:E3.
  apply add_blob_pad_loop_ok in E3. destruct E3 as [K3 K4].
  assert (Hcopy : forall j, j < z + 4 + n ->
            a2 j = if j <? z then arguments m j
                   else nth (j - z) (big_endian32 (Z.of_nat n) ++ bytes source n) "000"%char).
  { intros j Hj. rewrite K3 by exact Hj. rewrite copy_bytes_at.
    destruct (Nat.ltb_spec j z) as [Hlt|Hge].
    - replace (z + 4 <=? j) with false by (symmetry; apply Nat.leb_gt; lia).
      cbn [andb]. unfold a4. rewrite !store_neq by lia. reflexivity.
    - destruct (Nat.leb_spec (z + 4) j) as [H4|H4].
      + replace (j <? z + 4 + n) with true by (symmetry; apply Nat.ltb_lt; lia).
        cbn [andb]. rewrite app_nth2 by (simpl; lia). simpl length.
        rewrite bytes_nth by lia. f_equal. lia.
      + cbn [andb]. unfold a4, big_endian32.
        assert (Hc : j - z = 0 \/ j - z = 1 \/ j - z = 2 \/ j - z = 3) by lia.
        destruct Hc as [Hc|[Hc|[Hc|Hc]]]; rewrite Hc; simpl nth;
          [replace j with z by lia | replace j with (z + 1) by lia
           | replace j with (z + 2) by lia | replace j with (z + 3) by lia];
          rewrite ?store_eq; rewrite ?store_neq by lia; rewrite ?store_eq;
          rewrite ?store_neq by lia; rewrite ?store_eq; rewrite ?store_neq by lia;
          rewrite ?store_eq; reflexivity. }
  assert (Hlow : forall j, j < z -> a2 j = arguments m j).
  { intros j Hj. rewrite Hcopy by lia.
    now replace (j <? z) with true by (symmetry; apply Nat.ltb_lt; lia). }
  destruct K4 as [->|(-> & Hs & _ & Hz)]; cbn [negb Z.eqb]; intros H; inversion H; subst.
  - left. split; [reflexivity|]. now apply arguments_view_set_arguments.
  - right. split; [reflexivity|]. split; [exact E1|]. intros Hm. fold z in Hm.
    apply appended_commit.
    + fold z. rewrite !length_app, bytes_length, length_nulls. simpl length. lia.
    + exact Hlow.
    + fold z. intros j Hj. rewrite !length_app, bytes_length, length_nulls in Hj.
      simpl length in Hj. rewrite app_assoc.
      destruct (Nat.lt_ge_cases j (4 + n)) as [Hlt|Hge].
      * rewrite app_nth1 by (rewrite length_app, bytes_length; simpl; lia).
        rewrite Hcopy by lia.
        replace (z + j <? z) with false by (symmetry; apply Nat.ltb_ge; lia).
        f_equal. lia.
      * rewrite nth_app_nulls by (rewrite length_app, bytes_length; simpl; lia).
        apply Hz. lia.
Qed.

Lemma OscMessageAdd_ok (m m' : OscMessage) (a : OscArgument) rc :
  OscMessageAdd m a = (m', rc) ->
  rc = 1%Z /\ arguments_view m' = arguments_view m \/
  rc = 0%Z /\ oscTypeTagStringLength m <= MAX_NUMBER_OF_ARGUMENTS /\
  (argument_ok a -> argumentsSize m mod 4 = 0 ->
   appended m m' (argument_tag a) (argument_bytes a)).
Proof.
  destruct a; cbn [OscMessageAdd argument_ok argument_tag argument_bytes]; intros H;
    try (apply add_argument32_ok in H;
         destruct H as [(-> & ->)|(-> & Hle & Ha)]; [left | right]; now auto);
    try (apply add_argument64_ok in H;
         destruct H as [(-> & ->)|(-> & Hle & Ha)]; [left | right]; now auto);
    try (apply add_tag_only_ok in H;
         destruct H as [(-> & ->)|(-> & Hle & Ha)]; [left | right]; now auto).
  - apply OscMessageAddString_ok in H.
    destruct H as [(-> & Hv)|(-> & Hle & Ha)]; [left | right]; auto.
  - apply OscMessageAddBlob_ok in H. rewrite mem_of_bytes in H.
    destruct H as [(-> & Hv)|(-> & Hle & Ha)]; [left | right]; auto.
  - apply OscMessageAddAlternateString_ok in H.
    destruct H as [(-> & Hv)|(-> & Hle & Ha)]; [left | right]; auto.
Qed.

(** C5: for every message and every [OscMessageAdd...] call that does not
    return 0, the return code is 1 and the type tag string, the tag count, the
    argument bytes and the arguments size of the message are what they were
    before the call. *)
Theorem OscMessageAdd_refusal (m : OscMessage) (a : OscArgument) :
  snd (OscMessageAdd m a) <> 0%Z ->
  snd (OscMessageAdd m a) = 1%Z /\
  arguments_view (fst (OscMessageAdd m a)) = arguments_view m.
Proof.
  destruct (OscMessageAdd m a) as [m' rc] eqn:E. cbn [fst snd]. intros Hrc.
  apply OscMessageAdd_ok in E. destruct E as [(-> & Hv)|(-> & _)]; [auto | congruence].
Qed.

(** A call that succeeds keeps the arguments within [MAX_ARGUMENTS_SIZE],
    unless it adds no argument bytes. *)
Lemma OscMessageAdd_fits (m m' : OscMessage) (a : OscArgument) :
  OscMessageAdd m a = (m', 0%Z) ->
  argumentsSize m' = argumentsSize m \/ argumentsSize m' <= MAX_ARGUMENTS_SIZE.
Proof.
  assert (H32 : forall tag b3 b2 b1 b0,
            add_argument32 m tag b3 b2 b1 b0 = (m', 0%Z) ->
            argumentsSize m' <= MAX_ARGUMENTS_SIZE).
  { intros tag b3 b2 b1 b0. unfold add_argument32.
    destruct (MAX_NUMBER_OF_ARGUMENTS <? oscTypeTagStringLength m); [discriminate|].
    destruct (Nat.ltb_spec MAX_ARGUMENTS_SIZE (argumentsSize m + 4)); [discriminate|].
    intros Hx; inversion Hx; subst. msimpl. lia. }
  assert (H64 : forall tag v,
            add_argument64 m tag v = (m', 0%Z) -> argumentsSize m' <= MAX_ARGUMENTS_SIZE).
  { intros tag v. unfold add_argument64.
    destruct (MAX_NUMBER_OF_ARGUMENTS <? oscTypeTagStringLength m); [discriminate|].
    destruct (Nat.ltb_spec MAX_ARGUMENTS_SIZE (argumentsSize m + 8)); [discriminate|].
    intros Hx; inversion Hx; subst. msimpl. lia. }
  assert (Htag : forall tag, add_tag_only m tag = (m', 0%Z) ->
                             argumentsSize m' = argumentsSize m).
  { intros tag. unfold add_tag_only.
    destruct (MAX_NUMBER_OF_ARGUMENTS <? oscTypeTagStringLength m); [discriminate|].
    intros Hx; inversion Hx; subst. reflexivity. }
  assert (Hstr : forall m2 string, OscMessageAddString m string = (m2, 0%Z) ->
                                   argumentsSize m2 <= MAX_ARGUMENTS_SIZE).
  { intros m2 string. unfold OscMessageAddString.
    destruct (MAX_NUMBER_OF_ARGUMENTS <? oscTypeTagStringLength m); [discriminate|].
    destruct (add_string_loop string (arguments m) (argumentsSize m)) as [[a1 n1] rc1].
    destruct (Z.eqb_spec rc1 0) as [->|]; cbn [negb]; [|discriminate].
    destruct (TerminateOscString a1 n1 MAX_ARGUMENTS_SIZE) as [[a2 n2] rc2] eqn:E.
    apply TerminateOscString_ok in E. destruct E as [_ [(-> & _ & Hle & _)|(-> & _)]];
      cbn [negb Z.eqb]; [|discriminate].
    intros Hx; inversion Hx; subst. msimpl. exact Hle. }
  destruct a; cbn [OscMessageAdd]; intros H;
    try (right; eapply H32; exact H); try (right; eapply H64; exact H);
    try (left; eapply Htag; exact H).
  - right. eapply Hstr; exact H.
  - right. revert H. unfold OscMessageAddBlob.
    destruct (MAX_NUMBER_OF_ARGUMENTS <? oscTypeTagStringLength m); [discriminate|].
    destruct (Nat.ltb_spec MAX_ARGUMENTS_SIZE (argumentsSize m + 4 + length blob));
      [discriminate|]. cbv zeta.
    match goal with
    | |- context [add_blob_pad_loop ?r ?x ?y] =>
        destruct (add_blob_pad_loop r x y) as [[a2 n2] rc2] eqn:E
    end.
    apply add_blob_pad_loop_ok in E. destruct E as [_ [->|(-> & _ & Hle & _)]];
      cbn [negb Z.eqb]; [discriminate|].
    intros H'; inversion H'; subst. msimpl. lia.
  - right. revert H. unfold OscMessageAddAlternateString.
    destruct (OscMessageAddString m string) as [m1 rc1] eqn:E.
    destruct (Z.eqb_spec rc1 0) as [->|]; cbn [negb]; [|discriminate].
    intros H'; inversion H'; subst. msimpl. eapply Hstr; exact E.
Qed.

(** A call that would exceed a bound fails: when the message has
    [MAX_NUMBER_OF_ARGUMENTS] tags already, or when its argument bytes and
    those of the new argument exceed [MAX_ARGUMENTS_SIZE], the call returns 1. *)
Lemma OscMessageAdd_exceeds (m : OscMessage) (a : OscArgument) :
  argument_ok a ->
  argumentsSize m mod 4 = 0 ->
  argumentsSize m <= MAX_ARGUMENTS_SIZE ->
  MAX_NUMBER_OF_ARGUMENTS < oscTypeTagStringLength m \/
  MAX_ARGUMENTS_SIZE < argumentsSize m + length (argument_bytes a) ->
  snd (OscMessageAdd m a) = 1%Z.
Proof.
  intros Hok Hal Hsz Hex. destruct (OscMessageAdd m a) as [m' rc] eqn:E. cbn [snd].
  pose proof E as E'. apply OscMessageAdd_ok in E'.
  destruct E' as [(-> & _)|(-> & Hle & Ha)]; [reflexivity|].
  apply OscMessageAdd_fits in E. specialize (Ha Hok Hal).
  destruct Ha as (_ & _ & _ & Hs & _). lia.
Qed.

(** ** Messages: construction *)

Lemma argument_bytes_aligned (a : OscArgument) : length (argument_bytes a) mod 4 = 0.
Proof.
  destruct a; cbn [argument_bytes]; try reflexivity;
    rewrite ?length_app, ?length_nulls; cbn [length big_endian32]; lia.
Qed.

Lemma flat_map_argument_bytes_aligned l : length (flat_map argument_bytes l) mod 4 = 0.
Proof.
  induction l as [|a l IH]; [reflexivity|]. cbn [flat_map]. rewrite length_app.
  pose proof (argument_bytes_aligned a). lia.
Qed.

Lemma append_address_loop_ok parts : forall (m m' : OscMessage),
  append_address_loop parts m = (m', 0%Z) ->
  Forall (fun c => c <> "000"%char) parts ->
  oscAddressPatternLength m <= MAX_OSC_ADDRESS_PATTERN_LENGTH ->
  oscAddressPatternLength m' = oscAddressPatternLength m + length parts /\
  oscAddressPatternLength m' <= MAX_OSC_ADDRESS_PATTERN_LENGTH /\
  bytes (oscAddressPattern m') (oscAddressPatternLength m') =
    bytes (oscAddressPattern m) (oscAddressPatternLength m) ++ parts /\
  oscTypeTagString m' = oscTypeTagString m /\
  arguments m' = arguments m /\
  oscTypeTagStringLength m' = oscTypeTagStringLength m /\
  argumentsSize m' = argumentsSize m /\
  oscTypeTagStringIndex m' = oscTypeTagStringIndex m /\
  argumentsIndex m' = argumentsIndex m.
Proof.
  induction parts as [|c parts IH]; intros m m' H Hf Hle; simpl in H.
  - inversion H; subst. rewrite app_nil_r. simpl. repeat split; auto.
  - inversion Hf as [|? ? Hc Hf']; subst. apply Ascii.eqb_neq in Hc. rewrite Hc in H.
    destruct (Nat.leb_spec MAX_OSC_ADDRESS_PATTERN_LENGTH (oscAddressPatternLength m));
      [discriminate|].
    apply IH in H; [|exact Hf' | msimpl; lia]. msimpl.
    destruct H as (H1 & H2 & H3 & H4).
    split; [rewrite H1; simpl; lia|]. split; [lia|].
    split; [rewrite H3, bytes_push, <- app_assoc; reflexivity|]. exact H4.
Qed.

Lemma OscMessageInitialise_ok (m0 m : OscMessage) (address : list ascii) :
  OscMessageInitialise m0 address = (m, 0%Z) ->
  Forall (fun c => c <> "000"%char) address ->
  oscAddressPatternLength m = length address /\
  length address <= MAX_OSC_ADDRESS_PATTERN_LENGTH /\
  bytes (oscAddressPattern m) (length address) = address /\
  oscAddressPattern m (length address) = "000"%char /\
  holds_arguments m [] /\
  oscTypeTagStringIndex m = 1 /\ argumentsIndex m = 0.
Proof.
  unfold OscMessageInitialise. intros H Hf.
  destruct address as [|c address].
  - simpl in H. inversion H; subst. unfold holds_arguments. msimpl. simpl.
    repeat split; auto; lia.
  - inversion Hf as [|? ? Hc _]; subst. cbn [hd] in H.
    apply Ascii.eqb_neq in Hc. rewrite Hc in H. cbn [negb] in H.
    unfold OscMessageSetAddressPattern, OscMessageAppendAddressPattern in H.
    cbn [hd] in H. destruct (c =? OscContentsTypeMessage)%char; [|discriminate].
    cbn [negb] in H.
    match type of H with
    | context [append_address_loop ?p ?x] =>
        destruct (append_address_loop p x) as [m1 rc1] eqn:E
    end.
    destruct (Z.eqb_spec rc1 0) as [->|]; [|discriminate].
    apply append_address_loop_ok in E; [|exact Hf | msimpl; lia]. msimpl.
    destruct E as (E1 & E2 & E3 & E4 & E5 & E6 & E7 & E8 & E9).
    inversion H; subst m. clear H. unfold holds_arguments. msimpl.
    rewrite E4, E5, E6, E7, E8, E9. rewrite E1 in *. simpl plus in *.
    split; [reflexivity|]. split; [exact E2|]. cbn [length]. split.
    { rewrite bytes_store_ge by lia. exact E3. }
    split; [apply store_eq|]. simpl. repeat split; auto.
Qed.

Lemma appended_holds (m m' : OscMessage) (l : list OscArgument) (a : OscArgument) :
  holds_arguments m l ->
  appended m m' (argument_tag a) (argument_bytes a) ->
  holds_arguments m' (l ++ [a]).
Proof.
  unfold holds_arguments, appended.
  intros (H1 & H2 & H3 & H4 & H5) (A1 & A2 & A3 & A4 & A5 & _).
  rewrite H1 in *. rewrite length_app, map_app, flat_map_app. simpl length.
  rewrite Nat.add_1_r. cbn [map flat_map]. rewrite app_nil_r.
  split; [exact A1|]. split; [rewrite A2, H2; reflexivity|].
  split; [exact A3|]. split; [rewrite A4, H4, length_app; reflexivity|].
  rewrite A5, H5. reflexivity.
Qed.

Lemma add_arguments_ok l : forall (pre : list OscArgument) (m m' : OscMessage),
  add_arguments m l = (m', 0%Z) ->
  Forall argument_ok l ->
  holds_arguments m pre ->
  holds_arguments m' (pre ++ l) /\
  (l <> [] -> length (pre ++ l) <= MAX_NUMBER_OF_ARGUMENTS) /\
  oscAddressPattern m' = oscAddressPattern m /\
  oscAddressPatternLength m' = oscAddressPatternLength m /\
  oscTypeTagStringIndex m' = oscTypeTagStringIndex m /\
  argumentsIndex m' = argumentsIndex m.
Proof.
  induction l as [|a l IH]; intros pre m m' H Hok Hh; simpl in H.
  - inversion H; subst. rewrite app_nil_r. split; [exact Hh|]. split; [congruence|]. auto.
  - inversion Hok as [|? ? Ha Hok']; subst.
    destruct (OscMessageAdd m a) as [m1 rc] eqn:E.
    destruct (Z.eqb_spec rc 0) as [->|Hrc]; [|inversion H; congruence].
    apply OscMessageAdd_ok in E. destruct E as [(E & _)|(_ & Hle & E)]; [discriminate|].
    assert (Hal : argumentsSize m mod 4 = 0).
    { destruct Hh as (_ & _ & _ & -> & _). apply flat_map_argument_bytes_aligned. }
    specialize (E Ha Hal).
    pose proof (appended_holds m m1 pre a Hh E) as Hh1.
    destruct (IH (pre ++ [a]) m1 m' H Hok' Hh1) as (K1 & K2 & K3 & K4 & K5 & K6).
    rewrite <- app_assoc in K1, K2. cbn [app] in K1, K2.
    destruct E as (_ & _ & _ & _ & _ & E6 & E7 & E8 & E9).
    split; [exact K1|]. split.
    { intros _. destruct l as [|b l]; [|apply K2; discriminate].
      destruct Hh as (Hl & _). rewrite length_app. simpl. lia. }
    rewrite K3, K4, K5, K6. auto.
Qed.

(** ** Messages: parsing what was serialized *)

Lemma parse_address_loop_ok (source : Mem) n a k : forall idx (m : OscMessage) remaining,
  a = idx + k ->
  oscAddressPatternLength m = idx ->
  remaining = n - (idx + 1) ->
  a < n ->
  a <= MAX_OSC_ADDRESS_PATTERN_LENGTH ->
  (forall j, idx <= j < a -> source j <> "000"%char) ->
  source a = "000"%char ->
  exists addr,
    parse_address_loop remaining source idx m = (set_address m addr a, a, 0%Z) /\
    (forall j, idx <= j < a -> addr j = source j) /\
    (forall j, j < idx -> addr j = oscAddressPattern m j).
Proof.
  induction k as [|k IH]; intros idx m remaining Ha Hlen Hrem Hn Hmax Hnn Hnull.
  - assert (E0 : idx = a) by lia. rewrite E0 in *. clear E0.
    exists (oscAddressPattern m).
    destruct remaining; cbn [parse_address_loop]; rewrite Hnull; cbn [Ascii.eqb];
      (split; [rewrite <- Hlen; destruct m; reflexivity|]);
      (split; [intros; lia | reflexivity]).
  - destruct remaining as [|remaining]; [lia|]. cbn [parse_address_loop].
    pose proof (Hnn idx ltac:(lia)) as Hc. apply Ascii.eqb_neq in Hc. rewrite Hc.
    msimpl. rewrite Hlen.
    replace (MAX_OSC_ADDRESS_PATTERN_LENGTH <? S idx) with false
      by (symmetry; apply Nat.ltb_ge; lia).
    destruct (IH (S idx)
                (set_address m (store (oscAddressPattern m) idx (source idx)) (S idx))
                remaining) as (addr & E & H1 & H2);
      try (msimpl; lia); auto.
    { intros j Hj. apply Hnn. lia. }
    exists addr. split; [exact E|]. msimpl. split.
    + intros j Hj. destruct (Nat.eq_dec j idx) as [->|Hne].
      * rewrite H2 by lia. apply store_eq.
      * apply H1. lia.
    + intros j Hj. rewrite H2 by lia. apply store_neq. lia.
Qed.

Lemma parse_comma_loop_ok (source : Mem) n A k : forall idx remaining,
  A + 1 = idx + k ->
  1 <= idx ->
  remaining = n - (idx + 1) ->
  A + 1 < n ->
  (forall j, idx - 1 <= j < A -> source j <> ","%char) ->
  source A = ","%char ->
  parse_comma_loop remaining source idx = (A + 1, 0%Z).
Proof.
  induction k as [|k IH]; intros idx remaining HA Hidx Hrem Hn Hnc Hc.
  - assert (E0 : idx = A + 1) by lia. rewrite E0 in *. clear E0.
    destruct remaining; cbn [parse_comma_loop];
      replace (A + 1 - 1) with A by lia; rewrite Hc; reflexivity.
  - destruct remaining as [|remaining]; [lia|]. cbn [parse_comma_loop].
    pose proof (Hnc (idx - 1) ltac:(lia)) as Hx. apply Ascii.eqb_neq in Hx. rewrite Hx.
    apply IH; [lia | lia | lia | lia | intros j Hj; apply Hnc; lia | exact Hc].
Qed.

Lemma parse_type_tag_loop_ok (source : Mem) n A t k : forall idx (m : OscMessage) remaining,
  A + t = idx + k ->
  A + oscTypeTagStringLength m = idx ->
  remaining = n - (idx + 1) ->
  A + t < n ->
  t <= MAX_OSC_TYPE_TAG_STRING_LENGTH ->
  (forall j, idx <= j < A + t -> source j <> "000"%char) ->
  source (A + t) = "000"%char ->
  exists tags,
    parse_type_tag_loop remaining source idx m = (set_type_tags m tags t, A + t, 0%Z) /\
    (forall j, idx <= A + j < A + t -> tags j = source (A + j)) /\
    (forall j, A + j < idx -> tags j = oscTypeTagString m j).
Proof.
  induction k as [|k IH]; intros idx m remaining Ha Hlen Hrem Hn Hmax Hnn Hnull.
  - assert (E0 : idx = A + t) by lia. rewrite E0 in *. clear E0.
    exists (oscTypeTagString m).
    assert (Ht : oscTypeTagStringLength m = t) by lia.
    destruct remaining; cbn [parse_type_tag_loop]; rewrite Hnull; cbn [Ascii.eqb];
      (split; [rewrite <- Ht; destruct m; reflexivity|]);
      (split; [intros; lia | reflexivity]).
  - destruct remaining as [|remaining]; [lia|]. cbn [parse_type_tag_loop].
    pose proof (Hnn idx ltac:(lia)) as Hc. apply Ascii.eqb_neq in Hc. rewrite Hc.
    msimpl.
    replace (MAX_OSC_TYPE_TAG_STRING_LENGTH <? S (oscTypeTagStringLength m)) with false
      by (symmetry; apply Nat.ltb_ge; lia).
    destruct (IH (S idx)
                (set_type_tags m (store (oscTypeTagString m) (oscTypeTagStringLength m)
                                        (source idx)) (S (oscTypeTagStringLength m)))
                remaining) as (tags & E & H1 & H2);
      try (msimpl; lia); auto.
    { intros j Hj. apply Hnn. lia. }
    exists tags. split; [exact E|]. msimpl. split.
    + intros j Hj. destruct (Nat.eq_dec (A + j) idx) as [He|Hne].
      * rewrite H2 by lia. replace j with (oscTypeTagStringLength m) by lia.
        rewrite store_eq. f_equal. lia.
      * apply H1. lia.
    + intros j Hj. rewrite H2 by lia. apply store_neq. lia.
Qed.

Lemma parse_align_loop_ok room : forall idx,
  terminated idx - idx <= room ->
  parse_align_loop room idx = (terminated idx, 0%Z).
Proof.
  unfold terminated.
  induction room as [|room IH]; intros idx H; [lia|]. cbn [parse_align_loop].
  destruct (Nat.eqb_spec (S idx mod 4) 0) as [E|E]; cbn [negb].
  - f_equal. lia.
  - rewrite IH by lia. f_equal. lia.
Qed.

Lemma parse_serialized (m m1 : OscMessage) (destination d : Mem) cap n :
  OscMessageToCharArray m destination cap = (d, n, 0%Z) ->
  oscAddressPatternLength m <= MAX_OSC_ADDRESS_PATTERN_LENGTH ->
  (forall j, j < oscAddressPatternLength m -> oscAddressPattern m j <> "000"%char) ->
  oscAddressPattern m (oscAddressPatternLength m) = "000"%char ->
  oscAddressPattern m (oscAddressPatternLength m - 1) <> ","%char ->
  1 <= oscTypeTagStringLength m <= MAX_OSC_TYPE_TAG_STRING_LENGTH ->
  oscTypeTagString m 0 = ","%char ->
  (forall j, j < oscTypeTagStringLength m -> oscTypeTagString m j <> "000"%char) ->
  oscTypeTagString m (oscTypeTagStringLength m) = "000"%char ->
  argumentsSize m mod 4 = 0 ->
  MIN_OSC_MESSAGE_SIZE <= 8 ->
  n <= MAX_OSC_MESSAGE_SIZE ->
  oscTypeTagStringIndex m = 1 -> argumentsIndex m = 0 ->
  exists m',
    OscMessageInitialiseFromCharArray m1 d n = (m', 0%Z) /\
    message_view m' = message_view m.
Proof.
  intros Hser Hamax Hann Hanull Hcomma Ht Ht0 Htnn Htnull Hal Hmin Hmax Hti Hai.
  apply OscMessageToCharArray_ok in Hser. cbv zeta in Hser.
  set (a := oscAddressPatternLength m) in *. set (t := oscTypeTagStringLength m) in *.
  set (A := terminated a) in *. set (T := terminated (A + t)) in *.
  destruct Hser as (Hn & _ & Ha0 & Hslash & F1 & F2 & F3 & F4 & F5).
  assert (HaA : a < A /\ A mod 4 = 0) by (unfold A, terminated; lia).
  assert (HtT : A + t < T /\ T mod 4 = 0) by (unfold T, terminated; lia).
  unfold OscMessageInitialiseFromCharArray.
  replace (n mod 4 =? 0) with true by (symmetry; apply Nat.eqb_eq; lia).
  replace (n <? MIN_OSC_MESSAGE_SIZE) with false by (symmetry; apply Nat.ltb_ge; lia).
  replace (MAX_OSC_MESSAGE_SIZE <? n) with false by (symmetry; apply Nat.ltb_ge; lia).
  rewrite (F1 0) by lia. rewrite Hslash. cbn [negb Ascii.eqb Bool.eqb OscContentsTypeMessage].
  cbv iota.
  set (mi := fst (OscMessageInitialise m1 [])).
  assert (Hmi : oscAddressPatternLength mi = 0 /\ oscTypeTagStringLength mi = 1 /\
                oscTypeTagString mi 0 = ","%char /\ argumentsSize mi = 0 /\
                oscTypeTagStringIndex mi = 1 /\ argumentsIndex mi = 0).
  { unfold mi. cbn. repeat split. }
  destruct Hmi as (Ma & Mt & Mt0 & Ms & Mti & Mai).
  (* address *)
  destruct (parse_address_loop_ok d n a a 0 mi (n - 1)) as (addr & E1 & Ad1 & _);
    try lia.
  { intros j Hj. rewrite F1 by lia. apply Hann. lia. }
  { rewrite F2 by lia. reflexivity. }
  rewrite E1. cbn [negb Z.eqb]. msimpl.
  (* comma *)
  rewrite (parse_comma_loop_ok d n A (A + 1 - a) a (n - (a + 1))); try lia.
  2:{ intros j Hj. destruct (Nat.eq_dec j (a - 1)) as [->|Hne].
      - rewrite F1 by lia. exact Hcomma.
      - rewrite F2 by lia. discriminate. }
  2:{ rewrite <- (Nat.add_0_r A), F3 by lia. exact Ht0. }
  cbn [negb Z.eqb].
  (* type tags *)
  match goal with
  | |- context [parse_type_tag_loop ?r d ?i ?mm] =>
      destruct (parse_type_tag_loop_ok d n A t (t - 1) i mm r)
        as (tags & E2 & Tg1 & Tg2); try (msimpl; lia)
  end.
  { intros j Hj. replace j with (A + (j - A)) by lia. rewrite F3 by lia. apply Htnn. lia. }
  { rewrite F4 by lia. reflexivity. }
  rewrite E2. cbn [negb Z.eqb]. msimpl.
  (* alignment *)
  rewrite parse_align_loop_ok by (fold T; lia). fold T. cbn [negb Z.eqb].
  eexists. split; [reflexivity|].
  unfold message_view. msimpl. rewrite Ms, Mti, Mai, Hti, Hai. fold a. fold t.
  replace (0 + (n - T)) with (argumentsSize m) by lia.
  f_equal. f_equal. f_equal. f_equal. f_equal. f_equal. f_equal.
  - apply bytes_ext. intros j Hj. destruct (Nat.eq_dec j a) as [->|Hne].
    + rewrite store_eq. now rewrite Hanull.
    + rewrite store_neq by exact Hne. rewrite Ad1 by lia. apply F1. lia.
  - apply bytes_ext. intros j Hj. destruct (Nat.eq_dec j t) as [->|Hne].
    + rewrite store_eq. now rewrite Htnull.
    + rewrite store_neq by exact Hne. destruct j as [|j].
      * rewrite Tg2 by lia. msimpl. rewrite Mt0. now rewrite Ht0.
      * rewrite Tg1 by lia. apply F3. lia.
  - apply bytes_ext. intros j Hj.
    rewrite <- (Nat.add_0_l j) at 1. rewrite copy_bytes_in by lia. apply F5. exact Hj.
Qed.

(** ** Messages: reading the arguments *)

Lemma int32_of_big_endian v :
  (- 2 ^ 31 <= v < 2 ^ 31)%Z ->
  int32_of_bytes (byteN 3 v) (byteN 2 v) (byteN 1 v) (byteN 0 v) = v.
Proof.
  intros H. unfold int32_of_bytes. fold (big_endian32 v). rewrite uint32_of_bytes.
  change (2 ^ 31)%Z with 2147483648%Z in *. change (2 ^ 32)%Z with 4294967296%Z.
  destruct (Z.ltb_spec (v mod 4294967296) 2147483648); lia.
Qed.

Lemma get_string_loop_below (args : Mem) room : forall ai (dd : Mem) dj d2 x rc,
  get_string_loop room args ai dd dj = (d2, x, rc) ->
  forall j, j < dj -> d2 j = dd j.
Proof.
  induction room as [|room IH]; intros ai dd dj d2 x rc H j Hj; cbn [get_string_loop] in H.
  - inversion H; subst. apply store_neq. lia.
  - destruct (args ai =? "000")%char.
    + inversion H; subst. apply store_neq. lia.
    + rewrite (IH _ _ _ _ _ _ H) by lia. apply store_neq. lia.
Qed.

Lemma get_string_loop_ok (args : Mem) (string : list ascii) : forall room ai (dest : Mem) di,
  Forall (fun c => c <> "000"%char) string ->
  (forall j, j < length string -> args (ai + j) = nth j string "000"%char) ->
  args (ai + length string) = "000"%char ->
  length string < room ->
  exists dest',
    get_string_loop room args ai dest di = (dest', ai + length string + 1, 0%Z) /\
    (forall j, j < length string -> dest' (di + j) = nth j string "000"%char) /\
    dest' (di + length string) = "000"%char.
Proof.
  induction string as [|c string IH]; intros room ai dest di Hf Hs Hz Hr;
    (destruct room as [|room]; [simpl in Hr; lia|]); cbn [get_string_loop].
  - simpl in Hz. rewrite Nat.add_0_r in Hz. rewrite Hz. cbn [Ascii.eqb Bool.eqb].
    eexists. split; [f_equal; f_equal; simpl; lia|]. split.
    + simpl. intros j Hj. lia.
    + simpl. rewrite Nat.add_0_r. apply store_eq.
  - inversion Hf as [|? ? Hc Hf']; subst.
    pose proof (Hs 0 ltac:(simpl; lia)) as H0. rewrite Nat.add_0_r in H0. simpl in H0.
    rewrite H0. apply Ascii.eqb_neq in Hc. rewrite Hc.
    destruct (IH room (S ai) (store dest di c) (S di) Hf') as (dest' & E & D1 & D2).
    + intros j Hj. replace (S ai + j) with (ai + S j) by lia. apply (Hs (S j)). simpl. lia.
    + replace (S ai + length string) with (ai + length (c :: string)) by (simpl; lia).
      exact Hz.
    + simpl in Hr. lia.
    + exists dest'. split; [rewrite E; f_equal; f_equal; simpl; lia|]. split.
      * intros [|j] Hj.
        -- rewrite Nat.add_0_r. simpl.
           rewrite (get_string_loop_below _ _ _ _ _ _ _ _ E) by lia. apply store_eq.
        -- replace (di + S j) with (S di + j) by lia. apply D1. simpl in Hj. lia.
      * replace (di + length (c :: string)) with (S di + length string) by (simpl; lia).
        exact D2.
Qed.

Lemma c_string_ok (string : list ascii) : forall n (dest : Mem) i,
  Forall (fun c => c <> "000"%char) string ->
  (forall j, j < length string -> dest (i + j) = nth j string "000"%char) ->
  dest (i + length string) = "000"%char ->
  length string < n ->
  c_string n dest i = string.
Proof.
  induction string as [|c string IH]; intros n dest i Hf Hs Hz Hn;
    (destruct n as [|n]; [simpl in Hn; lia|]); cbn [c_string].
  - simpl in Hz. rewrite Nat.add_0_r in Hz. now rewrite Hz.
  - inversion Hf as [|? ? Hc Hf']; subst.
    pose proof (Hs 0 ltac:(simpl; lia)) as H0. rewrite Nat.add_0_r in H0. simpl in H0.
    rewrite H0. apply Ascii.eqb_neq in Hc. rewrite Hc. f_equal.
    apply IH; [exact Hf' | | | simpl in Hn; lia].
    + intros j Hj. replace (S i + j) with (i + S j) by lia. apply (Hs (S j)). simpl. lia.
    + replace (S i + length string) with (i + length (c :: string)) by (simpl; lia).
      exact Hz.
Qed.

Lemma get_align_loop_ok room : forall idx,
  (4 - idx mod 4) mod 4 <= room ->
  get_align_loop room idx = (idx + (4 - idx mod 4) mod 4, 0%Z).
Proof.
  induction room as [|room IH]; intros idx H; cbn [get_align_loop];
    destruct (Nat.eqb_spec (idx mod 4) 0) as [E|E]; try (f_equal; lia).
  rewrite IH by lia. f_equal. lia.
Qed.

Lemma get_argument32_ok (m : OscMessage) tag b3 b2 b1 b0 :
  oscTypeTagString m (oscTypeTagStringIndex m) = tag ->
  bytes (offset (arguments m) (argumentsIndex m)) 4 = [b3; b2; b1; b0] ->
  argumentsIndex m + 4 <= argumentsSize m ->
  get_argument32 m tag =
    (set_indexes m (S (oscTypeTagStringIndex m)) (argumentsIndex m + 4), 0%Z,
     Some (b3, b2, b1, b0)).
Proof.
  intros Htag Hw Hfit. unfold get_argument32. rewrite Htag, Ascii.eqb_refl. cbn [negb].
  replace (argumentsSize m <? argumentsIndex m + 4) with false
    by (symmetry; apply Nat.ltb_ge; lia).
  unfold bytes, offset in Hw. simpl in Hw. rewrite Nat.add_0_r in Hw.
  injection Hw as -> -> -> ->. reflexivity.
Qed.

Lemma get_argument64_ok (m : OscMessage) tag v :
  oscTypeTagString m (oscTypeTagStringIndex m) = tag ->
  bytes (offset (arguments m) (argumentsIndex m)) 8 = big_endian64 v ->
  argumentsIndex m + 8 <= argumentsSize m ->
  get_argument64 m tag =
    (set_indexes m (S (oscTypeTagStringIndex m)) (argumentsIndex m + 8), 0%Z,
     Some (v mod 2 ^ 64)%Z).
Proof.
  intros Htag Hw Hfit. unfold get_argument64. rewrite Htag, Ascii.eqb_refl. cbn [negb].
  replace (argumentsSize m <? argumentsIndex m + 8) with false
    by (symmetry; apply Nat.ltb_ge; lia).
  rewrite Hw, uint64_of_bytes. reflexivity.
Qed.

Lemma skip_tag_ok (m : OscMessage) (a : OscArgument) :
  oscTypeTagString m (oscTypeTagStringIndex m) = argument_tag a ->
  oscTypeTagStringIndex m <= oscTypeTagStringLength m ->
  skip_tag m (argument_tag a) a =
    (set_indexes m (S (oscTypeTagStringIndex m)) (argumentsIndex m), Some a).
Proof.
  intros Htag Hidx. unfold skip_tag, OscMessageGetArgumentType, OscMessageSkipArgument.
  replace (oscTypeTagStringLength m <? oscTypeTagStringIndex m) with false
    by (symmetry; apply Nat.ltb_ge; lia).
  rewrite Htag, Ascii.eqb_refl. reflexivity.
Qed.

Lemma GetArgumentType_at (m : OscMessage) :
  oscTypeTagStringIndex m <= oscTypeTagStringLength m ->
  OscMessageGetArgumentType m = oscTypeTagString m (oscTypeTagStringIndex m).
Proof.
  intros H. unfold OscMessageGetArgumentType.
  now replace (oscTypeTagStringLength m <? oscTypeTagStringIndex m) with false
    by (symmetry; apply Nat.ltb_ge; lia).
Qed.

Lemma OscMessageGetString_ok (m : OscMessage) (string : list ascii) (dest : Mem) cap :
  oscTypeTagString m (oscTypeTagStringIndex m) = OscTypeTagString \/
  oscTypeTagString m (oscTypeTagStringIndex m) = OscTypeTagAlternateString ->
  bytes (offset (arguments m) (argumentsIndex m))
        (length (string ++ nulls (4 - length string mod 4))) =
    string ++ nulls (4 - length string mod 4) ->
  argumentsIndex m + length (string ++ nulls (4 - length string mod 4)) <= argumentsSize m ->
  argumentsIndex m mod 4 = 0 ->
  Forall (fun c => c <> "000"%char) string ->
  4 <= cap -> length string < cap ->
  exists dest',
    OscMessageGetString m dest cap =
      (set_indexes m (S (oscTypeTagStringIndex m))
         (argumentsIndex m + length (string ++ nulls (4 - length string mod 4))),
       dest', 0%Z) /\
    c_string cap dest' 0 = string.
Proof.
  intros Htag Hw Hfit Hal Hf Hcap Hlen. unfold OscMessageGetString.
  assert (Et : negb (oscTypeTagString m (oscTypeTagStringIndex m) =? OscTypeTagString)%char &&
               negb (oscTypeTagString m (oscTypeTagStringIndex m) =?
                     OscTypeTagAlternateString)%char = false).
  { destruct Htag as [-> | ->]; reflexivity. }
  rewrite Et. rewrite length_app, length_nulls in Hfit.
  replace (argumentsSize m <? argumentsIndex m + 4) with false
    by (symmetry; apply Nat.ltb_ge; lia).
  replace (cap <? 4) with false by (symmetry; apply Nat.ltb_ge; lia).
  destruct (get_string_loop_ok (arguments m) string cap (argumentsIndex m) dest 0 Hf)
    as (dest' & E & D1 & D2).
  - intros j Hj.
    rewrite (bytes_offset_nth _ _ _ j Hw) by (rewrite length_app; lia).
    now rewrite app_nth1.
  - rewrite (bytes_offset_nth _ _ _ (length string) Hw)
      by (rewrite length_app, length_nulls; lia).
    now rewrite nth_app_nulls.
  - exact Hlen.
  - rewrite E. cbn [negb Z.eqb]. rewrite get_align_loop_ok by lia. cbn [negb Z.eqb].
    exists dest'. split.
    + rewrite length_app, length_nulls. f_equal. f_equal. f_equal. lia.
    + apply c_string_ok; [exact Hf | exact D1 | exact D2 | exact Hlen].
Qed.

Lemma OscMessageGetBlob_ok (m : OscMessage) (l : list ascii) (dest : Mem) cap :
  let w := big_endian32 (Z.of_nat (length l)) ++ l ++ nulls ((4 - length l mod 4) mod 4) in
  oscTypeTagString m (oscTypeTagStringIndex m) = OscTypeTagBlob ->
  bytes (offset (arguments m) (argumentsIndex m)) (length w) = w ->
  argumentsIndex m + length w <= argumentsSize m ->
  argumentsIndex m mod 4 = 0 ->
  (Z.of_nat (length l) < 2 ^ 31)%Z ->
  length l <= cap ->
  exists dest',
    OscMessageGetBlob m dest cap =
      (set_indexes m (S (oscTypeTagStringIndex m)) (argumentsIndex m + length w),
       Some (Z.of_nat (length l)), dest', 0%Z) /\
    bytes dest' (length l) = l.
Proof.
  intros w Htag Hw Hfit Hal Hrange Hcap. unfold OscMessageGetBlob.
  rewrite Htag, Ascii.eqb_refl. cbn [negb].
  assert (Hlw : length w = 4 + length l + (4 - length l mod 4) mod 4).
  { unfold w. rewrite !length_app, length_nulls. simpl. lia. }
  rewrite Hlw in Hfit.
  replace (argumentsSize m <? argumentsIndex m + 4) with false
    by (symmetry; apply Nat.ltb_ge; lia).
  cbv zeta.
  assert (Hat : forall j, j < length w -> arguments m (argumentsIndex m + j) =
                                          nth j w "000"%char).
  { intros j Hj. now apply bytes_offset_nth. }
  pose proof (Hat 0 ltac:(lia)) as H0. pose proof (Hat 1 ltac:(lia)) as H1.
  pose proof (Hat 2 ltac:(lia)) as H2. pose proof (Hat 3 ltac:(lia)) as H3.
  rewrite Nat.add_0_r in H0. unfold w in H0, H1, H2, H3.
  cbn [big_endian32 app nth] in H0, H1, H2, H3.
  rewrite H0, H1, H2, H3. rewrite int32_of_big_endian by lia.
  unfold gt_size_t.
  replace (Z.of_nat (argumentsIndex m + 4) + Z.of_nat (length l) <? 0)%Z with false
    by (symmetry; apply Z.ltb_ge; lia).
  replace (Z.of_nat (argumentsSize m) <?
           Z.of_nat (argumentsIndex m + 4) + Z.of_nat (length l))%Z with false
    by (symmetry; apply Z.ltb_ge; lia).
  replace (Z.of_nat (length l) <? 0)%Z with false by (symmetry; apply Z.ltb_ge; lia).
  replace (Z.of_nat cap <? Z.of_nat (length l))%Z with false
    by (symmetry; apply Z.ltb_ge; lia).
  cbn [orb]. rewrite Nat2Z.id. rewrite get_align_loop_ok by lia. cbn [negb Z.eqb].
  eexists. split.
  - rewrite Hlw. f_equal. f_equal. f_equal. f_equal. lia.
  - apply nth_ext with (d := "000"%char) (d' := "000"%char); [apply bytes_length|].
    intros j Hj. rewrite bytes_length in Hj. rewrite bytes_nth by exact Hj.
    rewrite <- (Nat.add_0_l j) at 1. rewrite copy_bytes_in by exact Hj.
    replace (argumentsIndex m + 4 + j) with (argumentsIndex m + (4 + j)) by lia.
    rewrite Hat by lia. unfold w. cbn [big_endian32 app nth Nat.add].
    now rewrite app_nth1.
Qed.

(** The positional read of an argument that sits at the two read indexes. *)
Lemma read_argument_ok (m : OscMessage) (a : OscArgument) (dest : Mem) cap :
  oscTypeTagString m (oscTypeTagStringIndex m) = argument_tag a ->
  oscTypeTagStringIndex m <= oscTypeTagStringLength m ->
  bytes (offset (arguments m) (argumentsIndex m)) (length (argument_bytes a))
    = argument_bytes a ->
  argumentsIndex m + length (argument_bytes a) <= argumentsSize m ->
  argumentsIndex m mod 4 = 0 ->
  argument_ok a ->
  4 <= cap -> length (argument_bytes a) <= cap ->
  read_argument dest cap m a =
    (set_indexes m (S (oscTypeTagStringIndex m))
       (argumentsIndex m + length (argument_bytes a)), Some a).
Proof.
  intros Htag Hidx Hw Hfit Hal Hok Hcap Hwcap.
  destruct a; cbn [read_argument argument_tag argument_bytes argument_ok] in *.
  - unfold OscMessageGetInt32.
    rewrite (get_argument32_ok m _ _ _ _ _ Htag Hw) by exact Hfit.
    cbn [option_map]. now rewrite int32_of_big_endian.
  - unfold OscMessageGetFloat32.
    rewrite (get_argument32_ok m _ _ _ _ _ Htag Hw) by exact Hfit.
    cbn [option_map]. fold (big_endian32 float32). rewrite uint32_of_bytes.
    now rewrite Z.mod_small.
  - rewrite GetArgumentType_at, Htag, Ascii.eqb_refl by exact Hidx.
    destruct (OscMessageGetString_ok m string dest cap (or_introl Htag) Hw Hfit Hal Hok Hcap)
      as (dest' & E & Hs).
    { rewrite length_app, length_nulls in Hwcap. lia. }
    rewrite E. cbn [Z.eqb]. now rewrite Hs.
  - destruct (OscMessageGetBlob_ok m blob dest cap Htag Hw Hfit Hal Hok)
      as (dest' & E & Hb).
    { rewrite !length_app in Hwcap. simpl in Hwcap. lia. }
    rewrite E. cbn [option_map]. now rewrite Nat2Z.id, Hb.
  - unfold OscMessageGetInt64.
    rewrite (get_argument64_ok m _ _ Htag Hw) by exact Hfit. cbn [option_map].
    f_equal. f_equal. f_equal.
    change (2 ^ 63)%Z with 9223372036854775808%Z in *.
    change (2 ^ 64)%Z with 18446744073709551616%Z.
    destruct (Z.ltb_spec (int64 mod 18446744073709551616) 9223372036854775808); lia.
  - unfold OscMessageGetTimeTag.
    rewrite (get_argument64_ok m _ _ Htag Hw) by exact Hfit. cbn [option_map].
    now rewrite Z.mod_small.
  - unfold OscMessageGetDouble.
    rewrite (get_argument64_ok m _ _ Htag Hw) by exact Hfit. cbn [option_map].
    now rewrite Z.mod_small.
  - rewrite GetArgumentType_at, Htag, Ascii.eqb_refl by exact Hidx.
    destruct (OscMessageGetString_ok m string dest cap (or_intror Htag) Hw Hfit Hal Hok Hcap)
      as (dest' & E & Hs).
    { rewrite length_app, length_nulls in Hwcap. lia. }
    rewrite E. cbn [Z.eqb]. now rewrite Hs.
  - unfold OscMessageGetCharacter. rewrite Htag, Ascii.eqb_refl. cbn [negb].
    simpl length in *.
    replace (argumentsSize m <? argumentsIndex m + 4) with false
      by (symmetry; apply Nat.ltb_ge; lia).
    cbn [option_map].
    rewrite (bytes_offset_nth (arguments m) (argumentsIndex m)
               ["000"; "000"; "000"; asciiChar]%char 3 Hw) by (simpl; lia). simpl nth.
    f_equal. f_equal. lia.
  - unfold OscMessageGetRgbaColour.
    rewrite (get_argument32_ok m _ _ _ _ _ Htag Hw) by exact Hfit.
    cbn [option_map]. now destruct rgbaColour.
  - unfold OscMessageGetMidiMessage.
    rewrite (get_argument32_ok m _ _ _ _ _ Htag Hw) by exact Hfit.
    cbn [option_map]. now destruct midiMessage.
  - rewrite GetArgumentType_at, Htag by exact Hidx. simpl length. rewrite Nat.add_0_r.
    destruct boolean; cbn [Ascii.eqb Bool.eqb OscTypeTagTrue OscTypeTagFalse].
    + now apply (skip_tag_ok m (ArgBool true)).
    + now apply (skip_tag_ok m (ArgBool false)).
  - simpl length. rewrite Nat.add_0_r. now apply (skip_tag_ok m ArgNil).
  - simpl length. rewrite Nat.add_0_r. now apply (skip_tag_ok m ArgInfinitum).
  - simpl length. rewrite Nat.add_0_r. now apply (skip_tag_ok m ArgBeginArray).
  - simpl length. rewrite Nat.add_0_r. now apply (skip_tag_ok m ArgEndArray).
Qed.

Lemma argument_tag_not_null (a : OscArgument) : argument_tag a <> "000"%char.
Proof. destruct a; try discriminate. destruct boolean; discriminate. Qed.

Lemma read_arguments_ok (dest : Mem) cap post : forall (pre : list OscArgument) (m : OscMessage),
  holds_arguments m (pre ++ post) ->
  oscTypeTagStringIndex m = S (length pre) ->
  argumentsIndex m = length (flat_map argument_bytes pre) ->
  Forall argument_ok post ->
  4 <= cap -> argumentsSize m <= cap ->
  read_arguments dest cap m post = map Some post.
Proof.
  induction post as [|a post IH]; intros pre m Hh Hti Hai Hok Hcap Hsize; [reflexivity|].
  inversion Hok as [|? ? Ha Hok']; subst.
  pose proof Hh as (H1 & H2 & H3 & H4 & H5).
  assert (Hlen : length (pre ++ a :: post) = length pre + S (length post))
    by (rewrite length_app; reflexivity).
  assert (Hflat : flat_map argument_bytes (pre ++ a :: post) =
                  flat_map argument_bytes pre ++ argument_bytes a ++
                  flat_map argument_bytes post)
    by (rewrite flat_map_app; reflexivity).
  assert (Hsz : argumentsSize m = length (flat_map argument_bytes pre) +
                (length (argument_bytes a) + length (flat_map argument_bytes post))).
  { rewrite H4, Hflat, !length_app. reflexivity. }
  cbn [read_arguments map].
  rewrite (read_argument_ok m a dest cap).
  - f_equal. apply (IH (pre ++ [a])).
    + rewrite <- app_assoc. exact Hh.
    + msimpl. rewrite Hti, length_app. simpl. lia.
    + msimpl. rewrite Hai, flat_map_app, length_app. simpl. now rewrite app_nil_r.
    + exact Hok'.
    + exact Hcap.
    + exact Hsize.
  - rewrite Hti.
    rewrite <- (bytes_nth (oscTypeTagString m) (S (length (pre ++ a :: post)))
                  (S (length pre)) "000"%char) by lia.
    rewrite H2. cbn [nth]. rewrite map_app, app_nth2 by (rewrite length_map; lia).
    rewrite length_map, Nat.sub_diag. reflexivity.
  - rewrite Hti, H1. lia.
  - rewrite Hai. rewrite H4, Hflat in H5.
    apply bytes_app_inv in H5. destruct H5 as [_ H5].
    apply bytes_app_inv in H5. destruct H5 as [H5 _]. exact H5.
  - rewrite Hai. lia.
  - rewrite Hai. apply flat_map_argument_bytes_aligned.
  - exact Ha.
  - exact Hcap.
  - lia.
Qed.

Lemma holds_arguments_view (m m' : OscMessage) (l : list OscArgument) :
  message_view m' = message_view m -> holds_arguments m l -> holds_arguments m' l.
Proof.
  unfold message_view, holds_arguments.
  intros Hv (H1 & H2 & H3 & H4 & H5).
  injection Hv as Va Vt Vs Vla Vlt Vls Vti Vai.
  rewrite Vlt, Vls in *. rewrite H1 in Vt. rewrite Vs.
  pose proof (bytes_eq_inv _ _ _ Vt) as Hp.
  split; [exact H1|]. split; [|split; [|split; [exact H4 | exact H5]]].
  - rewrite <- H2. apply bytes_ext. intros j Hj. apply Hp. lia.
  - rewrite Hp by lia. exact H3.
Qed.

Lemma nth_pred_last (l : list ascii) d : l <> [] -> nth (length l - 1) l d = last l d.
Proof.
  induction l as [|x l IH]; intros H; [congruence|].
  destruct l as [|y l]; [reflexivity|].
  specialize (IH ltac:(discriminate)).
  change (length (y :: l) - 1) with (length l - 0) in IH. rewrite Nat.sub_0_r in IH.
  change (length (x :: y :: l) - 1) with (S (length l)).
  change (nth (S (length l)) (x :: y :: l) d) with (nth (length l) (y :: l) d).
  rewrite IH. reflexivity.
Qed.

Lemma message_round_trip_eq (m0 m1 m : OscMessage) (address : list ascii)
    (l : list OscArgument) (destination d : Mem) (destinationSize n : nat)
    (scratch : Mem) (scratchSize : nat) :
  build_message m0 address l = (m, 0%Z) ->
  OscMessageToCharArray m destination destinationSize = (d, n, 0%Z) ->
  Forall (fun c => c <> "000"%char) address ->
  last address "/"%char <> ","%char ->
  Forall argument_ok l ->
  MIN_OSC_MESSAGE_SIZE <= 8 ->
  n <= MAX_OSC_MESSAGE_SIZE ->
  MAX_NUMBER_OF_ARGUMENTS < MAX_OSC_TYPE_TAG_STRING_LENGTH ->
  4 <= scratchSize -> argumentsSize m <= scratchSize ->
  exists m',
    OscMessageInitialiseFromCharArray m1 d n = (m', 0%Z) /\
    message_view m' = message_view m /\
    read_arguments scratch scratchSize m' l = map Some l.
Proof.
  intros Hb Hser Hnn Hlast Hok Hmin Hmax Htt Hcap Hsize.
  unfold build_message in Hb.
  destruct (OscMessageInitialise m0 address) as [mi rc] eqn:EI.
  destruct (Z.eqb_spec rc 0) as [->|Hrc]; [|inversion Hb; congruence].
  apply OscMessageInitialise_ok in EI; [|exact Hnn].
  destruct EI as (I1 & I2 & I3 & I4 & I5 & I6 & I7).
  destruct (add_arguments_ok l [] mi m Hb Hok I5) as (K1 & K2 & K3 & K4 & K5 & K6).
  cbn [app] in K1, K2.
  pose proof K1 as (H1 & H2 & H3 & H4 & H5).
  assert (Haddr : forall j, j < length address ->
                    oscAddressPattern m j = nth j address "000"%char).
  { intros j Hj. rewrite K3.
    rewrite <- (bytes_nth (oscAddressPattern mi) (length address) j "000"%char Hj).
    now rewrite I3. }
  assert (Htag : forall j, j < S (length l) ->
                   oscTypeTagString m j = nth j (","%char :: map argument_tag l) "000"%char).
  { intros j Hj.
    rewrite <- (bytes_nth (oscTypeTagString m) (S (length l)) j "000"%char Hj).
    now rewrite H2. }
  destruct (parse_serialized m m1 destination d destinationSize n Hser)
    as (m' & Hp & Hv).
  - rewrite K4, I1. exact I2.
  - rewrite K4, I1. intros j Hj. rewrite Haddr by exact Hj.
    apply Forall_nth; [exact Hnn | exact Hj].
  - rewrite K4, I1, K3. exact I4.
  - rewrite K4, I1. destruct address as [|c address].
    + simpl. rewrite K3. simpl in I4. rewrite I4. discriminate.
    + rewrite Haddr by (simpl; lia). rewrite nth_pred_last by discriminate.
      intros E. apply Hlast. rewrite <- E. clear.
      generalize c. induction address as [|x address IH]; intros c0; [reflexivity|].
      cbn [last]. apply IH.
  - rewrite H1. destruct l as [|a l]; [cbn [length]; lia|].
    specialize (K2 ltac:(discriminate)). lia.
  - rewrite Htag by lia. reflexivity.
  - rewrite H1. intros j Hj. rewrite Htag by exact Hj.
    assert (Hall : Forall (fun c => c <> "000"%char) (","%char :: map argument_tag l)).
    { constructor; [discriminate|]. apply Forall_forall. intros x Hx.
      apply in_map_iff in Hx. destruct Hx as (a & <- & _). apply argument_tag_not_null. }
    apply Forall_nth; [exact Hall | simpl; rewrite length_map; lia].
  - rewrite H1. exact H3.
  - rewrite H4. apply flat_map_argument_bytes_aligned.
  - exact Hmin.
  - exact Hmax.
  - rewrite K5. exact I6.
  - rewrite K6. exact I7.
  - exists m'. split; [exact Hp|]. split; [exact Hv|].
    pose proof (holds_arguments_view m m' l Hv K1) as Hh.
    unfold message_view in Hv. injection Hv as _ _ _ _ _ Vs Vti Vai.
    apply (read_arguments_ok scratch scratchSize l [] m').
    + exact Hh.
    + rewrite Vti, K5. exact I6.
    + rewrite Vai, K6. exact I7.
    + exact Hok.
    + exact Hcap.
    + rewrite Vs. exact Hsize.
Qed.

(** C1, amended: for every message built by [OscMessageInitialise] with an
    address that does not end with a comma, followed by [OscMessageAdd...]
    calls that all return 0, whose serialization succeeds within
    [MAX_OSC_MESSAGE_SIZE], parsing the serialized bytes returns 0 and yields
    a message equal to the one built (address pattern, type tag string,
    argument bytes, the three sizes and the two read indexes), and the
    positional reads on the parsed message, with the reader of each argument
    kind and with [OscMessageGetArgumentType] and [OscMessageSkipArgument]
    for the tags that have no reader, return the appended arguments in the
    same order with the same values. *)
Theorem message_round_trip (m0 m1 : OscMessage) (address : list ascii)
    (l : list OscArgument) (destination : Mem) (destinationSize : nat)
    (scratch : Mem) (scratchSize : nat) :
  let m := fst (build_message m0 address l) in
  let r := OscMessageToCharArray m destination destinationSize in
  let n := snd (fst r) in
  snd (build_message m0 address l) = 0%Z ->
  snd r = 0%Z ->
  Forall (fun c => c <> "000"%char) address ->
  last address "/"%char <> ","%char ->
  Forall argument_ok l ->
  MIN_OSC_MESSAGE_SIZE <= 8 ->
  n <= MAX_OSC_MESSAGE_SIZE ->
  MAX_NUMBER_OF_ARGUMENTS < MAX_OSC_TYPE_TAG_STRING_LENGTH ->
  4 <= scratchSize -> argumentsSize m <= scratchSize ->
  exists m',
    OscMessageInitialiseFromCharArray m1 (fst (fst r)) n = (m', 0%Z) /\
    message_view m' = message_view m /\
    read_arguments scratch scratchSize m' l = map Some l.
Proof.
  intros m r n Hb Hr. subst n m.
  destruct (build_message m0 address l) as [m rcb] eqn:Eb.
  cbn [fst snd] in *. subst rcb.
  destruct r as [[d n] rc] eqn:Er. cbn [fst snd] in *. subst rc.
  now apply (message_round_trip_eq m0 m1 m address l destination d destinationSize n).
Qed.

End MessageProperties.

(** C5, at a string of 1400 characters, which the 1380 bytes of the
    arguments cannot hold. *)
Lemma OscMessageAdd_refusal_witness :
  let a := ArgString (repeat "a"%char 1400) in
  snd (OscMessageAdd (L := udp_limits) example_message a) = 1%Z /\
  arguments_view (fst (OscMessageAdd (L := udp_limits) example_message a))
    = arguments_view example_message.
Proof.
  intros a. apply (OscMessageAdd_refusal (L := udp_limits) example_message a).
  vm_compute. discriminate.
Defined.

(** C1 as stated fails.  The message [/a,] with the argument 1 is built and
    serialized without error and the serialization is parsed without error,
    but the parsed message is not the one built: its type tag string is the
    comma alone and its arguments hold eight bytes.  And in the message parsed
    from [/a] with the argument true, no [OscMessageGet...] function returns
    the argument: each of them fails. *)
Lemma message_round_trip_counterexample :
  (snd (build_message (L := udp_limits) blank_message ["/"; "a"; ","]%char [ArgInt32 1]) = 0%Z /\
   snd (OscMessageToCharArray comma_message zeros 1472) = 0%Z /\
   snd (reparsed comma_message) = 0%Z /\
   message_view (fst (reparsed comma_message)) <> message_view comma_message) /\
  (snd (build_message (L := udp_limits) blank_message ["/"; "a"]%char [ArgBool true]) = 0%Z /\
   snd (reparsed bool_message) = 0%Z /\
   message_view (fst (reparsed bool_message)) = message_view bool_message /\
   let m := fst (reparsed bool_message) in
   snd (fst (OscMessageGetInt32 m)) = 1%Z /\ snd (fst (OscMessageGetFloat32 m)) = 1%Z /\
   snd (OscMessageGetString m zeros 1472) = 1%Z /\ snd (OscMessageGetBlob m zeros 1472) = 1%Z /\
   snd (fst (OscMessageGetInt64 m)) = 1%Z /\ snd (fst (OscMessageGetTimeTag m)) = 1%Z /\
   snd (fst (OscMessageGetDouble m)) = 1%Z /\ snd (fst (OscMessageGetCharacter m)) = 1%Z /\
   snd (fst (OscMessageGetRgbaColour m)) = 1%Z /\
   snd (fst (OscMessageGetMidiMessage m)) = 1%Z).
Proof.
  split.
  - split; [reflexivity|]. split; [reflexivity|]. split; [reflexivity|].
    vm_compute. discriminate.
  - vm_compute. repeat split.
Qed.

(** C1 amended, at the message [/test] with eleven arguments. *)
Lemma message_round_trip_witness :
  let r := OscMessageToCharArray sample_message zeros 1472 in
  exists m',
    OscMessageInitialiseFromCharArray (L := udp_limits) blank_message
      (fst (fst r)) (snd (fst r)) = (m', 0%Z) /\
    message_view m' = message_view sample_message /\
    read_arguments zeros 1472 m' sample_arguments = map Some sample_arguments.
Proof.
  intros r.
  apply (message_round_trip (L := udp_limits) blank_message blank_message
           ["/"; "t"; "e"; "s"; "t"]%char sample_arguments zeros 1472 zeros 1472).
  - reflexivity.
  - reflexivity.
  - repeat constructor; discriminate.
  - discriminate.
  - unfold sample_arguments.
    repeat (apply Forall_cons; [cbn; try exact I; try lia;
                                try (repeat constructor; discriminate)|]).
    apply Forall_nil.
  - cbv. lia.
  - cbv. lia.
  - cbv. lia.
  - lia.
  - cbv. lia.
Defined.

(** * Further properties *)

(** ** OscSlip.c: the encoder *)

Section SlipEncoder.
Context {L : Limits}.

(** The loop of the encoder only moves forward and leaves the destination
    alone from its final index on. *)
Lemma encode_loop_above n : forall (contents : Mem) k (destination : Mem) e destinationSize d' e' rc,
  encode_loop n contents k destination e destinationSize = (d', e', rc) ->
  e <= e' /\ forall j, e' <= j -> d' j = destination j.
Proof.
  induction n as [|n IH]; intros contents k destination e destinationSize d' e' rc H;
    cbn [encode_loop] in H.
  - inversion H; subst. auto.
  - destruct (destinationSize <? e + 1); [inversion H; subst; auto|].
    destruct (contents k =? SLIP_END)%char; [|destruct (contents k =? SLIP_ESC)%char];
      apply IH in H; destruct H as [Hle Hj]; (split; [lia|]);
      intros j Hge; rewrite Hj by exact Hge; rewrite ?store_neq by lia; reflexivity.
Qed.

Lemma bytes_offset_S (m : Mem) k n :
  bytes (offset m k) (S n) = m k :: bytes (offset m (S k)) n.
Proof.
  change (S n) with (1 + n). rewrite bytes_add. cbn [bytes seq map app]. unfold offset at 1.
  rewrite Nat.add_0_r. f_equal. apply bytes_ext. intros i _. unfold offset. f_equal. lia.
Qed.

(** The loop of the encoder succeeds when the escaped bytes fit. *)
Lemma encode_loop_fits n : forall (contents : Mem) k (destination : Mem) e destinationSize,
  e + length (flat_map slip_escape (bytes (offset contents k) n)) <= destinationSize ->
  snd (encode_loop n contents k destination e destinationSize) = 0%Z.
Proof.
  induction n as [|n IH]; intros contents k destination e destinationSize H;
    cbn [encode_loop]; [reflexivity|].
  rewrite bytes_offset_S in H. cbn [flat_map] in H. rewrite length_app in H.
  unfold slip_escape at 1 in H.
  destruct (contents k =? SLIP_END)%char; [|destruct (contents k =? SLIP_ESC)%char];
    cbn [length] in H;
    (replace (destinationSize <? e + 1) with false by (symmetry; apply Nat.ltb_ge; lia));
    apply IH; lia.
Qed.

Lemma length_slip_escape c : 1 <= length (slip_escape c) <= 2.
Proof.
  unfold slip_escape.
  destruct (c =? SLIP_END)%char; [|destruct (c =? SLIP_ESC)%char]; cbn [length]; lia.
Qed.

Lemma length_slip_body l :
  length l <= length (flat_map slip_escape l) <= 2 * length l.
Proof.
  induction l as [|c l IH]; cbn [flat_map length]; [lia|].
  rewrite length_app. pose proof (length_slip_escape c). lia.
Qed.

(** X1: a successful [OscSlipEncodePacket] reports the length of the frame
    and leaves at the destination the escaped bytes of the packet followed by
    one END; the destination is untouched from the end of the frame on. *)
Theorem OscSlipEncodePacket_frame (p : OscPacket) (destination : Mem) (destinationSize : nat) :
  let r := OscSlipEncodePacket p destination destinationSize in
  snd r = 0%Z ->
  bytes (fst (fst r)) (snd (fst r)) = slip_encode (bytes (contents p) (size p)) /\
  forall j, snd (fst r) <= j -> fst (fst r) j = destination j.
Proof.
  intros r. subst r. unfold OscSlipEncodePacket.
  destruct (encode_loop (size p) (contents p) 0 destination 0 destinationSize)
    as [[d1 e1] rc] eqn:E.
  destruct (Z.eqb_spec rc 0) as [->|Hrc]; cbn [fst snd]; [intros _|discriminate].
  pose proof (encode_loop_above _ _ _ _ _ _ _ _ _ E) as [_ Habove].
  apply encode_loop_ok in E. destruct E as [_ E]. split.
  - rewrite bytes_push, E. reflexivity.
  - intros j Hj. rewrite store_neq by lia. apply Habove. lia.
Qed.

Lemma bytes_offset_0 (m : Mem) n : bytes (offset m 0) n = bytes m n.
Proof. apply bytes_ext. intros i _. reflexivity. Qed.

Lemma OscSlipEncodePacket_fits_eq (p : OscPacket) (destination : Mem) (destinationSize : nat) :
  length (flat_map slip_escape (bytes (contents p) (size p))) <= destinationSize ->
  exists d,
    OscSlipEncodePacket p destination destinationSize =
      (d, S (length (flat_map slip_escape (bytes (contents p) (size p)))), 0%Z).
Proof.
  intros H. unfold OscSlipEncodePacket.
  pose proof (encode_loop_fits (size p) (contents p) 0 destination 0 destinationSize) as Hfit.
  destruct (encode_loop (size p) (contents p) 0 destination 0 destinationSize)
    as [[d1 e1] rc] eqn:E.
  cbn [snd plus] in Hfit. rewrite bytes_offset_0 in Hfit. specialize (Hfit H). subst rc.
  apply encode_loop_ok in E. destruct E as [-> _]. rewrite bytes_offset_0.
  cbn [Z.eqb plus]. eexists. reflexivity.
Qed.

(** X2: [OscSlipEncodePacket] succeeds whenever the frame, END included,
    fits in the destination, and then reports the length of the frame. *)
Theorem OscSlipEncodePacket_fits (p : OscPacket) (destination : Mem) (destinationSize : nat) :
  length (slip_encode (bytes (contents p) (size p))) <= destinationSize ->
  let r := OscSlipEncodePacket p destination destinationSize in
  snd r = 0%Z /\
  snd (fst r) = length (slip_encode (bytes (contents p) (size p))).
Proof.
  intros H r. subst r. unfold slip_encode in *. rewrite length_app in *. cbn [length] in *.
  destruct (OscSlipEncodePacket_fits_eq p destination destinationSize ltac:(lia)) as [d ->].
  cbn [fst snd]. split; [reflexivity | lia].
Qed.

(** X3: a destination of twice the packet size plus one byte is always
    enough: the call succeeds, and the frame has at least one byte more than
    the packet and at most twice its size plus one. *)
Theorem OscSlipEncodePacket_worst_case (p : OscPacket) (destination : Mem)
    (destinationSize : nat) :
  2 * size p + 1 <= destinationSize ->
  let r := OscSlipEncodePacket p destination destinationSize in
  snd r = 0%Z /\ size p + 1 <= snd (fst r) <= 2 * size p + 1.
Proof.
  intros H r. subst r.
  pose proof (length_slip_body (bytes (contents p) (size p))) as Hl.
  rewrite bytes_length in Hl.
  destruct (OscSlipEncodePacket_fits_eq p destination destinationSize ltac:(lia)) as [d ->].
  cbn [fst snd]. split; [reflexivity | lia].
Qed.

(** X4: the encoding is transparent.  In the frame written by a successful
    [OscSlipEncodePacket] the byte END occurs at the last position and
    nowhere else, whatever bytes the packet holds. *)
Theorem OscSlipEncodePacket_transparent (p : OscPacket) (destination : Mem)
    (destinationSize : nat) :
  let r := OscSlipEncodePacket p destination destinationSize in
  snd r = 0%Z ->
  forall j, j < snd (fst r) -> (fst (fst r) j = SLIP_END <-> S j = snd (fst r)).
Proof.
  intros r. subst r.
  destruct (OscSlipEncodePacket p destination destinationSize) as [[d n] rc] eqn:E.
  cbn [fst snd]. intros -> j Hj.
  pose proof (OscSlipEncodePacket_ok _ _ _ _ _ E) as Hb.
  assert (Hn : n = length (slip_encode (bytes (contents p) (size p))))
    by (rewrite <- Hb; now rewrite bytes_length).
  rewrite <- (bytes_nth d n j "000"%char Hj), Hb.
  unfold slip_encode in *. rewrite length_app in Hn. cbn [length] in Hn.
  set (body := flat_map slip_escape (bytes (contents p) (size p))) in *.
  destruct (Nat.lt_ge_cases j (length body)) as [Hlt|Hge].
  - rewrite app_nth1 by exact Hlt. split; [|lia].
    intros He. exfalso. revert He. apply Forall_nth; [apply slip_body_no_end | exact Hlt].
  - rewrite app_nth2 by exact Hge. replace (j - length body) with 0 by lia.
    split; [lia | reflexivity].
Qed.

End SlipEncoder.

Lemma OscSlipEncodePacket_frame_witness :
  let p := mkOscPacket (mem_of ["192"; "219"; "001"]%char) 3 false in
  let r := OscSlipEncodePacket p zeros 100 in
  bytes (fst (fst r)) (snd (fst r)) = slip_encode (bytes (contents p) (size p)) /\
  forall j, snd (fst r) <= j -> fst (fst r) j = zeros j.
Proof.
  intros p r. apply (OscSlipEncodePacket_frame p zeros 100). reflexivity.
Defined.

Lemma OscSlipEncodePacket_fits_witness :
  let p := mkOscPacket (mem_of ["192"; "219"; "001"]%char) 3 false in
  let r := OscSlipEncodePacket p zeros 6 in
  snd r = 0%Z /\
  snd (fst r) = length (slip_encode (bytes (contents p) (size p))).
Proof.
  intros p r. apply (OscSlipEncodePacket_fits p zeros 6). cbv. lia.
Defined.

Lemma OscSlipEncodePacket_worst_case_witness :
  let p := mkOscPacket (mem_of ["192"; "219"; "001"]%char) 3 false in
  let r := OscSlipEncodePacket p zeros 7 in
  snd r = 0%Z /\ size p + 1 <= snd (fst r) <= 2 * size p + 1.
Proof.
  intros p r. apply (OscSlipEncodePacket_worst_case p zeros 7). cbv. lia.
Defined.

Lemma OscSlipEncodePacket_transparent_witness :
  let p := mkOscPacket (mem_of ["192"; "219"; "001"]%char) 3 false in
  let r := OscSlipEncodePacket p zeros 100 in
  snd r = 0%Z /\
  forall j, j < snd (fst r) -> (fst (fst r) j = SLIP_END <-> S j = snd (fst r)).
Proof.
  intros p r. split; [reflexivity|].
  apply (OscSlipEncodePacket_transparent p zeros 100). reflexivity.
Defined.

(** ** OscSlip.c: the decoder *)

Section SlipDecoder.
Context {L : Limits}.

(** One frame, fed to a decoder whose write index is 0 and whose handler is
    set: every call returns 0, the handler is called once, with the packet of
    the frame, and the decoder is ready for the next frame. *)
Lemma frame_decoded (d : OscSlipDecoder) (junk : OscPacket) (l : list ascii) :
  bufferIndex d = 0 -> processPacket d = true ->
  length (slip_encode l) <= OSC_SLIP_DECODER_BUFFER_SIZE ->
  length l <= MAX_OSC_PACKET_SIZE ->
  exists d' q,
    feed_bytes d (slip_encode l) junk = (d', repeat 0%Z (length (slip_encode l)), [q]) /\
    bufferIndex d' = 0 /\ processPacket d' = true /\
    bytes (contents q) (size q) = l.
Proof.
  intros Hi Hp Hn Hl. unfold slip_encode in *. rewrite length_app in *. cbn [length] in Hn |- *.
  rewrite feed_bytes_app.
  destruct (feed_bytes_body (flat_map slip_escape l) d junk) as (d1 & Hf & Hi1 & Hp1 & Hbuf).
  { apply slip_body_no_end. }
  { lia. }
  rewrite Hf. rewrite Hi in Hi1, Hbuf. cbn [plus bytes seq map app] in Hi1, Hbuf.
  cbn [feed_bytes]. unfold OscSlipDecoderProcessByte.
  rewrite Ascii.eqb_refl, Hp1, Hp. cbn [negb].
  destruct (decode_loop_ok l MAX_OSC_PACKET_SIZE
              (store (buffer d1) (bufferIndex d1) SLIP_END) 0 (OscPacketInitialise junk))
    as (q & Hq & Hs & Hc & _).
  { unfold slip_encode. rewrite length_app. cbn [length].
    rewrite bytes_offset_0, Nat.add_1_r, <- Hi1, bytes_push, Hbuf. reflexivity. }
  { cbn [OscPacketInitialise size plus]. exact Hl. }
  { exact Hl. }
  rewrite Hq. eexists. exists q. split; [rewrite repeat_app; reflexivity|].
  split; [reflexivity|]. split; [reflexivity|]. rewrite Hc. reflexivity.
Qed.

(** X5: a stream of frames.  A decoder whose write index is 0 and whose
    handler is set receives the frames of several packets one after the
    other: every call returns 0, the handler is called once for each packet,
    in order, with the bytes of that packet, and the write index is 0 again
    at the end. *)
Theorem slip_stream (d : OscSlipDecoder) (junk : OscPacket) (packets : list (list ascii)) :
  bufferIndex d = 0 -> processPacket d = true ->
  Forall (fun l => length (slip_encode l) <= OSC_SLIP_DECODER_BUFFER_SIZE /\
                   length l <= MAX_OSC_PACKET_SIZE) packets ->
  let r := feed_bytes d (flat_map slip_encode packets) junk in
  map (fun q => bytes (contents q) (size q)) (snd r) = packets /\
  Forall (fun rc => rc = 0%Z) (snd (fst r)) /\
  bufferIndex (fst (fst r)) = 0.
Proof.
  intros Hi Hp Hall. cbv zeta. revert d Hi Hp.
  induction Hall as [|l packets [Hn Hl] _ IH]; intros d Hi Hp.
  - cbn. auto.
  - cbn [flat_map]. rewrite feed_bytes_app.
    destruct (frame_decoded d junk l Hi Hp Hn Hl) as (d1 & q & -> & Hi1 & Hp1 & Hq).
    specialize (IH d1 Hi1 Hp1).
    destruct (feed_bytes d1 (flat_map slip_encode packets) junk) as [[d2 rcs] calls].
    cbn [fst snd] in *. destruct IH as (IH1 & IH2 & IH3).
    split; [|split; [|exact IH3]].
    + cbn [app map]. now rewrite Hq, IH1.
    + apply Forall_app. split; [|exact IH2].
      apply Forall_forall. intros x Hx. now apply repeat_spec in Hx.
Qed.



End SlipDecoder.

Lemma slip_stream_witness :
  let packets := [["192"; "219"; "001"]; []; ["002"]]%char in
  let r := feed_bytes (L := udp_limits) (set_processPacket (OscSlipDecoderInitialise blank_decoder))
             (flat_map slip_encode packets) blank_packet in
  map (fun q => bytes (contents q) (size q)) (snd r) = packets /\
  Forall (fun rc => rc = 0%Z) (snd (fst r)) /\
  bufferIndex (fst (fst r)) = 0.
Proof.
  intros packets.
  apply (slip_stream (L := udp_limits) (set_processPacket (OscSlipDecoderInitialise blank_decoder))
           blank_packet packets).
  - reflexivity.
  - reflexivity.
  - repeat constructor; cbv; lia.
Defined.


(** ** OscMessage.c: serialization *)

Ltac fsimpl :=
  cbn [oscAddressPattern oscTypeTagString arguments oscAddressPatternLength
       oscTypeTagStringLength argumentsSize oscTypeTagStringIndex argumentsIndex
       push_tag push_argument set_arguments set_address set_type_tags set_indexes
       fst snd] in *.

Section MessageSerialization.
Context {L : Limits}.

Lemma TerminateOscString_fits (s : Mem) size max :
  terminated size <= max -> snd (TerminateOscString s size max) = 0%Z.
Proof.
  intros H. destruct (TerminateOscString s size max) as [[s' size'] rc] eqn:E.
  apply TerminateOscString_ok in E. cbn [snd].
  destruct E as [_ [(-> & _)|(-> & Hlt)]]; [reflexivity | lia].
Qed.

Lemma OscMessageGetSize_terminated (m : OscMessage) :
  OscMessageGetSize m =
  terminated (terminated (oscAddressPatternLength m) + oscTypeTagStringLength m)
  + argumentsSize m.
Proof.
  unfold OscMessageGetSize. cbv zeta. rewrite Nat.add_0_l, round_up_terminated.
  rewrite (Nat.add_assoc _ (oscTypeTagStringLength m) 1), round_up_terminated.
  reflexivity.
Qed.

(** A successful [OscMessageToCharArray] leaves the destination alone from
    the end of the message on. *)
Lemma OscMessageToCharArray_above (m : OscMessage) (destination : Mem) destinationSize d n :
  OscMessageToCharArray m destination destinationSize = (d, n, 0%Z) ->
  forall j, n <= j -> d j = destination j.
Proof.
  intros H. unfold OscMessageToCharArray in H.
  destruct (oscAddressPatternLength m =? 0); [discriminate|].
  destruct (negb (oscAddressPattern m 0 =? OscContentsTypeMessage)%char); [discriminate|].
  destruct (destinationSize <? oscAddressPatternLength m); [discriminate|].
  destruct (TerminateOscString _ _ destinationSize) as [[d1 n1] rc1] eqn:T1 in H.
  apply TerminateOscString_ok in T1. destruct T1 as [_ K1].
  destruct K1 as [(-> & Hn1 & _ & _ & Ha1) | (-> & _)]; [|discriminate].
  cbn [negb Z.eqb] in H.
  destruct (destinationSize <? n1 + oscTypeTagStringLength m); [discriminate|].
  destruct (TerminateOscString _ _ destinationSize) as [[d2 n2] rc2] eqn:T2 in H.
  apply TerminateOscString_ok in T2. destruct T2 as [_ K2].
  destruct K2 as [(-> & Hn2 & _ & _ & Ha2) | (-> & _)]; [|discriminate].
  cbn [negb Z.eqb] in H.
  destruct (destinationSize <? n2 + argumentsSize m); [discriminate|].
  inversion H; subst d n. clear H. unfold terminated in *.
  intros j Hj. rewrite copy_bytes_above by lia. rewrite Ha2 by lia.
  rewrite copy_bytes_above by lia. rewrite Ha1 by lia.
  rewrite copy_bytes_above by lia. reflexivity.
Qed.

Lemma bytes_nulls (m : Mem) a n :
  (forall j, a <= j < a + n -> m j = "000"%char) -> bytes (offset m a) n = nulls n.
Proof.
  intros H. apply nth_ext with (d := "000"%char) (d' := "000"%char).
  - now rewrite bytes_length, length_nulls.
  - intros j Hj. rewrite bytes_length in Hj. rewrite bytes_nth by exact Hj.
    rewrite nth_nulls. unfold offset. apply H. lia.
Qed.

Lemma length_message_wire (m : OscMessage) :
  length (message_wire m) = OscMessageGetSize m.
Proof.
  rewrite OscMessageGetSize_terminated. unfold message_wire, terminated.
  rewrite !length_app, !length_nulls, !bytes_length. lia.
Qed.

(** The layout of [OscMessageToCharArray_ok], as a list. *)
Lemma OscMessageToCharArray_wire_eq (m : OscMessage) (destination : Mem) destinationSize d n :
  OscMessageToCharArray m destination destinationSize = (d, n, 0%Z) ->
  bytes d n = message_wire m.
Proof.
  intros H. apply OscMessageToCharArray_ok in H. cbv zeta in H.
  set (a := oscAddressPatternLength m) in *. set (t := oscTypeTagStringLength m) in *.
  set (A := terminated a) in *. set (T := terminated (A + t)) in *.
  destruct H as (Hn & _ & _ & _ & F1 & F2 & F3 & F4 & F5).
  assert (HA : A = a + (4 - a mod 4)) by reflexivity.
  assert (HT : T = A + t + (4 - t mod 4)) by (unfold T, terminated; lia).
  unfold message_wire. fold a. fold t.
  rewrite Hn, HT, HA, !bytes_add. rewrite <- !app_assoc.
  f_equal; [apply bytes_ext; intros j Hj; now apply F1|].
  f_equal; [apply bytes_nulls; intros j Hj; apply F2; lia|].
  f_equal; [apply bytes_ext; intros j Hj; unfold offset; rewrite <- HA; now apply F3|].
  f_equal; [apply bytes_nulls; intros j Hj; apply F4; lia|].
  apply bytes_ext. intros j Hj. unfold offset. rewrite <- HA, <- HT. now apply F5.
Qed.

(** C10: for every message whose serialization succeeds, the size reported
    by [OscMessageGetSize] is the number of bytes written by
    [OscMessageToCharArray]: the call reports that size, the bytes of the
    destination below it are, whatever the destination held, the address
    pattern, the type tag string and the arguments of the message with their
    padding, and no byte at or above it is written. *)
Theorem OscMessageGetSize_exact (m : OscMessage) (destination : Mem) (destinationSize : nat) :
  let r := OscMessageToCharArray m destination destinationSize in
  snd r = 0%Z ->
  OscMessageGetSize m = snd (fst r) /\
  length (message_wire m) = OscMessageGetSize m /\
  bytes (fst (fst r)) (OscMessageGetSize m) = message_wire m /\
  (forall j, OscMessageGetSize m <= j -> fst (fst r) j = destination j).
Proof.
  intros r Hrc. destruct r as [[d n] rc] eqn:E. cbn [fst snd] in *. subst rc.
  assert (Hn : OscMessageGetSize m = n).
  { pose proof (OscMessageToCharArray_ok _ _ _ _ _ E) as H. cbv zeta in H.
    destruct H as [-> _]. apply OscMessageGetSize_terminated. }
  rewrite Hn. split; [reflexivity|].
  split; [rewrite <- Hn; apply length_message_wire|].
  split; [exact (OscMessageToCharArray_wire_eq _ _ _ _ _ E)|].
  exact (OscMessageToCharArray_above _ _ _ _ _ E).
Qed.

(** X7: the wire format of a message.  A successful [OscMessageToCharArray]
    writes the address pattern, one to four nulls up to a multiple of 4, the
    type tag string, one to four nulls up to a multiple of 4, and the
    argument bytes; it reports their total length and leaves the destination
    untouched from there on. *)
Theorem OscMessageToCharArray_wire (m : OscMessage) (destination : Mem)
    (destinationSize : nat) :
  let r := OscMessageToCharArray m destination destinationSize in
  snd r = 0%Z ->
  bytes (fst (fst r)) (snd (fst r)) = message_wire m /\
  snd (fst r) <= destinationSize /\
  forall j, snd (fst r) <= j -> fst (fst r) j = destination j.
Proof.
  intros r Hrc. destruct r as [[d n] rc] eqn:E. cbn [fst snd] in *. subst rc.
  split; [exact (OscMessageToCharArray_wire_eq _ _ _ _ _ E)|].
  split; [|exact (OscMessageToCharArray_above _ _ _ _ _ E)].
  apply OscMessageToCharArray_ok in E. cbv zeta in E. tauto.
Qed.

(** [OscMessageToCharArray] succeeds when the message has an address
    pattern that starts with ['/'] and its size fits in the destination. *)
Lemma OscMessageToCharArray_fits (m : OscMessage) (destination : Mem) (destinationSize : nat) :
  oscAddressPatternLength m <> 0 ->
  oscAddressPattern m 0 = OscContentsTypeMessage ->
  OscMessageGetSize m <= destinationSize ->
  snd (OscMessageToCharArray m destination destinationSize) = 0%Z.
Proof.
  intros Ha H0 Hsize. rewrite OscMessageGetSize_terminated in Hsize.
  unfold OscMessageToCharArray.
  apply Nat.eqb_neq in Ha. rewrite Ha, H0, Ascii.eqb_refl. cbn [negb].
  assert (HaA : oscAddressPatternLength m <= terminated (oscAddressPatternLength m))
    by (unfold terminated; lia).
  assert (HtT : terminated (oscAddressPatternLength m) + oscTypeTagStringLength m
                <= terminated (terminated (oscAddressPatternLength m)
                               + oscTypeTagStringLength m))
    by (unfold terminated; lia).
  replace (destinationSize <? oscAddressPatternLength m) with false
    by (symmetry; apply Nat.ltb_ge; lia).
  match goal with
  | |- context [TerminateOscString ?s ?n destinationSize] =>
      pose proof (TerminateOscString_fits s n destinationSize ltac:(lia)) as T1;
      destruct (TerminateOscString s n destinationSize) as [[d1 n1] rc1] eqn:E1
  end.
  cbn [snd] in T1. subst rc1. apply TerminateOscString_ok in E1.
  destruct E1 as [_ [(_ & -> & _)|(Hx & _)]]; [|discriminate]. cbn [negb Z.eqb].
  replace (destinationSize <? terminated (oscAddressPatternLength m)
                              + oscTypeTagStringLength m) with false
    by (symmetry; apply Nat.ltb_ge; lia).
  match goal with
  | |- context [TerminateOscString ?s ?n destinationSize] =>
      pose proof (TerminateOscString_fits s n destinationSize ltac:(lia)) as T2;
      destruct (TerminateOscString s n destinationSize) as [[d2 n2] rc2] eqn:E2
  end.
  cbn [snd] in T2. subst rc2. apply TerminateOscString_ok in E2.
  destruct E2 as [_ [(_ & -> & _)|(Hx & _)]]; [|discriminate]. cbn [negb Z.eqb].
  replace (destinationSize <? terminated (terminated (oscAddressPatternLength m)
                                          + oscTypeTagStringLength m)
                              + argumentsSize m) with false
    by (symmetry; apply Nat.ltb_ge; lia).
  reflexivity.
Qed.

(** X8: [OscMessageToCharArray] succeeds exactly when the message has an
    address pattern that starts with ['/'] and the size reported by
    [OscMessageGetSize] fits in the destination. *)
Theorem OscMessageToCharArray_succeeds_iff (m : OscMessage) (destination : Mem)
    (destinationSize : nat) :
  snd (OscMessageToCharArray m destination destinationSize) = 0%Z <->
  oscAddressPatternLength m <> 0 /\
  oscAddressPattern m 0 = OscContentsTypeMessage /\
  OscMessageGetSize m <= destinationSize.
Proof.
  split.
  - destruct (OscMessageToCharArray m destination destinationSize) as [[d n] rc] eqn:E.
    cbn [snd]. intros ->. rewrite OscMessageGetSize_terminated.
    apply OscMessageToCharArray_ok in E. cbv zeta in E.
    destruct E as (Hn & Hle & Ha & H0 & _). split; [exact Ha|]. split; [exact H0|]. lia.
  - intros (Ha & H0 & Hsize). now apply OscMessageToCharArray_fits.
Qed.

End MessageSerialization.

(** C10, at the message [/test] with its eleven arguments and a destination
    of 1472 bytes. *)
Lemma OscMessageGetSize_exact_witness :
  let r := OscMessageToCharArray sample_message zeros 1472 in
  OscMessageGetSize sample_message = snd (fst r) /\
  length (message_wire sample_message) = OscMessageGetSize sample_message /\
  bytes (fst (fst r)) (OscMessageGetSize sample_message) = message_wire sample_message /\
  (forall j, OscMessageGetSize sample_message <= j -> fst (fst r) j = zeros j).
Proof.
  intros r. apply (OscMessageGetSize_exact sample_message zeros 1472). reflexivity.
Defined.

Lemma OscMessageToCharArray_wire_witness :
  let r := OscMessageToCharArray sample_message zeros 1472 in
  bytes (fst (fst r)) (snd (fst r)) = message_wire sample_message /\
  snd (fst r) <= 1472 /\
  forall j, snd (fst r) <= j -> fst (fst r) j = zeros j.
Proof.
  intros r. apply (OscMessageToCharArray_wire sample_message zeros 1472). reflexivity.
Defined.

(** ** OscMessage.c: appending arguments *)

Section MessageAppend.
Context {L : Limits}.

Lemma add_string_loop_fits string : forall (args : Mem) size,
  Forall (fun c => c <> "000"%char) string ->
  size + length string <= MAX_ARGUMENTS_SIZE ->
  snd (add_string_loop string args size) = 0%Z /\
  snd (fst (add_string_loop string args size)) = size + length string.
Proof.
  induction string as [|c string IH]; intros args size Hf Hle; cbn [add_string_loop].
  - cbn. split; [reflexivity | lia].
  - inversion Hf as [|? ? Hc Hf']; subst. cbn [length] in Hle.
    apply Ascii.eqb_neq in Hc. rewrite Hc.
    replace (MAX_ARGUMENTS_SIZE <=? size) with false by (symmetry; apply Nat.leb_gt; lia).
    destruct (IH (store args size c) (S size) Hf' ltac:(lia)) as [H1 H2].
    split; [exact H1|]. rewrite H2. cbn [length]. lia.
Qed.

Lemma add_blob_pad_loop_fits room : forall (args : Mem) size,
  (4 - size mod 4) mod 4 <= room ->
  snd (add_blob_pad_loop room args size) = 0%Z.
Proof.
  induction room as [|room IH]; intros args size H; cbn [add_blob_pad_loop];
    destruct (Nat.eqb_spec (size mod 4) 0) as [E|E]; try reflexivity.
  - lia.
  - apply IH. lia.
Qed.

Lemma OscMessageAddString_fits (m : OscMessage) (string : list ascii) :
  Forall (fun c => c <> "000"%char) string ->
  oscTypeTagStringLength m <= MAX_NUMBER_OF_ARGUMENTS ->
  terminated (argumentsSize m + length string) <= MAX_ARGUMENTS_SIZE ->
  snd (OscMessageAddString m string) = 0%Z.
Proof.
  intros Hf Ht Hs. unfold OscMessageAddString.
  replace (MAX_NUMBER_OF_ARGUMENTS <? oscTypeTagStringLength m) with false
    by (symmetry; apply Nat.ltb_ge; lia).
  destruct (add_string_loop_fits string (arguments m) (argumentsSize m) Hf) as [H1 H2].
  { unfold terminated in Hs. lia. }
  destruct (add_string_loop string (arguments m) (argumentsSize m)) as [[a1 n1] rc1].
  cbn [fst snd] in H1, H2. subst rc1 n1. cbn [negb Z.eqb].
  pose proof (TerminateOscString_fits a1 (argumentsSize m + length string)
                MAX_ARGUMENTS_SIZE Hs) as H3.
  destruct (TerminateOscString a1 (argumentsSize m + length string) MAX_ARGUMENTS_SIZE)
    as [[a2 n2] rc2].
  cbn [snd] in H3. subst rc2. reflexivity.
Qed.

(** A call succeeds when the tag and the argument bytes fit. *)
Lemma OscMessageAdd_room (m : OscMessage) (a : OscArgument) :
  argument_ok a ->
  argumentsSize m mod 4 = 0 ->
  oscTypeTagStringLength m <= MAX_NUMBER_OF_ARGUMENTS ->
  argumentsSize m + length (argument_bytes a) <= MAX_ARGUMENTS_SIZE ->
  snd (OscMessageAdd m a) = 0%Z.
Proof.
  intros Hok Hal Ht Hs.
  assert (Hstr : forall s, argumentsSize m + length (s ++ nulls (4 - length s mod 4))
                           <= MAX_ARGUMENTS_SIZE ->
                           terminated (argumentsSize m + length s) <= MAX_ARGUMENTS_SIZE).
  { intros s. rewrite length_app, length_nulls. unfold terminated. lia. }
  destruct a; cbn [OscMessageAdd argument_bytes argument_ok] in *;
    unfold OscMessageAddInt32, OscMessageAddFloat32, OscMessageAddInt64, OscMessageAddTimeTag,
      OscMessageAddDouble, OscMessageAddCharacter, OscMessageAddRgbaColour,
      OscMessageAddMidiMessage, OscMessageAddBool, OscMessageAddNil, OscMessageAddInfinitum,
      OscMessageAddBeginArray, OscMessageAddEndArray, add_argument32, add_argument64,
      add_tag_only;
    try (replace (MAX_NUMBER_OF_ARGUMENTS <? oscTypeTagStringLength m) with false
           by (symmetry; apply Nat.ltb_ge; lia));
    try (cbn [length big_endian32 big_endian64] in Hs;
         try (replace (MAX_ARGUMENTS_SIZE <? argumentsSize m + 4) with false
                by (symmetry; apply Nat.ltb_ge; lia));
         try (replace (MAX_ARGUMENTS_SIZE <? argumentsSize m + 8) with false
                by (symmetry; apply Nat.ltb_ge; lia));
         reflexivity).
  - apply OscMessageAddString_fits; auto.
  - unfold OscMessageAddBlob.
    rewrite !length_app, length_nulls in Hs. cbn [length big_endian32] in Hs.
    replace (MAX_NUMBER_OF_ARGUMENTS <? oscTypeTagStringLength m) with false
      by (symmetry; apply Nat.ltb_ge; lia).
    replace (MAX_ARGUMENTS_SIZE <? argumentsSize m + 4 + length blob) with false
      by (symmetry; apply Nat.ltb_ge; lia).
    cbv zeta.
    match goal with
    | |- context [add_blob_pad_loop ?r ?x ?y] =>
        pose proof (add_blob_pad_loop_fits r x y ltac:(lia)) as Hp;
        destruct (add_blob_pad_loop r x y) as [[a2 n2] rc2]
    end.
    cbn [snd] in Hp. subst rc2. reflexivity.
  - unfold OscMessageAddAlternateString.
    pose proof (OscMessageAddString_fits m string Hok Ht (Hstr string Hs)) as H.
    destruct (OscMessageAddString m string) as [m1 rc1]. cbn [snd] in H. subst rc1.
    reflexivity.
Qed.

(** X9: what a successful [OscMessageAdd...] call appends.  The type tag
    string gains the tag of the argument and stays null-terminated, the
    argument bytes gain the wire form of the argument (big-endian integers,
    null-padded strings, size-prefixed and null-padded blobs, nothing for a
    tag without payload), and the address pattern and the read indexes are
    unchanged. *)
Theorem OscMessageAdd_appends (m : OscMessage) (a : OscArgument) :
  snd (OscMessageAdd m a) = 0%Z ->
  argument_ok a ->
  argumentsSize m mod 4 = 0 ->
  appended m (fst (OscMessageAdd m a)) (argument_tag a) (argument_bytes a).
Proof.
  destruct (OscMessageAdd m a) as [m' rc] eqn:E. cbn [fst snd]. intros -> Hok Hal.
  apply OscMessageAdd_ok in E. destruct E as [(E & _)|(_ & _ & E)]; [discriminate|].
  now apply E.
Qed.

(** X10: an [OscMessageAdd...] call succeeds exactly when there is room:
    the message holds at most [MAX_NUMBER_OF_ARGUMENTS] characters in its type
    tag string and the argument bytes with the wire form of the new argument
    do not exceed [MAX_ARGUMENTS_SIZE]. *)
Theorem OscMessageAdd_succeeds_iff (m : OscMessage) (a : OscArgument) :
  argument_ok a ->
  argumentsSize m mod 4 = 0 ->
  argumentsSize m <= MAX_ARGUMENTS_SIZE ->
  (snd (OscMessageAdd m a) = 0%Z <->
   oscTypeTagStringLength m <= MAX_NUMBER_OF_ARGUMENTS /\
   argumentsSize m + length (argument_bytes a) <= MAX_ARGUMENTS_SIZE).
Proof.
  intros Hok Hal Hsz. split.
  - intros Hrc.
    destruct (Nat.le_gt_cases (oscTypeTagStringLength m) MAX_NUMBER_OF_ARGUMENTS) as [H1|H1];
      [|rewrite (OscMessageAdd_exceeds m a Hok Hal Hsz (or_introl H1)) in Hrc; discriminate].
    split; [exact H1|].
    destruct (Nat.le_gt_cases (argumentsSize m + length (argument_bytes a))
                MAX_ARGUMENTS_SIZE) as [H2|H2]; [exact H2|].
    rewrite (OscMessageAdd_exceeds m a Hok Hal Hsz (or_intror H2)) in Hrc. discriminate.
  - intros [H1 H2]. now apply OscMessageAdd_room.
Qed.







End MessageAppend.

Lemma OscMessageAdd_appends_witness :
  let a := ArgString ["h"; "i"]%char in
  appended example_message (fst (OscMessageAdd (L := udp_limits) example_message a))
    (argument_tag a) (argument_bytes a).
Proof.
  intros a. apply (OscMessageAdd_appends (L := udp_limits) example_message a).
  - reflexivity.
  - repeat constructor; discriminate.
  - reflexivity.
Defined.

Lemma OscMessageAdd_succeeds_iff_witness :
  let a := ArgBlob ["001"; "002"; "003"]%char in
  snd (OscMessageAdd (L := udp_limits) example_message a) = 0%Z <->
  oscTypeTagStringLength example_message <= MAX_NUMBER_OF_ARGUMENTS (Limits := udp_limits) /\
  argumentsSize example_message + length (argument_bytes a)
    <= MAX_ARGUMENTS_SIZE (Limits := udp_limits).
Proof.
  intros a. apply (OscMessageAdd_succeeds_iff (L := udp_limits) example_message a).
  - cbv. reflexivity.
  - reflexivity.
  - cbv. lia.
Defined.

(** ** OscMessage.c: the address pattern *)

Section MessageAddress.
Context {L : Limits}.

Lemma append_address_loop_rc parts : forall (m : OscMessage),
  Forall (fun c => c <> "000"%char) parts ->
  oscAddressPatternLength m <= MAX_OSC_ADDRESS_PATTERN_LENGTH ->
  snd (append_address_loop parts m) =
  if oscAddressPatternLength m + length parts <=? MAX_OSC_ADDRESS_PATTERN_LENGTH
  then 0%Z else 1%Z.
Proof.
  induction parts as [|c parts IH]; intros m Hf Hle; cbn [append_address_loop length].
  - rewrite Nat.add_0_r. cbn [snd]. apply Nat.leb_le in Hle. now rewrite Hle.
  - inversion Hf as [|? ? Hc Hf']; subst. apply Ascii.eqb_neq in Hc. rewrite Hc.
    destruct (Nat.leb_spec MAX_OSC_ADDRESS_PATTERN_LENGTH (oscAddressPatternLength m)).
    + cbn [snd].
      destruct (Nat.leb_spec (oscAddressPatternLength m + S (length parts))
                  MAX_OSC_ADDRESS_PATTERN_LENGTH); [lia | reflexivity].
    + rewrite IH by (try exact Hf'; fsimpl; lia). fsimpl. now rewrite Nat.add_succ_r.
Qed.

(** X12: [OscMessageAppendAddressPattern] succeeds exactly when the
    appended parts start with ['/'] and the address pattern with them is at
    most [MAX_OSC_ADDRESS_PATTERN_LENGTH] characters long; the parts are then
    added after the address pattern, which is null-terminated again, and the
    type tag string and the arguments are unchanged. *)
Theorem OscMessageAppendAddressPattern_appends (m : OscMessage) (parts : list ascii) :
  Forall (fun c => c <> "000"%char) parts ->
  oscAddressPatternLength m <= MAX_OSC_ADDRESS_PATTERN_LENGTH ->
  let r := OscMessageAppendAddressPattern m parts in
  (snd r = 0%Z <->
   hd "000"%char parts = OscContentsTypeMessage /\
   oscAddressPatternLength m + length parts <= MAX_OSC_ADDRESS_PATTERN_LENGTH) /\
  (snd r = 0%Z ->
   oscAddressPatternLength (fst r) = oscAddressPatternLength m + length parts /\
   bytes (oscAddressPattern (fst r)) (oscAddressPatternLength (fst r) + 1) =
     bytes (oscAddressPattern m) (oscAddressPatternLength m) ++ parts ++ ["000"%char] /\
   arguments_view (fst r) = arguments_view m).
Proof.
  intros Hf Hle r. subst r. unfold OscMessageAppendAddressPattern.
  destruct (Ascii.eqb_spec (hd "000"%char parts) OscContentsTypeMessage) as [Hh|Hh];
    cbn [negb].
  2:{ cbn [snd]. split; [|discriminate]. split; [discriminate|]. intros [Hx _]. contradiction. }
  pose proof (append_address_loop_rc parts m Hf Hle) as Hrc.
  destruct (append_address_loop parts m) as [m1 rc1] eqn:E. cbn [snd] in Hrc.
  destruct (Nat.leb_spec (oscAddressPatternLength m + length parts)
              MAX_OSC_ADDRESS_PATTERN_LENGTH) as [Hfit|Hfit]; subst rc1; cbn [Z.eqb fst snd].
  2:{ split; [|discriminate]. split; [discriminate|]. intros [_ Hx]. lia. }
  split; [split; auto|]. intros _.
  apply append_address_loop_ok in E; [|exact Hf | exact Hle].
  destruct E as (E1 & E2 & E3 & E4 & E5 & E6 & E7 & E8 & E9). fsimpl.
  split; [exact E1|]. split.
  - rewrite Nat.add_1_r, bytes_push, E3, <- app_assoc. reflexivity.
  - unfold arguments_view. fsimpl. now rewrite E4, E5, E6, E7.
Qed.

(** X13: [OscMessageInitialise] succeeds exactly when the address is empty
    or starts with ['/'] and has at most [MAX_OSC_ADDRESS_PATTERN_LENGTH]
    characters; the message then holds the address, null-terminated, the type
    tag string [","], no argument bytes, and read indexes at the first
    argument. *)
Theorem OscMessageInitialise_message (m0 : OscMessage) (address : list ascii) :
  Forall (fun c => c <> "000"%char) address ->
  let r := OscMessageInitialise m0 address in
  (snd r = 0%Z <->
   address = [] \/
   hd "000"%char address = OscContentsTypeMessage /\
   length address <= MAX_OSC_ADDRESS_PATTERN_LENGTH) /\
  (snd r = 0%Z ->
   message_view (fst r) =
     (address ++ ["000"%char], [","%char; "000"%char], [], length address, 1, 0, 1, 0)).
Proof.
  intros Hf r. subst r. split.
  - unfold OscMessageInitialise. destruct address as [|c address].
    + cbn. split; auto.
    + inversion Hf as [|? ? Hc _]; subst. cbn [hd]. apply Ascii.eqb_neq in Hc. rewrite Hc.
      cbn [negb]. unfold OscMessageSetAddressPattern.
      match goal with
      | |- context [OscMessageAppendAddressPattern ?x ?p] =>
          destruct (OscMessageAppendAddressPattern_appends x p Hf) as [Hiff _]
      end.
      { fsimpl. lia. }
      fsimpl. cbn [hd plus] in Hiff. rewrite Hiff. split.
      * intros H. right. exact H.
      * intros [H|H]; [discriminate | exact H].
  - destruct (OscMessageInitialise m0 address) as [m rc] eqn:E. cbn [fst snd]. intros ->.
    apply OscMessageInitialise_ok in E; [|exact Hf].
    destruct E as (E1 & E2 & E3 & E4 & (H1 & H2 & H3 & H4 & H5) & E6 & E7).
    cbn [length] in H1, H2, H3. unfold message_view.
    rewrite E1, H1, H4, E6, E7, Nat.add_1_r, (bytes_S _ (length address)), E3, E4.
    change (1 + 1) with 2. rewrite (bytes_S _ 1), H2, H3. reflexivity.
Qed.

End MessageAddress.

Lemma OscMessageAppendAddressPattern_appends_witness :
  let parts := ["/"; "a"]%char in
  let r := OscMessageAppendAddressPattern (L := udp_limits) example_message parts in
  (snd r = 0%Z <->
   hd "000"%char parts = OscContentsTypeMessage /\
   oscAddressPatternLength example_message + length parts
     <= MAX_OSC_ADDRESS_PATTERN_LENGTH (Limits := udp_limits)) /\
  (snd r = 0%Z ->
   oscAddressPatternLength (fst r) = oscAddressPatternLength example_message + length parts /\
   bytes (oscAddressPattern (fst r)) (oscAddressPatternLength (fst r) + 1) =
     bytes (oscAddressPattern example_message) (oscAddressPatternLength example_message)
     ++ parts ++ ["000"%char] /\
   arguments_view (fst r) = arguments_view example_message).
Proof.
  intros parts.
  apply (OscMessageAppendAddressPattern_appends (L := udp_limits) example_message parts).
  - repeat constructor; discriminate.
  - cbv. lia.
Defined.

Lemma OscMessageInitialise_message_witness :
  let address := ["/"; "a"; "/"; "b"]%char in
  let r := OscMessageInitialise (L := udp_limits) blank_message address in
  (snd r = 0%Z <->
   address = [] \/
   hd "000"%char address = OscContentsTypeMessage /\
   length address <= MAX_OSC_ADDRESS_PATTERN_LENGTH (Limits := udp_limits)) /\
  (snd r = 0%Z ->
   message_view (fst r) =
     (address ++ ["000"%char], [","%char; "000"%char], [], length address, 1, 0, 1, 0)).
Proof.
  intros address.
  apply (OscMessageInitialise_message (L := udp_limits) blank_message address).
  repeat constructor; discriminate.
Defined.

(** ** OscMessage.c: reading *)

Section MessageRead.
Context {L : Limits}.

Lemma get_argument32_failed (m : OscMessage) tag :
  snd (get_argument32 m tag) = None -> fst (fst (get_argument32 m tag)) = m.
Proof.
  unfold get_argument32.
  destruct (negb (oscTypeTagString m (oscTypeTagStringIndex m) =? tag)%char); [reflexivity|].
  destruct (argumentsSize m <? argumentsIndex m + 4); [reflexivity | discriminate].
Qed.

Lemma get_argument64_failed (m : OscMessage) tag :
  snd (get_argument64 m tag) = None -> fst (fst (get_argument64 m tag)) = m.
Proof.
  unfold get_argument64.
  destruct (negb (oscTypeTagString m (oscTypeTagStringIndex m) =? tag)%char); [reflexivity|].
  destruct (argumentsSize m <? argumentsIndex m + 8); [reflexivity | discriminate].
Qed.

Lemma OscMessageGetString_failed (m : OscMessage) (destination : Mem) destinationSize :
  snd (OscMessageGetString m destination destinationSize) <> 0%Z ->
  fst (fst (OscMessageGetString m destination destinationSize)) = m.
Proof.
  unfold OscMessageGetString.
  destruct (_ && _); [reflexivity|].
  destruct (argumentsSize m <? argumentsIndex m + 4); [reflexivity|].
  destruct (destinationSize <? 4); [reflexivity|].
  destruct (get_string_loop _ _ _ _ _) as [[d i] rc].
  destruct (negb (rc =? 0)%Z); [reflexivity|].
  destruct (get_align_loop _ _) as [i' rc'].
  destruct (negb (rc' =? 0)%Z); [reflexivity|]. cbn [snd]. congruence.
Qed.

Lemma OscMessageGetBlob_failed (m : OscMessage) (destination : Mem) destinationSize :
  snd (fst (fst (OscMessageGetBlob m destination destinationSize))) = None ->
  fst (fst (fst (OscMessageGetBlob m destination destinationSize))) = m.
Proof.
  unfold OscMessageGetBlob.
  destruct (negb _); [reflexivity|].
  destruct (argumentsSize m <? argumentsIndex m + 4); [reflexivity|]. cbv zeta.
  destruct (gt_size_t _ (argumentsSize m)); [reflexivity|].
  destruct (gt_size_t _ destinationSize); [reflexivity|].
  destruct (get_align_loop _ _) as [i' rc'].
  destruct (negb (rc' =? 0)%Z); [reflexivity|]. cbn [fst snd]. discriminate.
Qed.

Lemma skip_tag_failed (m : OscMessage) tag (a : OscArgument) :
  snd (skip_tag m tag a) = None -> fst (skip_tag m tag a) = m.
Proof.
  unfold skip_tag. destruct (_ =? tag)%char; [|reflexivity].
  destruct (OscMessageSkipArgument m) as [m' rc].
  destruct (rc =? 0)%Z; [discriminate | reflexivity].
Qed.

(** X14: a read that fails leaves the message as it was.  Whichever
    [OscMessageGet...] function is called (or [OscMessageSkipArgument] for a
    tag without payload), with whatever destination, a call that does not
    deliver an argument leaves both read indexes, and the whole message
    structure, unchanged, so that the read can be tried again with another
    type. *)
Theorem failed_read_keeps_message (destination : Mem) (destinationSize : nat)
    (m : OscMessage) (kind : OscArgument) :
  snd (read_argument destination destinationSize m kind) = None ->
  fst (read_argument destination destinationSize m kind) = m.
Proof.
  destruct kind; cbn [read_argument];
    unfold OscMessageGetInt32, OscMessageGetFloat32, OscMessageGetInt64, OscMessageGetTimeTag,
      OscMessageGetDouble, OscMessageGetRgbaColour, OscMessageGetMidiMessage;
    try (match goal with
         | |- context [get_argument32 m ?tag] =>
             pose proof (get_argument32_failed m tag) as H;
             destruct (get_argument32 m tag) as [[m' rc] [[[[b3 b2] b1] b0]|]]
         | |- context [get_argument64 m ?tag] =>
             pose proof (get_argument64_failed m tag) as H;
             destruct (get_argument64 m tag) as [[m' rc] [v|]]
         end; cbn [fst snd option_map] in *; first [discriminate | intros _; now apply H]);
    try (destruct (_ =? _)%char; now apply skip_tag_failed);
    try now apply skip_tag_failed.
  - destruct (_ =? _)%char; [|reflexivity].
    pose proof (OscMessageGetString_failed m destination destinationSize) as H.
    destruct (OscMessageGetString m destination destinationSize) as [[m' d] rc].
    cbn [fst snd] in *. destruct (Z.eqb_spec rc 0); [discriminate|]. intros _. now apply H.
  - pose proof (OscMessageGetBlob_failed m destination destinationSize) as H.
    destruct (OscMessageGetBlob m destination destinationSize) as [[[m' r] d] rc].
    cbn [fst snd] in *. destruct r; [discriminate|]. intros _. now apply H.
  - destruct (_ =? _)%char; [|reflexivity].
    pose proof (OscMessageGetString_failed m destination destinationSize) as H.
    destruct (OscMessageGetString m destination destinationSize) as [[m' d] rc].
    cbn [fst snd] in *. destruct (Z.eqb_spec rc 0); [discriminate|]. intros _. now apply H.
  - unfold OscMessageGetCharacter.
    destruct (negb _); [reflexivity|].
    destruct (argumentsSize m <? argumentsIndex m + 4); [reflexivity | discriminate].
Qed.

End MessageRead.

(** X14, at a message whose next argument is the string [hello], read with
    [OscMessageGetString] into a destination of 4 bytes: the type tag matches,
    the function copies until the destination is full and returns 1. *)
Lemma failed_read_keeps_message_witness :
  let m := fst (build_message (L := udp_limits) blank_message ["/"; "a"]%char
                  [ArgString ["h"; "e"; "l"; "l"; "o"]%char; ArgInt32 7]) in
  (OscMessageGetArgumentType m = OscTypeTagString /\
   snd (OscMessageGetString m zeros 4) = 1%Z /\
   snd (fst (OscMessageGetString m zeros 4)) 0 = "h"%char) /\
  snd (read_argument zeros 4 m (ArgString [])) = None /\
  fst (read_argument zeros 4 m (ArgString [])) = m.
Proof.
  intros m.
  assert (H : snd (read_argument zeros 4 m (ArgString [])) = None) by (vm_compute; reflexivity).
  split; [vm_compute; repeat split|]. split; [exact H|].
  exact (failed_read_keeps_message zeros 4 m (ArgString []) H).
Defined.

(** ** OscBundle.c: serialization and parsing *)

Ltac bsimpl :=
  cbn [header oscTimeTag oscBundleElements oscBundleElementsSize oscBundleElementsIndex
       elementContents elementSize contents size processMessage fst snd] in *.

Section BundleSerialization.
Context {L : Limits}.

Lemma bytes_store_push (m : Mem) n v : bytes (store m n v) (n + 1) = bytes m n ++ [v].
Proof. rewrite Nat.add_1_r. apply bytes_push. Qed.

(** What [OscBundleToCharArray] does when the destination is large enough. *)
Lemma OscBundleToCharArray_fits (b : OscBundle) (destination : Mem) (destinationSize : nat) :
  OscBundleGetSize b <= destinationSize ->
  exists d,
    OscBundleToCharArray b destination destinationSize = (d, OscBundleGetSize b, 0%Z) /\
    bytes d (OscBundleGetSize b) = bundle_wire b /\
    forall j, OscBundleGetSize b <= j -> d j = destination j.
Proof.
  unfold OscBundleGetSize. intros H. unfold OscBundleToCharArray.
  replace (destinationSize <? 8 + 8 + oscBundleElementsSize b) with false
    by (symmetry; apply Nat.ltb_ge; lia).
  eexists. split; [reflexivity|]. split.
  - unfold bundle_wire. change (8 + 8) with 16.
    rewrite bytes_copy_bytes, bytes_offset_0. rewrite app_assoc. f_equal.
  - intros j Hj. rewrite copy_bytes_above by lia. rewrite !store_neq by lia.
    apply copy_bytes_above. lia.
Qed.

(** X15: [OscBundleToCharArray] succeeds exactly when the size reported by
    [OscBundleGetSize] fits in the destination; it then reports that size,
    has written the header, the time tag, most significant byte first, and
    the elements, and leaves the destination untouched from there on. *)
Theorem OscBundleToCharArray_wire (b : OscBundle) (destination : Mem)
    (destinationSize : nat) :
  let r := OscBundleToCharArray b destination destinationSize in
  (snd r = 0%Z <-> OscBundleGetSize b <= destinationSize) /\
  (snd r = 0%Z ->
   snd (fst r) = OscBundleGetSize b /\
   bytes (fst (fst r)) (snd (fst r)) = bundle_wire b /\
   forall j, snd (fst r) <= j -> fst (fst r) j = destination j).
Proof.
  intros r. subst r.
  destruct (Nat.le_gt_cases (OscBundleGetSize b) destinationSize) as [H|H].
  - destruct (OscBundleToCharArray_fits b destination destinationSize H) as (d & -> & Hw & Ha).
    cbn [fst snd]. split; [tauto|]. auto.
  - unfold OscBundleToCharArray, OscBundleGetSize in *.
    replace (destinationSize <? 8 + 8 + oscBundleElementsSize b) with true
      by (symmetry; apply Nat.ltb_lt; lia).
    cbn [fst snd]. split; [|discriminate]. split; [discriminate | lia].
Qed.

Lemma parse_elements_loop_ok further : forall (source : Mem) si (elements : Mem) es,
  snd (parse_elements_loop further source si elements es) = es + further + 1 /\
  forall j, fst (parse_elements_loop further source si elements es) j =
            if (es <=? j) && (j <? es + further + 1) then source (si + (j - es))
            else elements j.
Proof.
  induction further as [|further IH]; intros source si elements es; cbn [parse_elements_loop].
  - cbn [fst snd]. split; [lia|]. intros j. unfold store.
    destruct (Nat.eqb_spec j es) as [->|Hne].
    + replace (es <=? es) with true by (symmetry; apply Nat.leb_le; lia).
      replace (es <? es + 0 + 1) with true by (symmetry; apply Nat.ltb_lt; lia).
      cbn [andb]. f_equal. lia.
    + destruct (Nat.leb_spec es j); cbn [andb]; [|reflexivity].
      destruct (Nat.ltb_spec j (es + 0 + 1)); [lia | reflexivity].
  - destruct (IH source (S si) (store elements es (source si)) (S es)) as [H1 H2].
    split; [rewrite H1; lia|]. intros j. rewrite H2. unfold store.
    destruct (Nat.leb_spec (S es) j), (Nat.leb_spec es j); cbn [andb]; try lia.
    + destruct (Nat.ltb_spec j (S es + further + 1)), (Nat.ltb_spec j (es + S further + 1));
        try lia.
      * f_equal. lia.
      * destruct (Nat.eqb_spec j es); [lia | reflexivity].
    + destruct (Nat.eqb_spec j es) as [->|Hne]; [|lia].
      replace (es <? es + S further + 1) with true by (symmetry; apply Nat.ltb_lt; lia).
      f_equal. lia.
    + destruct (Nat.eqb_spec j es); [lia | reflexivity].
Qed.

(** What [OscBundleInitialiseFromCharArray] makes of a source that passes
    its four tests. *)
Lemma OscBundleInitialiseFromCharArray_ok (b0 : OscBundle) (source : Mem) (n : nat) :
  n mod 4 = 0 -> MIN_OSC_BUNDLE_SIZE <= n <= MAX_OSC_BUNDLE_SIZE ->
  source 0 = OscContentsTypeBundle ->
  exists b,
    OscBundleInitialiseFromCharArray b0 source n = (b, 0%Z) /\
    bytes (header b) 8 = bytes source 8 /\
    oscTimeTag b = uint_of_bytes (bytes (offset source 8) 8) /\
    oscBundleElementsSize b = n - 17 + 1 /\
    (forall j, j < n - 17 + 1 -> oscBundleElements b j = source (16 + j)) /\
    oscBundleElementsIndex b = 0.
Proof.
  intros Hm [Hmin Hmax] H0. unfold OscBundleInitialiseFromCharArray.
  replace (n mod 4 =? 0) with true by (symmetry; apply Nat.eqb_eq; lia).
  replace (n <? MIN_OSC_BUNDLE_SIZE) with false by (symmetry; apply Nat.ltb_ge; lia).
  replace (MAX_OSC_BUNDLE_SIZE <? n) with false by (symmetry; apply Nat.ltb_ge; lia).
  rewrite H0, Ascii.eqb_refl. cbn [negb].
  destruct (parse_elements_loop_ok (n - (16 + 1)) source 16 (oscBundleElements b0) 0)
    as [H1 H2].
  destruct (parse_elements_loop (n - (16 + 1)) source 16 (oscBundleElements b0) 0)
    as [elements elementsSize].
  cbn [fst snd] in H1, H2. eexists. split; [reflexivity|]. bsimpl.
  split; [change 8 with (0 + 8) at 1; rewrite bytes_copy_bytes, bytes_offset_0; reflexivity|].
  split; [reflexivity|]. change (16 + 1) with 17 in *. split; [lia|].
  split; [|reflexivity]. intros j Hj. rewrite H2.
  replace (0 <=? j) with true by (symmetry; apply Nat.leb_le; lia).
  replace (j <? 0 + (n - 17) + 1) with true by (symmetry; apply Nat.ltb_lt; lia).
  cbn [andb]. f_equal. lia.
Qed.

Lemma bundle_round_trip_eq (b b1 : OscBundle) (destination d : Mem) (destinationSize n : nat) :
  OscBundleToCharArray b destination destinationSize = (d, n, 0%Z) ->
  header b 0 = OscContentsTypeBundle ->
  (0 <= oscTimeTag b < 2 ^ 64)%Z ->
  0 < oscBundleElementsSize b ->
  oscBundleElementsSize b mod 4 = 0 ->
  MIN_OSC_BUNDLE_SIZE <= OscBundleGetSize b <= MAX_OSC_BUNDLE_SIZE ->
  exists b',
    OscBundleInitialiseFromCharArray b1 d n = (b', 0%Z) /\
    bundle_view b' = bundle_view b /\ oscBundleElementsIndex b' = 0.
Proof.
  intros E H0 Htt Hpos Hal Hsize.
  assert (Hfit : OscBundleGetSize b <= destinationSize).
  { destruct (Nat.le_gt_cases (OscBundleGetSize b) destinationSize) as [H|H]; [exact H|].
    unfold OscBundleToCharArray, OscBundleGetSize in *.
    replace (destinationSize <? 8 + 8 + oscBundleElementsSize b) with true in E
      by (symmetry; apply Nat.ltb_lt; lia).
    discriminate. }
  destruct (OscBundleToCharArray_fits b destination destinationSize Hfit) as (d' & E' & Hw & _).
  rewrite E in E'. inversion E'; subst d' n. clear E'.
  unfold OscBundleGetSize in *. change (8 + 8) with 16 in *.
  unfold bundle_wire in Hw.
  assert (Hlen8 : length (bytes (header b) 8) = 8) by apply bytes_length.
  assert (Hd : forall j, j < 16 + oscBundleElementsSize b ->
                 d j = nth j (bytes (header b) 8 ++ big_endian64 (oscTimeTag b) ++
                              bytes (oscBundleElements b) (oscBundleElementsSize b))
                           "000"%char).
  { intros j Hj. rewrite <- Hw. symmetry. now apply bytes_nth. }
  destruct (OscBundleInitialiseFromCharArray_ok b1 d (16 + oscBundleElementsSize b))
    as (b' & Hp & Hh & Ht & Hs & He & Hi).
  { lia. }
  { lia. }
  { rewrite Hd by lia. rewrite app_nth1 by (rewrite Hlen8; lia).
    rewrite bytes_nth by lia. exact H0. }
  exists b'. split; [exact Hp|]. split; [|exact Hi].
  assert (Hs' : oscBundleElementsSize b' = oscBundleElementsSize b) by lia.
  assert (V1 : bytes (header b') 8 = bytes (header b) 8).
  { rewrite Hh. apply bytes_ext. intros j Hj. rewrite Hd by lia.
    rewrite app_nth1 by (rewrite Hlen8; lia). now apply bytes_nth. }
  assert (V2 : oscTimeTag b' = oscTimeTag b).
  { rewrite Ht.
    replace (bytes (offset d 8) 8) with (big_endian64 (oscTimeTag b)).
    - rewrite uint64_of_bytes. apply Z.mod_small. exact Htt.
    - apply nth_ext with (d := "000"%char) (d' := "000"%char);
        [rewrite bytes_length; reflexivity|].
      intros j Hj. cbn [length big_endian64] in Hj. rewrite bytes_nth by exact Hj.
      unfold offset. rewrite Hd by lia. rewrite app_nth2 by (rewrite Hlen8; lia).
      rewrite Hlen8. rewrite app_nth1 by (cbn [length big_endian64]; lia).
      f_equal. lia. }
  assert (V3 : bytes (oscBundleElements b') (oscBundleElementsSize b) =
               bytes (oscBundleElements b) (oscBundleElementsSize b)).
  { apply bytes_ext. intros j Hj. rewrite He by lia. rewrite Hd by lia.
    rewrite app_nth2 by (rewrite Hlen8; lia). rewrite Hlen8.
    rewrite app_nth2 by (cbn [length big_endian64]; lia). cbn [length big_endian64].
    rewrite bytes_nth by lia. f_equal. lia. }
  unfold bundle_view. rewrite Hs', V1, V2, V3. reflexivity.
Qed.

(** X16: the bundle round trip.  For every bundle that starts with ['#'],
    holds a time tag of 64 bits and a non-empty element region whose size is
    a multiple of 4, and whose size is within the bounds, parsing the bytes
    written by [OscBundleToCharArray] returns 0 and yields a bundle with the
    same header, time tag and elements, with the read index at 0. *)
Theorem bundle_round_trip (b b1 : OscBundle) (destination : Mem) (destinationSize : nat) :
  let r := OscBundleToCharArray b destination destinationSize in
  let p := OscBundleInitialiseFromCharArray b1 (fst (fst r)) (snd (fst r)) in
  snd r = 0%Z ->
  header b 0 = OscContentsTypeBundle ->
  (0 <= oscTimeTag b < 2 ^ 64)%Z ->
  0 < oscBundleElementsSize b ->
  oscBundleElementsSize b mod 4 = 0 ->
  MIN_OSC_BUNDLE_SIZE <= OscBundleGetSize b <= MAX_OSC_BUNDLE_SIZE ->
  snd p = 0%Z /\ bundle_view (fst p) = bundle_view b /\ oscBundleElementsIndex (fst p) = 0.
Proof.
  intros r p Hr. subst p.
  destruct r as [[d n] rc] eqn:E. cbn [fst snd] in *. subst rc.
  intros H0 Htt Hpos Hal Hsize.
  destruct (bundle_round_trip_eq b b1 destination d destinationSize n E H0 Htt Hpos Hal Hsize)
    as (b' & -> & Hv & Hi).
  cbn [fst snd]. auto.
Qed.

End BundleSerialization.

(** ** OscBundle.c: adding contents *)

Section BundleAdd.
Context {L : Limits}.

Lemma OscMessageToCharArray_rc (m : OscMessage) (destination : Mem) (destinationSize : nat) :
  snd (OscMessageToCharArray m destination destinationSize) = 0%Z \/
  snd (OscMessageToCharArray m destination destinationSize) = 1%Z.
Proof.
  unfold OscMessageToCharArray.
  destruct (oscAddressPatternLength m =? 0); [auto|].
  destruct (negb _); [auto|].
  destruct (destinationSize <? oscAddressPatternLength m); [auto|].
  destruct (TerminateOscString _ _ _) as [[d1 n1] rc1].
  destruct (negb (rc1 =? 0)%Z); [auto|].
  destruct (destinationSize <? n1 + oscTypeTagStringLength m); [auto|].
  destruct (TerminateOscString _ _ _) as [[d2 n2] rc2].
  destruct (negb (rc2 =? 0)%Z); [auto|].
  destruct (destinationSize <? n2 + argumentsSize m); auto.
Qed.

Lemma write_back_below (m : Mem) k (d : Mem) j : j < k -> write_back m k d j = m j.
Proof.
  intros H. unfold write_back.
  now replace (j <? k) with true by (symmetry; apply Nat.ltb_lt; lia).
Qed.

Lemma write_back_in (m : Mem) k (d : Mem) j : write_back m k d (k + j) = d j.
Proof.
  unfold write_back.
  replace (k + j <? k) with false by (symmetry; apply Nat.ltb_ge; lia).
  f_equal. lia.
Qed.

(** The element that the last part of [OscBundleAddContents] leaves in the
    element array, when the callee wrote [w] behind the four bytes kept for
    the size. *)
Lemma element_written (elements d : Mem) (i : nat) (w : list ascii) :
  bytes d (length w) = w ->
  let e0 := write_back elements (i + 4) d in
  let e1 := store e0 i (byteN 3 (Z.of_nat (length w))) in
  let e2 := store e1 (i + 1) (byteN 2 (Z.of_nat (length w))) in
  let e3 := store e2 (i + 2) (byteN 1 (Z.of_nat (length w))) in
  let e4 := store e3 (i + 3) (byteN 0 (Z.of_nat (length w))) in
  bytes e4 (i + 4 + length w) = bytes elements i ++ element_wire w.
Proof.
  intros Hw e0 e1 e2 e3 e4. unfold element_wire, big_endian32.
  rewrite <- Nat.add_assoc. rewrite bytes_add. f_equal.
  - apply bytes_ext. intros j Hj. unfold e4, e3, e2, e1, e0.
    rewrite !store_neq by lia. apply write_back_below. lia.
  - change (4 + length w) with (length ([byteN 3 (Z.of_nat (length w));
                                         byteN 2 (Z.of_nat (length w));
                                         byteN 1 (Z.of_nat (length w));
                                         byteN 0 (Z.of_nat (length w))] ++ w)).
    apply nth_ext with (d := "000"%char) (d' := "000"%char); [apply bytes_length|].
    intros j Hj. rewrite bytes_length in Hj. rewrite bytes_nth by exact Hj.
    rewrite length_app in Hj. cbn [length] in Hj. unfold offset.
    destruct j as [|[|[|[|j]]]].
    + rewrite Nat.add_0_r. unfold e4, e3, e2. rewrite !store_neq by lia. apply store_eq.
    + unfold e4, e3. rewrite !store_neq by lia. apply store_eq.
    + unfold e4. rewrite !store_neq by lia. apply store_eq.
    + apply store_eq.
    + unfold e4, e3, e2, e1, e0. rewrite !store_neq by lia.
      replace (i + S (S (S (S j)))) with (i + 4 + j) by lia. rewrite write_back_in.
      cbn [app nth]. rewrite <- Hw. symmetry. apply bytes_nth. lia.
Qed.

Lemma OscBundleAddContents_ok (b : OscBundle) (c : OscContents) :
  serializable c ->
  exists b' rc,
    OscBundleAddContents b c = Some (b', rc) /\
    header b' = header b /\ oscTimeTag b' = oscTimeTag b /\
    oscBundleElementsIndex b' = oscBundleElementsIndex b /\
    (rc = 0%Z /\
     oscBundleElementsSize b + 4 + length (contents_wire c) <= MAX_OSC_BUNDLE_ELEMENTS_SIZE /\
     oscBundleElementsSize b' = oscBundleElementsSize b + 4 + length (contents_wire c) /\
     bytes (oscBundleElements b') (oscBundleElementsSize b') =
       bytes (oscBundleElements b) (oscBundleElementsSize b) ++ element_wire (contents_wire c)
     \/
     rc = 1%Z /\
     MAX_OSC_BUNDLE_ELEMENTS_SIZE < oscBundleElementsSize b + 4 + length (contents_wire c) /\
     oscBundleElementsSize b' = oscBundleElementsSize b /\
     bytes (oscBundleElements b') (oscBundleElementsSize b) =
       bytes (oscBundleElements b) (oscBundleElementsSize b)).
Proof.
  intros Hc. unfold OscBundleAddContents, OscBundleGetRemainingCapacity.
  destruct (Nat.ltb_spec MAX_OSC_BUNDLE_ELEMENTS_SIZE (oscBundleElementsSize b + 4)) as [Hfull|Hroom].
  { exists b, 1%Z. split; [reflexivity|]. repeat split. right. repeat split. lia. }
  cbv zeta.
  replace (Z.to_nat (Z.of_nat MAX_OSC_BUNDLE_ELEMENTS_SIZE
                     - Z.of_nat (oscBundleElementsSize b) - 4))
    with (MAX_OSC_BUNDLE_ELEMENTS_SIZE - (oscBundleElementsSize b + 4)) by lia.
  set (i := oscBundleElementsSize b) in *.
  set (capacity := MAX_OSC_BUNDLE_ELEMENTS_SIZE - (i + 4)).
  assert (Hdirty : forall d, bytes (write_back (oscBundleElements b) (i + 4) d) i =
                             bytes (oscBundleElements b) i).
  { intros d. apply bytes_ext. intros j Hj. apply write_back_below. lia. }
  destruct c as [m|child]; cbn [serializable contents_memory contents_wire] in *.
  - destruct Hc as [Ha H0].
    unfold OSC_CONTENTS_IS_MESSAGE, OSC_CONTENTS_IS_BUNDLE. rewrite H0.
    cbn [Ascii.eqb Bool.eqb OscContentsTypeMessage OscContentsTypeBundle].
    rewrite length_message_wire.
    destruct (Nat.le_gt_cases (OscMessageGetSize m) capacity) as [Hfit|Hfit].
    + pose proof (OscMessageToCharArray_fits m (offset (oscBundleElements b) (i + 4))
                    capacity Ha H0 Hfit) as Hrc.
      destruct (OscMessageToCharArray m (offset (oscBundleElements b) (i + 4)) capacity)
        as [[d n] rc] eqn:E.
      cbn [snd] in Hrc. subst rc. cbn [negb Z.eqb].
      pose proof (OscMessageToCharArray_wire_eq _ _ _ _ _ E) as Hw.
      assert (Hn : n = OscMessageGetSize m).
      { rewrite <- length_message_wire, <- Hw. now rewrite bytes_length. }
      eexists. exists 0%Z. split; [reflexivity|]. bsimpl. repeat split. left.
      split; [reflexivity|]. split; [unfold capacity in Hfit; lia|]. split; [lia|].
      rewrite Hn in *. rewrite <- length_message_wire in *.
      apply element_written. exact Hw.
    + destruct (OscMessageToCharArray_rc m (offset (oscBundleElements b) (i + 4)) capacity)
        as [Hrc|Hrc].
      * exfalso.
        destruct (OscMessageToCharArray m (offset (oscBundleElements b) (i + 4)) capacity)
          as [[d n] rc] eqn:E.
        cbn [snd] in Hrc. subst rc. apply OscMessageToCharArray_ok in E. cbv zeta in E.
        rewrite OscMessageGetSize_terminated in Hfit. lia.
      * destruct (OscMessageToCharArray m (offset (oscBundleElements b) (i + 4)) capacity)
          as [[d n] rc].
        cbn [snd] in Hrc. subst rc. cbn [negb Z.eqb].
        eexists. exists 1%Z. split; [reflexivity|]. bsimpl. repeat split. right.
        split; [reflexivity|]. split; [unfold capacity in Hfit; lia|].
        split; [reflexivity|]. apply Hdirty.
  - unfold OSC_CONTENTS_IS_MESSAGE, OSC_CONTENTS_IS_BUNDLE. rewrite Hc.
    cbn [Ascii.eqb Bool.eqb OscContentsTypeMessage OscContentsTypeBundle].
    assert (Hlen : length (bundle_wire child) = OscBundleGetSize child).
    { unfold bundle_wire, OscBundleGetSize.
      rewrite !length_app, !bytes_length. reflexivity. }
    rewrite Hlen.
    destruct (Nat.le_gt_cases (OscBundleGetSize child) capacity) as [Hfit|Hfit].
    + destruct (OscBundleToCharArray_fits child (offset (oscBundleElements b) (i + 4))
                  capacity Hfit) as (d & -> & Hw & _).
      cbn [negb Z.eqb].
      eexists. exists 0%Z. split; [reflexivity|]. bsimpl. repeat split. left.
      split; [reflexivity|]. split; [unfold capacity in Hfit; lia|]. split; [lia|].
      rewrite <- Hlen in *. apply element_written. exact Hw.
    + unfold OscBundleToCharArray. unfold OscBundleGetSize in Hfit.
      replace (capacity <? 8 + 8 + oscBundleElementsSize child) with true
        by (symmetry; apply Nat.ltb_lt; lia).
      cbn [negb Z.eqb].
      eexists. exists 1%Z. split; [reflexivity|]. bsimpl. repeat split. right.
      split; [reflexivity|]. split; [unfold capacity, OscBundleGetSize in *; lia|].
      split; [reflexivity|]. apply Hdirty.
Qed.

(** X17: [OscBundleAddContents] of a message or a bundle succeeds exactly
    when the four bytes of the size and the serialized contents fit in what
    is left of [MAX_OSC_BUNDLE_ELEMENTS_SIZE].  It then appends one element,
    the size of the serialized contents as a big-endian int32 followed by the
    serialized contents, and keeps the header and the time tag; when it fails
    it returns 1 and the bundle holds what it held. *)
Theorem OscBundleAddContents_appends (b : OscBundle) (c : OscContents) :
  serializable c ->
  exists b' rc,
    OscBundleAddContents b c = Some (b', rc) /\
    (rc = 0%Z <->
     oscBundleElementsSize b + 4 + length (contents_wire c) <= MAX_OSC_BUNDLE_ELEMENTS_SIZE) /\
    (rc = 0%Z ->
     bundle_view b' =
       (bytes (header b) 8, oscTimeTag b,
        bytes (oscBundleElements b) (oscBundleElementsSize b) ++ element_wire (contents_wire c),
        oscBundleElementsSize b + 4 + length (contents_wire c))) /\
    (rc <> 0%Z -> rc = 1%Z /\ bundle_view b' = bundle_view b).
Proof.
  intros Hc.
  destruct (OscBundleAddContents_ok b c Hc) as (b' & rc & E & Hh & Ht & _ & H).
  exists b', rc. split; [exact E|]. unfold bundle_view. rewrite Hh, Ht.
  destruct H as [(-> & Hfit & Hs & Hb)|(-> & Hfull & Hs & Hb)].
  - split; [tauto|]. split; [|congruence]. intros _. now rewrite Hb, Hs.
  - split; [split; [discriminate | lia]|]. split; [discriminate|].
    intros _. split; [reflexivity|]. now rewrite Hs, Hb.
Qed.

Lemma add_contents_ok l : forall (b : OscBundle),
  Forall serializable l ->
  oscBundleElementsSize b <= MAX_OSC_BUNDLE_ELEMENTS_SIZE ->
  let elements := flat_map (fun c => element_wire (contents_wire c)) l in
  exists b' rc,
    add_contents b l = Some (b', rc) /\
    header b' = header b /\ oscTimeTag b' = oscTimeTag b /\
    (rc = 0%Z /\
     oscBundleElementsSize b + length elements <= MAX_OSC_BUNDLE_ELEMENTS_SIZE /\
     oscBundleElementsSize b' = oscBundleElementsSize b + length elements /\
     bytes (oscBundleElements b') (oscBundleElementsSize b') =
       bytes (oscBundleElements b) (oscBundleElementsSize b) ++ elements
     \/
     rc = 1%Z /\
     MAX_OSC_BUNDLE_ELEMENTS_SIZE < oscBundleElementsSize b + length elements).
Proof.
  induction l as [|c l IH]; intros b Hf Hle; cbn zeta.
  - exists b, 0%Z. cbn [add_contents flat_map length]. repeat split. left.
    rewrite Nat.add_0_r, app_nil_r. repeat split. exact Hle.
  - inversion Hf as [|? ? Hc Hf']; subst. cbn [add_contents flat_map].
    rewrite length_app.
    assert (Hlen : length (element_wire (contents_wire c)) = 4 + length (contents_wire c))
      by (unfold element_wire; rewrite length_app; reflexivity).
    destruct (OscBundleAddContents_ok b c Hc) as (b1 & rc1 & -> & Hh & Ht & _ & H).
    destruct H as [(-> & Hfit & Hs & Hb)|(-> & Hfull & Hs & Hb)]; cbn [Z.eqb].
    + destruct (IH b1 Hf' ltac:(lia)) as (b2 & rc2 & -> & Hh2 & Ht2 & H2).
      exists b2, rc2. split; [reflexivity|]. split; [congruence|]. split; [congruence|].
      rewrite Hb, Hs in H2.
      destruct H2 as [(-> & Hfit2 & Hs2 & Hb2)|(-> & Hfull2)]; [left | right].
      * split; [reflexivity|]. split; [lia|]. split; [lia|].
        rewrite Hb2, <- app_assoc. reflexivity.
      * split; [reflexivity | lia].
    + exists b1, 1%Z. split; [reflexivity|]. split; [exact Hh|]. split; [exact Ht|].
      right. split; [reflexivity | lia].
Qed.

(** X18: building a bundle.  [OscBundleInitialise] followed by
    [OscBundleAddContents] calls for messages and bundles succeeds exactly
    when the elements, each with the four bytes of its size, fit in
    [MAX_OSC_BUNDLE_ELEMENTS_SIZE]; the bundle then serializes as the header
    [#bundle], the time tag and, for each of the contents in the order of the
    calls, its serialized size as a big-endian int32 and its serialized
    bytes. *)
Theorem built_bundle_wire (b0 : OscBundle) (timeTag : Z) (l : list OscContents) :
  Forall serializable l ->
  let elements := flat_map (fun c => element_wire (contents_wire c)) l in
  exists b rc,
    add_contents (OscBundleInitialise b0 timeTag) l = Some (b, rc) /\
    (rc = 0%Z <-> length elements <= MAX_OSC_BUNDLE_ELEMENTS_SIZE) /\
    (rc = 0%Z ->
     bundle_wire b = bytes OSC_BUNDLE_HEADER 8 ++ big_endian64 timeTag ++ elements).
Proof.
  intros Hf elements.
  destruct (add_contents_ok l (OscBundleInitialise b0 timeTag) Hf) as (b & rc & E & Hh & Ht & H).
  { cbn. lia. }
  exists b, rc. split; [exact E|]. fold elements in H.
  cbn [OscBundleInitialise oscBundleElementsSize oscBundleElements header oscTimeTag plus] in *.
  destruct H as [(-> & Hfit & Hs & Hb)|(-> & Hfull)].
  - split; [tauto|]. intros _. unfold bundle_wire. rewrite Hh, Ht, Hb.
    cbn [bytes seq map app]. f_equal.
  - split; [split; [discriminate | lia] | discriminate].
Qed.

End BundleAdd.

(** ** OscPacket.c: the walk over the contents of a packet *)

Section Walk.
Context {L : Limits}.

Lemma OscTree_induction (P : OscTree -> Prop) :
  (forall m, P (TreeMessage m)) ->
  (forall timeTag elements, Forall P elements -> P (TreeBundle timeTag elements)) ->
  forall t, P t.
Proof.
  intros Hm Hb. fix IH 1. intros [m|timeTag elements]; [apply Hm|]. apply Hb.
  induction elements as [|e elements IHe]; constructor; [apply IH | exact IHe].
Qed.

Lemma no_null_spec (m : Mem) n : no_null m n = true -> forall j, j < n -> m j <> "000"%char.
Proof.
  unfold no_null. rewrite forallb_forall. intros H j Hj E.
  specialize (H (m j)). rewrite E in H. cbn in H.
  assert (Hin : In "000"%char (bytes m n)).
  { rewrite <- E. unfold bytes. apply in_map. apply in_seq. lia. }
  specialize (H Hin). discriminate.
Qed.

Lemma DeconstructContents_S (fuel : nat) (m0 : OscMessage) (b0 : OscBundle)
    (e0 : OscBundleElement) (enclosing : option Z) (source : Mem) (n : nat) :
  DeconstructContents (S fuel) m0 b0 e0 enclosing source n =
  if n =? 0 then Some (1%Z, [])
  else if OSC_CONTENTS_IS_MESSAGE source then
    Some (0%Z, [(enclosing, fst (OscMessageInitialiseFromCharArray m0 source n))])
  else if OSC_CONTENTS_IS_BUNDLE source then
    elements_loop (DeconstructContents fuel m0 b0 e0) fuel
      (fst (OscBundleInitialiseFromCharArray b0 source n)) e0
  else Some (1%Z, []).
Proof. reflexivity. Qed.

(** A source that holds the layout of [OscMessageToCharArray_ok] for a well
    formed message is parsed as that message. *)
Lemma parse_layout (m m1 : OscMessage) (d : Mem) (n : nat) :
  let a := oscAddressPatternLength m in
  let t := oscTypeTagStringLength m in
  let A := terminated a in
  let T := terminated (A + t) in
  n = T + argumentsSize m ->
  a <> 0 -> oscAddressPattern m 0 = OscContentsTypeMessage ->
  (forall j, j < a -> d j = oscAddressPattern m j) ->
  (forall j, a <= j < A -> d j = "000"%char) ->
  (forall j, j < t -> d (A + j) = oscTypeTagString m j) ->
  (forall j, A + t <= j < T -> d j = "000"%char) ->
  (forall j, j < argumentsSize m -> d (T + j) = arguments m j) ->
  oscAddressPatternLength m <= MAX_OSC_ADDRESS_PATTERN_LENGTH ->
  (forall j, j < oscAddressPatternLength m -> oscAddressPattern m j <> "000"%char) ->
  oscAddressPattern m (oscAddressPatternLength m) = "000"%char ->
  oscAddressPattern m (oscAddressPatternLength m - 1) <> ","%char ->
  1 <= oscTypeTagStringLength m <= MAX_OSC_TYPE_TAG_STRING_LENGTH ->
  oscTypeTagString m 0 = ","%char ->
  (forall j, j < oscTypeTagStringLength m -> oscTypeTagString m j <> "000"%char) ->
  oscTypeTagString m (oscTypeTagStringLength m) = "000"%char ->
  argumentsSize m mod 4 = 0 ->
  MIN_OSC_MESSAGE_SIZE <= 8 ->
  n <= MAX_OSC_MESSAGE_SIZE ->
  oscTypeTagStringIndex m = 1 -> argumentsIndex m = 0 ->
  exists m',
    OscMessageInitialiseFromCharArray m1 d n = (m', 0%Z) /\
    message_view m' = message_view m.
Proof.
  intros a t A T Hn Ha0 Hslash F1 F2 F3 F4 F5
         Hamax Hann Hanull Hcomma Ht Ht0 Htnn Htnull Hal Hmin Hmax Hti Hai.
  fold a in Hamax, Hann, Hanull, Hcomma. fold t in Ht, Htnn, Htnull.
  assert (HaA : a < A /\ A mod 4 = 0) by (unfold A, terminated; lia).
  assert (HtT : A + t < T /\ T mod 4 = 0) by (unfold T, terminated; lia).
  unfold OscMessageInitialiseFromCharArray.
  replace (n mod 4 =? 0) with true by (symmetry; apply Nat.eqb_eq; lia).
  replace (n <? MIN_OSC_MESSAGE_SIZE) with false by (symmetry; apply Nat.ltb_ge; lia).
  replace (MAX_OSC_MESSAGE_SIZE <? n) with false by (symmetry; apply Nat.ltb_ge; lia).
  rewrite (F1 0) by lia. rewrite Hslash. cbn [negb Ascii.eqb Bool.eqb OscContentsTypeMessage].
  cbv iota.
  set (mi := fst (OscMessageInitialise m1 [])).
  assert (Hmi : oscAddressPatternLength mi = 0 /\ oscTypeTagStringLength mi = 1 /\
                oscTypeTagString mi 0 = ","%char /\ argumentsSize mi = 0 /\
                oscTypeTagStringIndex mi = 1 /\ argumentsIndex mi = 0).
  { unfold mi. cbn. repeat split. }
  destruct Hmi as (Ma & Mt & Mt0 & Ms & Mti & Mai).
  (* address *)
  destruct (parse_address_loop_ok d n a a 0 mi (n - 1)) as (addr & E1 & Ad1 & _);
    try lia.
  { intros j Hj. rewrite F1 by lia. apply Hann. lia. }
  { rewrite F2 by lia. reflexivity. }
  rewrite E1. cbn [negb Z.eqb]. fsimpl.
  (* comma *)
  rewrite (parse_comma_loop_ok d n A (A + 1 - a) a (n - (a + 1))); try lia.
  2:{ intros j Hj. destruct (Nat.eq_dec j (a - 1)) as [->|Hne].
      - rewrite F1 by lia. exact Hcomma.
      - rewrite F2 by lia. discriminate. }
  2:{ rewrite <- (Nat.add_0_r A), F3 by lia. exact Ht0. }
  cbn [negb Z.eqb].
  (* type tags *)
  match goal with
  | |- context [parse_type_tag_loop ?r d ?i ?mm] =>
      destruct (parse_type_tag_loop_ok d n A t (t - 1) i mm r)
        as (tags & E2 & Tg1 & Tg2); try (fsimpl; lia)
  end.
  { intros j Hj. replace j with (A + (j - A)) by lia. rewrite F3 by lia. apply Htnn. lia. }
  { rewrite F4 by lia. reflexivity. }
  rewrite E2. cbn [negb Z.eqb]. fsimpl.
  (* alignment *)
  rewrite parse_align_loop_ok by (fold T; lia). fold T. cbn [negb Z.eqb].
  eexists. split; [reflexivity|].
  unfold message_view. fsimpl. rewrite Ms, Mti, Mai, Hti, Hai. fold a. fold t.
  replace (0 + (n - T)) with (argumentsSize m) by lia.
  f_equal. f_equal. f_equal. f_equal. f_equal. f_equal. f_equal.
  - apply bytes_ext. intros j Hj. destruct (Nat.eq_dec j a) as [->|Hne].
    + rewrite store_eq. now rewrite Hanull.
    + rewrite store_neq by exact Hne. rewrite Ad1 by lia. apply F1. lia.
  - apply bytes_ext. intros j Hj. destruct (Nat.eq_dec j t) as [->|Hne].
    + rewrite store_eq. now rewrite Htnull.
    + rewrite store_neq by exact Hne. destruct j as [|j].
      * rewrite Tg2 by lia. fsimpl. rewrite Mt0. now rewrite Ht0.
      * rewrite Tg1 by lia. apply F3. lia.
  - apply bytes_ext. intros j Hj.
    rewrite <- (Nat.add_0_l j) at 1. rewrite copy_bytes_in by lia. apply F5. exact Hj.
Qed.

Lemma well_formed_message_spec (m : OscMessage) :
  well_formed_message m = true ->
  let a := oscAddressPatternLength m in
  let t := oscTypeTagStringLength m in
  (1 <= a <= MAX_OSC_ADDRESS_PATTERN_LENGTH) /\
  oscAddressPattern m 0 = OscContentsTypeMessage /\
  (forall j, j < a -> oscAddressPattern m j <> "000"%char) /\
  oscAddressPattern m a = "000"%char /\
  oscAddressPattern m (a - 1) <> ","%char /\
  (1 <= t <= MAX_OSC_TYPE_TAG_STRING_LENGTH) /\
  oscTypeTagString m 0 = ","%char /\
  (forall j, j < t -> oscTypeTagString m j <> "000"%char) /\
  oscTypeTagString m t = "000"%char /\
  argumentsSize m mod 4 = 0 /\
  oscTypeTagStringIndex m = 1 /\ argumentsIndex m = 0 /\
  OscMessageGetSize m <= MAX_OSC_MESSAGE_SIZE.
Proof.
  unfold well_formed_message. cbv zeta. rewrite !andb_true_iff.
  intros ((((((((((((((H1 & H2) & H3) & H4) & H5) & H6) & H7) & H8) & H9) & H10) & H11)
              & H12) & H13) & H14) & H15).
  apply Nat.leb_le in H1, H2, H7, H8, H15. apply Nat.eqb_eq in H12, H13, H14.
  apply Ascii.eqb_eq in H3, H5, H9, H11. apply negb_true_iff, Ascii.eqb_neq in H6.
  repeat split; try assumption; now apply no_null_spec.
Qed.

(** A source that starts with the wire form of a well formed message is
    parsed as that message. *)
Lemma parse_message_wire (m m1 : OscMessage) (source : Mem) :
  well_formed_message m = true ->
  MIN_OSC_MESSAGE_SIZE <= 8 ->
  bytes source (length (message_wire m)) = message_wire m ->
  exists m',
    OscMessageInitialiseFromCharArray m1 source (length (message_wire m)) = (m', 0%Z) /\
    message_view m' = message_view m.
Proof.
  intros Hwf Hmin Hsrc. apply well_formed_message_spec in Hwf. cbv zeta in Hwf.
  destruct Hwf as (Ha & H0 & Hann & Hanull & Hcomma & Ht & Ht0 & Htnn & Htnull & Hal
                   & Hti & Hai & Hmax).
  pose proof (OscMessageToCharArray_fits m source (OscMessageGetSize m) ltac:(lia) H0
                (Nat.le_refl _)) as Hrc.
  destruct (OscMessageToCharArray m source (OscMessageGetSize m)) as [[d n] rc] eqn:E.
  cbn [snd] in Hrc. subst rc.
  pose proof (OscMessageToCharArray_wire_eq _ _ _ _ _ E) as Hw.
  assert (Hn : n = length (message_wire m)) by (rewrite <- Hw; now rewrite bytes_length).
  rewrite <- Hn in *. rewrite <- Hw in Hsrc.
  pose proof (bytes_eq_inv _ _ _ Hsrc) as Hsame.
  apply OscMessageToCharArray_ok in E. cbv zeta in E.
  destruct E as (En & _ & Ea0 & _ & F1 & F2 & F3 & F4 & F5).
  assert (HaA : oscAddressPatternLength m < terminated (oscAddressPatternLength m))
    by (unfold terminated; lia).
  assert (HtT : terminated (oscAddressPatternLength m) + oscTypeTagStringLength m
                < terminated (terminated (oscAddressPatternLength m)
                              + oscTypeTagStringLength m))
    by (unfold terminated; lia).
  apply (parse_layout m m1 source n); auto; try lia.
  - intros j Hj. rewrite Hsame by lia. now apply F1.
  - intros j Hj. rewrite Hsame by lia. now apply F2.
  - intros j Hj. rewrite Hsame by lia. now apply F3.
  - intros j Hj. rewrite Hsame by lia. now apply F4.
  - intros j Hj. rewrite Hsame by lia. now apply F5.
  - rewrite Hn, length_message_wire. exact Hmax.
Qed.

Lemma length_element_wire (w : list ascii) : length (element_wire w) = 4 + length w.
Proof. unfold element_wire. now rewrite length_app. Qed.

Lemma length_elements_aligned (elements : list OscTree) :
  Forall wire_size_ok elements ->
  length (flat_map (fun e => element_wire (tree_wire e)) elements) mod 4 = 0.
Proof.
  induction 1 as [|e elements (_ & He & _) _ IH]; [reflexivity|].
  cbn [flat_map]. rewrite length_app, length_element_wire. lia.
Qed.

Lemma tree_wire_size (t : OscTree) :
  (Z.of_nat MAX_OSC_MESSAGE_SIZE < 2 ^ 31)%Z ->
  (Z.of_nat MAX_OSC_BUNDLE_SIZE < 2 ^ 31)%Z ->
  tree_ok t = true -> wire_size_ok t.
Proof.
  intros Hm Hb. induction t as [m|timeTag elements IH] using OscTree_induction;
    cbn [tree_ok]; intros Hok; unfold wire_size_ok.
  - apply well_formed_message_spec in Hok. cbv zeta in Hok.
    cbn [tree_wire]. rewrite length_message_wire.
    pose proof (OscMessageGetSize_terminated m) as Hs. unfold terminated in Hs. lia.
  - rewrite !andb_true_iff in Hok. destruct Hok as (((_ & _) & Hlen) & Hall).
    apply Nat.leb_le in Hlen. rewrite forallb_forall in Hall.
    assert (Hel : Forall wire_size_ok elements).
    { rewrite Forall_forall in *. intros e He. apply IH; auto. }
    pose proof (length_elements_aligned elements Hel) as Hal.
    cbn [tree_wire] in *. rewrite !length_app, bytes_length in *.
    cbn [length big_endian64] in *. lia.
Qed.

(** [OscBundleGetBundleElement] on a bundle whose element region holds, at
    the read index, the element [w]. *)
Lemma OscBundleGetBundleElement_element (b : OscBundle) (e : OscBundleElement) (w : list ascii) :
  let i := oscBundleElementsIndex b in
  bytes (offset (oscBundleElements b) i) (length (element_wire w)) = element_wire w ->
  0 < length w -> length w mod 4 = 0 -> (Z.of_nat (length w) < 2 ^ 31)%Z ->
  i + 4 + length w <= oscBundleElementsSize b ->
  OscBundleIsBundleElementAvailable b = true /\
  exists b' e',
    OscBundleGetBundleElement b e = (b', e', 0%Z) /\
    oscTimeTag b' = oscTimeTag b /\
    oscBundleElements b' = oscBundleElements b /\
    oscBundleElementsSize b' = oscBundleElementsSize b /\
    oscBundleElementsIndex b' = i + 4 + length w /\
    elementContents e' = offset (oscBundleElements b) (i + 4) /\
    elementSize e' = Z.of_nat (length w).
Proof.
  intros i Hb Hpos Hal H31 Hfit.
  assert (Hat : forall j, j < 4 + length w ->
                  oscBundleElements b (i + j) = nth j (element_wire w) "000"%char).
  { intros j Hj. apply bytes_offset_nth; [exact Hb|]. rewrite length_element_wire. lia. }
  assert (Hsize : int32_of_bytes (oscBundleElements b i) (oscBundleElements b (i + 1))
                    (oscBundleElements b (i + 2)) (oscBundleElements b (i + 3))
                  = Z.of_nat (length w)).
  { rewrite <- (Nat.add_0_r i) at 1. rewrite !Hat by lia. unfold element_wire, big_endian32.
    cbn [app nth]. apply int32_of_big_endian. lia. }
  split.
  - unfold OscBundleIsBundleElementAvailable. fold i. apply Nat.ltb_lt. lia.
  - unfold OscBundleGetBundleElement. fold i. rewrite Hsize.
    replace (oscBundleElementsSize b <=? i + 4) with false
      by (symmetry; apply Nat.leb_gt; lia).
    replace (Z.of_nat (length w) <? 0)%Z with false by (symmetry; apply Z.ltb_ge; lia).
    replace (Z.of_nat (length w) mod 4 =? 0)%Z with true
      by (symmetry; apply Z.eqb_eq; lia).
    cbn [negb]. bsimpl.
    replace (Z.of_nat (oscBundleElementsSize b) <? Z.of_nat (i + 4) + Z.of_nat (length w))%Z
      with false by (symmetry; apply Z.ltb_ge; lia).
    eexists. eexists. split; [reflexivity|]. bsimpl.
    repeat split. lia.
Qed.

(** The loop over the elements of a bundle whose element region holds, from
    the read index on, the elements [l], when [walk] delivers the messages of
    each of them. *)
Lemma elements_loop_ok (walk : option Z -> Mem -> nat -> option (Z * list MessageCall))
    (timeTag : Z) (l : list OscTree) : forall turns (b : OscBundle) (e : OscBundleElement),
  let i := oscBundleElementsIndex b in
  let flat := flat_map (fun t => element_wire (tree_wire t)) l in
  oscTimeTag b = timeTag ->
  bytes (offset (oscBundleElements b) i) (length flat) = flat ->
  (l <> [] -> oscBundleElementsSize b = i + length flat) ->
  (l = [] -> oscBundleElementsSize b <= i + 4) ->
  length l < turns ->
  Forall wire_size_ok l ->
  Forall (fun t => forall source,
            bytes source (length (tree_wire t)) = tree_wire t ->
            exists calls,
              walk (Some timeTag) source (length (tree_wire t)) = Some (0%Z, calls) /\
              map call_view calls = tree_calls (Some timeTag) t) l ->
  exists calls,
    elements_loop walk turns b e = Some (0%Z, calls) /\
    map call_view calls = flat_map (tree_calls (Some timeTag)) l.
Proof.
  induction l as [|t l IH]; intros turns b e i flat Htt Hflat Hsize Hempty Hturns Hok Hwalk;
    subst i flat.
  - destruct turns as [|turns]; [cbn in Hturns; lia|]. cbn [elements_loop].
    unfold OscBundleIsBundleElementAvailable.
    replace (oscBundleElementsIndex b + 4 <? oscBundleElementsSize b) with false
      by (symmetry; apply Nat.ltb_ge; apply Hempty; reflexivity).
    cbn [negb]. exists []. split; reflexivity.
  - destruct turns as [|turns]; [cbn in Hturns; lia|]. cbn [length] in Hturns.
    pose proof (Forall_inv Hok) as (Hpos & Hal & H31).
    pose proof (Forall_inv_tail Hok) as Hok'.
    pose proof (Forall_inv Hwalk) as Hw. pose proof (Forall_inv_tail Hwalk) as Hwalk'.
    cbv beta in Hw.
    specialize (Hsize ltac:(discriminate)).
    cbn [flat_map] in *. rewrite length_app in *.
    set (w := tree_wire t) in *.
    set (rest := flat_map (fun t => element_wire (tree_wire t)) l) in *.
    rewrite <- length_app in Hflat. apply bytes_app_inv in Hflat.
    destruct Hflat as [Hel Hrest]. rewrite length_element_wire in Hsize, Hrest.
    destruct (OscBundleGetBundleElement_element b e w Hel Hpos Hal H31 ltac:(lia))
      as (Hav & b' & e' & Hget & Btt & Bel & Bsz & Bix & Ec & Es).
    cbn [elements_loop]. rewrite Hav, Hget. cbn [negb Z.eqb].
    rewrite Btt, Htt, Ec, Es, Nat2Z.id.
    destruct (Hw (offset (oscBundleElements b) (oscBundleElementsIndex b + 4))) as (calls1 & -> & Hc1).
    { pose proof Hel as Hel'. unfold element_wire in Hel'.
      rewrite length_app in Hel'.
      change (length (big_endian32 (Z.of_nat (length w))) + length w)
        with (length (big_endian32 (Z.of_nat (length w)) ++ w)) in Hel'.
      apply bytes_app_inv in Hel'. destruct Hel' as [_ Hx].
      rewrite offset_offset in Hx. exact Hx. }
    cbn [negb Z.eqb].
    destruct (IH turns b' e') as (calls2 & -> & Hc2).
    + congruence.
    + rewrite Bel, Bix. fold rest. rewrite offset_offset in Hrest.
      etransitivity; [|exact Hrest]. apply bytes_ext. intros j _. unfold offset.
      f_equal. lia.
    + intros _. rewrite Bsz, Bix. fold rest. lia.
    + intros ->. rewrite Bsz, Bix. subst rest. cbn [flat_map length] in *. lia.
    + lia.
    + exact Hok'.
    + exact Hwalk'.
    + exists (calls1 ++ calls2). split; [reflexivity|].
      rewrite map_app, Hc1, Hc2. reflexivity.
Qed.

Lemma tree_fuel_pos (t : OscTree) : 1 <= tree_fuel t.
Proof. destruct t; cbn [tree_fuel]; lia. Qed.

Lemma list_sum_fuel (l : list OscTree) :
  length l <= list_sum (map tree_fuel l) /\
  forall t, In t l -> tree_fuel t <= list_sum (map tree_fuel l).
Proof.
  induction l as [|x l [IH1 IH2]]; [split; [cbn; lia | intros t []]|].
  change (list_sum (map tree_fuel (x :: l)))
    with (tree_fuel x + list_sum (map tree_fuel l)).
  cbn [length]. pose proof (tree_fuel_pos x). split; [lia|].
  intros t [->|Hin]; [lia|]. specialize (IH2 t Hin). lia.
Qed.

Lemma OscBundleToCharArray_success (b : OscBundle) (destination : Mem) (destinationSize : nat) :
  snd (OscBundleToCharArray b destination destinationSize) = 0%Z ->
  OscBundleGetSize b <= destinationSize.
Proof.
  unfold OscBundleToCharArray, OscBundleGetSize.
  destruct (Nat.ltb_spec destinationSize (8 + 8 + oscBundleElementsSize b));
    [discriminate | lia].
Qed.

(** What [OscPacketInitialiseFromCharArray] leaves in the packet. *)
Lemma OscPacketInitialiseFromCharArray_ok (p0 : OscPacket) (source : Mem) (n : nat) :
  snd (OscPacketInitialiseFromCharArray p0 source n) = 0%Z ->
  n <= MAX_OSC_PACKET_SIZE /\
  size (fst (OscPacketInitialiseFromCharArray p0 source n)) = n /\
  bytes (contents (fst (OscPacketInitialiseFromCharArray p0 source n))) n = bytes source n /\
  processMessage (fst (OscPacketInitialiseFromCharArray p0 source n)) = false.
Proof.
  unfold OscPacketInitialiseFromCharArray.
  destruct (Nat.ltb_spec MAX_OSC_PACKET_SIZE n); [discriminate|]. intros _. bsimpl.
  split; [lia|]. split; [reflexivity|]. split; [|reflexivity].
  change n with (0 + n) at 2. rewrite bytes_copy_bytes, bytes_offset_0. reflexivity.
Qed.

Lemma holds_tree_elements (l : list OscContents) (elements : list OscTree) :
  Forall2 holds_tree l elements ->
  Forall serializable l /\
  flat_map (fun c => element_wire (contents_wire c)) l =
  flat_map (fun e => element_wire (tree_wire e)) elements.
Proof.
  induction 1 as [|c t l elements [Hs Hw] _ [IH1 IH2]]; [split; [constructor | reflexivity]|].
  split; [constructor; assumption|]. cbn [flat_map]. now rewrite Hw, IH2.
Qed.

Lemma holds_tree_message (m : OscMessage) :
  serializable (ContentsMessage m) -> holds_tree (ContentsMessage m) (TreeMessage m).
Proof. intros H. split; [exact H | reflexivity]. Qed.

(** A bundle built from structures that hold contents holds the bundle of
    these contents. *)
Lemma built_bundle_holds_tree (b0 : OscBundle) (timeTag : Z) (l : list OscContents)
    (elements : list OscTree) :
  let built := add_contents (OscBundleInitialise b0 timeTag) l in
  Forall2 holds_tree l elements ->
  option_map snd built = Some 0%Z ->
  holds_tree (ContentsBundle match built with Some (b, _) => b | None => b0 end)
             (TreeBundle timeTag elements).
Proof.
  intros built Hh Hbuilt. subst built.
  destruct (holds_tree_elements l elements Hh) as [Hser Hflat].
  destruct (add_contents_ok l (OscBundleInitialise b0 timeTag) Hser) as (b' & rc & E & Bh & Bt & H).
  { cbn. lia. }
  rewrite E in *. cbn [option_map snd] in Hbuilt. injection Hbuilt as ->.
  destruct H as [(_ & _ & Bs & Bb)|(Hx & _)]; [|discriminate].
  cbn [OscBundleInitialise oscBundleElementsSize oscBundleElements header oscTimeTag plus]
    in Bh, Bt, Bs, Bb.
  split.
  - cbn [serializable]. rewrite Bh. reflexivity.
  - cbn [contents_wire]. unfold bundle_wire. rewrite Bh, Bt, Bb, Hflat.
    cbn [tree_wire bytes seq map app]. f_equal.
Qed.

Section Limits31.
Hypothesis min_message : MIN_OSC_MESSAGE_SIZE <= 8.
Hypothesis min_bundle : MIN_OSC_BUNDLE_SIZE <= 16.
Hypothesis max_message : (Z.of_nat MAX_OSC_MESSAGE_SIZE < 2 ^ 31)%Z.
Hypothesis max_bundle : (Z.of_nat MAX_OSC_BUNDLE_SIZE < 2 ^ 31)%Z.

(** [DeconstructContents] on a source that holds the wire form of well
    formed contents calls the handler for each message, in order, and
    returns 0. *)
Lemma DeconstructContents_tree (m0 : OscMessage) (b0 : OscBundle) (e0 : OscBundleElement)
    (fuel : nat) : forall (t : OscTree) (enclosing : option Z) (source : Mem),
  tree_fuel t <= fuel ->
  tree_ok t = true ->
  bytes source (length (tree_wire t)) = tree_wire t ->
  exists calls,
    DeconstructContents fuel m0 b0 e0 enclosing source (length (tree_wire t))
      = Some (0%Z, calls) /\
    map call_view calls = tree_calls enclosing t.
Proof.
  induction fuel as [|fuel IH]; intros t enclosing source Hfuel Hok Hsrc.
  { pose proof (tree_fuel_pos t). lia. }
  pose proof (tree_wire_size t max_message max_bundle Hok) as (Hpos & Hal & H31).
  rewrite DeconstructContents_S.
  replace (length (tree_wire t) =? 0) with false by (symmetry; apply Nat.eqb_neq; lia).
  assert (H0 : source 0 = nth 0 (tree_wire t) "000"%char).
  { rewrite <- Hsrc. symmetry. apply bytes_nth. exact Hpos. }
  destruct t as [m|timeTag elements].
  - cbn [tree_wire tree_ok tree_calls] in *.
    pose proof (well_formed_message_spec m Hok) as Hwf. cbv zeta in Hwf.
    destruct Hwf as (Ha & Hslash & _).
    assert (Hs0 : source 0 = OscContentsTypeMessage).
    { rewrite H0. unfold message_wire.
      rewrite app_nth1 by (rewrite bytes_length; lia). rewrite bytes_nth by lia.
      exact Hslash. }
    unfold OSC_CONTENTS_IS_MESSAGE. rewrite Hs0, Ascii.eqb_refl.
    destruct (parse_message_wire m m0 source Hok min_message Hsrc) as (m' & -> & Hv).
    eexists. split; [reflexivity|]. cbn [map call_view fst snd]. unfold call_view.
    cbn [fst snd]. now rewrite Hv.
  - cbn [tree_ok] in Hok. rewrite !andb_true_iff in Hok.
    destruct Hok as (((Ht0 & Ht1) & Hlen) & Hall).
    apply Z.leb_le in Ht0. apply Z.ltb_lt in Ht1. apply Nat.leb_le in Hlen.
    rewrite forallb_forall in Hall.
    cbn [tree_fuel] in Hfuel. destruct (list_sum_fuel elements) as [Hf1 Hf2].
    cbn [tree_wire tree_calls] in *.
    set (flat := flat_map (fun e => element_wire (tree_wire e)) elements) in *.
    rewrite !length_app, bytes_length in *. cbn [length big_endian64] in *.
    assert (Hat : forall j, j < 8 + (8 + length flat) ->
                    source j = nth j (bytes OSC_BUNDLE_HEADER 8 ++
                                      big_endian64 timeTag ++ flat) "000"%char).
    { intros j Hj. rewrite <- Hsrc. symmetry. now apply bytes_nth. }
    unfold OSC_CONTENTS_IS_MESSAGE, OSC_CONTENTS_IS_BUNDLE. rewrite H0.
    cbn [bytes seq map app nth OSC_BUNDLE_HEADER mem_of Ascii.eqb Bool.eqb
         OscContentsTypeMessage OscContentsTypeBundle].
    destruct (OscBundleInitialiseFromCharArray_ok b0 source (8 + (8 + length flat)))
      as (b & -> & _ & Btt & Bsz & Bel & Bix); [lia | lia | |].
    { rewrite H0. reflexivity. }
    cbn [fst].
    assert (Htt : oscTimeTag b = timeTag).
    { rewrite Btt.
      replace (bytes (offset source 8) 8) with (big_endian64 timeTag).
      - rewrite uint64_of_bytes. apply Z.mod_small. lia.
      - apply nth_ext with (d := "000"%char) (d' := "000"%char);
          [rewrite bytes_length; reflexivity|].
        intros j Hj. cbn [length big_endian64] in Hj. rewrite bytes_nth by exact Hj.
        unfold offset. rewrite Hat by lia.
        rewrite app_nth2 by (rewrite bytes_length; lia). rewrite bytes_length.
        rewrite app_nth1 by (cbn [length big_endian64]; lia). f_equal. lia. }
    assert (Hel : Forall wire_size_ok elements).
    { apply Forall_forall. intros e He. apply tree_wire_size; auto. }
    destruct (elements_loop_ok (DeconstructContents fuel m0 b0 e0) timeTag elements
                fuel b e0) as (calls & Hloop & Hcalls); try assumption.
    + rewrite Bix. fold flat. apply nth_ext with (d := "000"%char) (d' := "000"%char);
        [apply bytes_length|].
      intros j Hj. rewrite bytes_length in Hj. rewrite bytes_nth by exact Hj.
      unfold offset. cbn [plus]. rewrite Bel by lia. rewrite Hat by lia.
      rewrite app_nth2 by (rewrite bytes_length; lia). rewrite bytes_length.
      rewrite app_nth2 by (cbn [length big_endian64]; lia). cbn [length big_endian64].
      f_equal. lia.
    + intros Hne. rewrite Bix, Bsz. fold flat. cbn [plus].
      assert (0 < length flat); [|lia].
      destruct elements as [|e elements]; [congruence|].
      unfold flat. cbn [flat_map]. rewrite length_app, length_element_wire. lia.
    + intros ->. rewrite Bix, Bsz. unfold flat. cbn [flat_map length]. lia.
    + lia.
    + apply Forall_forall. intros e He src Hsrc'.
      apply IH; auto. specialize (Hf2 e He). lia.
    + exists calls. split; [exact Hloop | exact Hcalls].
Qed.

Lemma OscPacketProcessMessages_tree (fuel : nat) (m0 : OscMessage) (b0 : OscBundle)
    (e0 : OscBundleElement) (p : OscPacket) (t : OscTree) :
  processMessage p = true ->
  bytes (contents p) (size p) = tree_wire t ->
  tree_ok t = true ->
  tree_fuel t <= fuel ->
  exists calls,
    OscPacketProcessMessages fuel m0 b0 e0 p = Some (0%Z, calls) /\
    map call_view calls = tree_calls None t.
Proof.
  intros Hp Hb Hok Hfuel. unfold OscPacketProcessMessages. rewrite Hp. cbn [negb].
  assert (Hn : size p = length (tree_wire t)) by (rewrite <- Hb; now rewrite bytes_length).
  rewrite Hn in *. now apply DeconstructContents_tree.
Qed.

(** X19: the walk over a received packet.  When the bytes of a packet of
    at most [MAX_OSC_PACKET_SIZE] bytes are the wire form of a well formed message, or of a bundle of well formed
    messages and bundles nested to any depth, and every message and bundle
    among them fits the structure that receives it (at most
    [MAX_ARGUMENTS_SIZE] argument bytes, at most
    [MAX_OSC_BUNDLE_ELEMENTS_SIZE] element bytes), [OscPacketProcessMessages]
    returns 0 and calls the handler exactly once for each message, in the
    order of the bytes, with a message equal to the one on the wire and with
    the time tag of the bundle that holds it (the null pointer for a message
    that is the packet itself). *)
Theorem packet_messages_delivered (fuel : nat) (m0 : OscMessage) (b0 : OscBundle)
    (e0 : OscBundleElement) (p : OscPacket) (t : OscTree) :
  processMessage p = true ->
  size p <= MAX_OSC_PACKET_SIZE ->
  bytes (contents p) (size p) = tree_wire t ->
  tree_ok t = true ->
  tree_fits t = true ->
  tree_fuel t <= fuel ->
  exists calls,
    OscPacketProcessMessages fuel m0 b0 e0 p = Some (0%Z, calls) /\
    map call_view calls = tree_calls None t.
Proof.
  intros Hp _ Hb Hok _ Hfuel. unfold OscPacketProcessMessages. rewrite Hp. cbn [negb].
  assert (Hn : size p = length (tree_wire t)) by (rewrite <- Hb; now rewrite bytes_length).
  rewrite Hn in *. now apply DeconstructContents_tree.
Qed.

(** X20: from the sender to the handler.  A bundle is built with
    [OscBundleInitialise] and [OscBundleAddContents] calls for messages and
    for bundles built in the same way, serialized with [OscBundleToCharArray],
    and the bytes are loaded into a packet with
    [OscPacketInitialiseFromCharArray].  When all these calls return 0 and the
    contents are well formed, [OscPacketProcessMessages] returns 0 and calls
    the handler once for each message, in the order in which the contents were
    added, with an equal message and with the time tag of the bundle that holds
    it. *)
Theorem built_bundle_delivered (b0 b1 : OscBundle) (m0 : OscMessage) (e0 : OscBundleElement)
    (p0 : OscPacket) (timeTag : Z) (l : list OscContents) (elements : list OscTree)
    (destination : Mem) (destinationSize fuel : nat) :
  let built := add_contents (OscBundleInitialise b0 timeTag) l in
  let b := match built with Some (b, _) => b | None => b0 end in
  let r := OscBundleToCharArray b destination destinationSize in
  let loaded := OscPacketInitialiseFromCharArray p0 (fst (fst r)) (snd (fst r)) in
  Forall2 holds_tree l elements ->
  tree_ok (TreeBundle timeTag elements) = true ->
  option_map snd built = Some 0%Z ->
  snd r = 0%Z ->
  snd loaded = 0%Z ->
  tree_fuel (TreeBundle timeTag elements) <= fuel ->
  exists calls,
    OscPacketProcessMessages fuel m0 b1 e0 (set_processMessage (fst loaded))
      = Some (0%Z, calls) /\
    map call_view calls = flat_map (tree_calls (Some timeTag)) elements.
Proof.
  intros built b r loaded Hh Hok Hbuilt Hr Hloaded Hfuel.
  destruct (built_bundle_holds_tree b0 timeTag l elements Hh Hbuilt) as [_ Hwire].
  fold built in Hwire. fold b in Hwire. cbn [contents_wire] in Hwire.
  pose proof (OscBundleToCharArray_success b destination destinationSize Hr) as Hfit.
  destruct (OscBundleToCharArray_fits b destination destinationSize Hfit)
    as (d & Er & Hd & _).
  subst loaded. fold r in Er. rewrite Er in *. cbn [fst snd] in *.
  destruct (OscPacketInitialiseFromCharArray_ok _ _ _ Hloaded) as (_ & Ls & Lb & _).
  apply (OscPacketProcessMessages_tree fuel m0 b1 e0 _ (TreeBundle timeTag elements)); auto.
  cbn [set_processMessage contents size]. rewrite Ls, Lb, Hd. exact Hwire.
Qed.

End Limits31.

(** X21: [OscPacketInitialiseFromCharArray] succeeds exactly when the
    source is at most [MAX_OSC_PACKET_SIZE] bytes long; the packet then holds
    the bytes of the source and has no handler; otherwise its size is 0. *)
Theorem OscPacketInitialiseFromCharArray_packet (p0 : OscPacket) (source : Mem) (n : nat) :
  let r := OscPacketInitialiseFromCharArray p0 source n in
  (snd r = 0%Z <-> n <= MAX_OSC_PACKET_SIZE) /\
  (snd r = 0%Z ->
   size (fst r) = n /\ bytes (contents (fst r)) n = bytes source n /\
   processMessage (fst r) = false) /\
  (snd r <> 0%Z -> snd r = 1%Z /\ size (fst r) = 0).
Proof.
  intros r. subst r. split; [|split].
  - split.
    + intros H. exact (proj1 (OscPacketInitialiseFromCharArray_ok _ _ _ H)).
    + intros H. unfold OscPacketInitialiseFromCharArray.
      now replace (MAX_OSC_PACKET_SIZE <? n) with false by (symmetry; apply Nat.ltb_ge; lia).
  - intros H. exact (proj2 (OscPacketInitialiseFromCharArray_ok _ _ _ H)).
  - unfold OscPacketInitialiseFromCharArray.
    destruct (MAX_OSC_PACKET_SIZE <? n); cbn [fst snd size]; [auto | congruence].
Qed.

End Walk.

Lemma bundle_round_trip_witness :
  let r := OscBundleToCharArray inner_bundle zeros 1472 in
  let p := OscBundleInitialiseFromCharArray (L := udp_limits) blank_bundle
             (fst (fst r)) (snd (fst r)) in
  snd p = 0%Z /\ bundle_view (fst p) = bundle_view inner_bundle /\
  oscBundleElementsIndex (fst p) = 0.
Proof.
  apply (bundle_round_trip (L := udp_limits) inner_bundle blank_bundle zeros 1472).
  - reflexivity.
  - reflexivity.
  - vm_compute. split; [discriminate | reflexivity].
  - vm_compute. lia.
  - reflexivity.
  - vm_compute. lia.
Defined.

Lemma OscBundleAddContents_appends_witness :
  let b := OscBundleInitialise blank_bundle 0 in
  let c := ContentsMessage example_message in
  exists b' rc,
    OscBundleAddContents (L := udp_limits) b c = Some (b', rc) /\
    (rc = 0%Z <->
     oscBundleElementsSize b + 4 + length (contents_wire c)
       <= MAX_OSC_BUNDLE_ELEMENTS_SIZE (Limits := udp_limits)) /\
    (rc = 0%Z ->
     bundle_view b' =
       (bytes (header b) 8, oscTimeTag b,
        bytes (oscBundleElements b) (oscBundleElementsSize b) ++ element_wire (contents_wire c),
        oscBundleElementsSize b + 4 + length (contents_wire c))) /\
    (rc <> 0%Z -> rc = 1%Z /\ bundle_view b' = bundle_view b).
Proof.
  intros b c. apply (OscBundleAddContents_appends (L := udp_limits) b c).
  split; [vm_compute; lia | reflexivity].
Defined.

Lemma built_bundle_wire_witness :
  let l := [ContentsMessage example_message; ContentsMessage sample_message] in
  let elements := flat_map (fun c => element_wire (contents_wire c)) l in
  exists b rc,
    add_contents (L := udp_limits) (OscBundleInitialise blank_bundle 5) l = Some (b, rc) /\
    (rc = 0%Z <-> length elements <= MAX_OSC_BUNDLE_ELEMENTS_SIZE (Limits := udp_limits)) /\
    (rc = 0%Z ->
     bundle_wire b = bytes OSC_BUNDLE_HEADER 8 ++ big_endian64 5 ++ elements).
Proof.
  intros l. apply (built_bundle_wire (L := udp_limits) blank_bundle 5 l).
  repeat constructor; try (vm_compute; lia).
Defined.

Lemma packet_messages_delivered_witness :
  let t := TreeBundle 5 sample_trees in
  let p := mkOscPacket (mem_of (tree_wire t)) (length (tree_wire t)) true in
  exists calls,
    OscPacketProcessMessages (L := udp_limits) 10 blank_message blank_bundle blank_element p
      = Some (0%Z, calls) /\
    map call_view calls = tree_calls None t.
Proof.
  intros t p.
  apply (packet_messages_delivered (L := udp_limits)).
  - vm_compute. lia.
  - vm_compute. lia.
  - reflexivity.
  - reflexivity.
  - reflexivity.
  - vm_compute. lia.
  - vm_compute. reflexivity.
  - vm_compute. reflexivity.
  - vm_compute. reflexivity.
  - vm_compute. lia.
Defined.

Lemma built_bundle_delivered_witness :
  let built := add_contents (L := udp_limits) (OscBundleInitialise blank_bundle 5)
                 sample_contents in
  let b := match built with Some (b, _) => b | None => blank_bundle end in
  let r := OscBundleToCharArray b zeros 1472 in
  let loaded := OscPacketInitialiseFromCharArray (L := udp_limits) blank_packet
                  (fst (fst r)) (snd (fst r)) in
  exists calls,
    OscPacketProcessMessages (L := udp_limits) 10 blank_message blank_bundle blank_element
      (set_processMessage (fst loaded)) = Some (0%Z, calls) /\
    map call_view calls = flat_map (tree_calls (Some 5%Z)) sample_trees.
Proof.
  apply (built_bundle_delivered (L := udp_limits)).
  - vm_compute. lia.
  - vm_compute. lia.
  - reflexivity.
  - reflexivity.
  - unfold sample_contents, sample_trees.
    repeat (apply Forall2_cons || apply Forall2_nil).
    + apply holds_tree_message; split; [vm_compute; lia | reflexivity].
    + apply (built_bundle_holds_tree blank_bundle 7 [ContentsMessage sample_message]
               [TreeMessage sample_message]).
      * repeat (apply Forall2_cons || apply Forall2_nil).
        apply holds_tree_message; split; [vm_compute; lia | reflexivity].
      * reflexivity.
    + apply holds_tree_message; split; [vm_compute; lia | reflexivity].
  - vm_compute. reflexivity.
  - reflexivity.
  - reflexivity.
  - reflexivity.
  - vm_compute. lia.
Defined.

(** ** The messages that the library builds *)

Section BuiltMessages.
Context {L : Limits}.

Lemma no_null_intro (m : Mem) n :
  (forall j, j < n -> m j <> "000"%char) -> no_null m n = true.
Proof.
  intros H. unfold no_null. apply forallb_forall. intros c Hc.
  unfold bytes in Hc. apply in_map_iff in Hc. destruct Hc as (j & <- & Hj).
  apply in_seq in Hj. apply negb_true_iff, Ascii.eqb_neq, H. lia.
Qed.

Lemma well_formed_message_intro (m : OscMessage) :
  let a := oscAddressPatternLength m in
  let t := oscTypeTagStringLength m in
  1 <= a <= MAX_OSC_ADDRESS_PATTERN_LENGTH ->
  oscAddressPattern m 0 = OscContentsTypeMessage ->
  (forall j, j < a -> oscAddressPattern m j <> "000"%char) ->
  oscAddressPattern m a = "000"%char ->
  oscAddressPattern m (a - 1) <> ","%char ->
  1 <= t <= MAX_OSC_TYPE_TAG_STRING_LENGTH ->
  oscTypeTagString m 0 = ","%char ->
  (forall j, j < t -> oscTypeTagString m j <> "000"%char) ->
  oscTypeTagString m t = "000"%char ->
  argumentsSize m mod 4 = 0 ->
  oscTypeTagStringIndex m = 1 -> argumentsIndex m = 0 ->
  OscMessageGetSize m <= MAX_OSC_MESSAGE_SIZE ->
  well_formed_message m = true.
Proof.
  intros a t [H1 H2] H3 H4 H5 H6 [H7 H8] H9 H10 H11 H12 H13 H14 H15.
  unfold well_formed_message. cbv zeta. fold a. fold t.
  rewrite !andb_true_iff. repeat split;
    try (apply Nat.leb_le; assumption); try (apply Nat.eqb_eq; assumption);
    try (apply Ascii.eqb_eq; assumption); try (apply no_null_intro; assumption).
  apply negb_true_iff, Ascii.eqb_neq. exact H6.
Qed.

Lemma last_nth (l : list ascii) (d d' : ascii) :
  l <> [] -> last l d = nth (length l - 1) l d'.
Proof.
  intros H. rewrite nth_pred_last by exact H.
  clear - H. induction l as [|x l IH]; [congruence|].
  destruct l as [|y l]; [reflexivity|]. cbn [last] in *. apply IH. discriminate.
Qed.

(** X22: the messages that the library builds are well formed.  When
    [OscMessageInitialise] with a non-empty address that does not end with a
    comma and the [OscMessageAdd...] calls that follow all return 0, the
    message is well formed: it has a null-terminated address pattern that
    starts with ['/'], a null-terminated type tag string that starts with a
    comma, argument bytes whose size is a multiple of 4, and read indexes at
    the first argument. *)
Theorem build_message_well_formed (m0 : OscMessage) (address : list ascii)
    (l : list OscArgument) :
  let m := fst (build_message m0 address l) in
  snd (build_message m0 address l) = 0%Z ->
  address <> [] ->
  Forall (fun c => c <> "000"%char) address ->
  last address "/"%char <> ","%char ->
  Forall argument_ok l ->
  MAX_NUMBER_OF_ARGUMENTS < MAX_OSC_TYPE_TAG_STRING_LENGTH ->
  OscMessageGetSize m <= MAX_OSC_MESSAGE_SIZE ->
  well_formed_message m = true.
Proof.
  intros m Hb Hne Hnn Hlast Hok Htt Hsize. subst m. unfold build_message in *.
  destruct (OscMessageInitialise m0 address) as [mi rc] eqn:EI.
  destruct (Z.eqb_spec rc 0) as [->|Hrc]; [|cbn [snd] in Hb; congruence].
  destruct (add_arguments mi l) as [m rc] eqn:EA. cbn [fst snd] in *. subst rc.
  pose proof EI as EI'. apply OscMessageInitialise_ok in EI'; [|exact Hnn].
  destruct EI' as (I1 & I2 & I3 & I4 & I5 & I6 & I7).
  destruct (add_arguments_ok l [] mi m EA Hok I5) as (K1 & K2 & K3 & K4 & K5 & K6).
  cbn [app] in K1, K2. pose proof K1 as (H1 & H2 & H3 & H4 & H5).
  assert (Hlen : 1 <= length address) by (destruct address; [congruence | cbn; lia]).
  assert (Haddr : forall j, j < length address ->
                    oscAddressPattern m j = nth j address "000"%char).
  { intros j Hj. rewrite K3.
    rewrite <- (bytes_nth (oscAddressPattern mi) (length address) j "000"%char Hj).
    now rewrite I3. }
  assert (Htag : forall j, j < S (length l) ->
                   oscTypeTagString m j = nth j (","%char :: map argument_tag l) "000"%char).
  { intros j Hj.
    rewrite <- (bytes_nth (oscTypeTagString m) (S (length l)) j "000"%char Hj).
    now rewrite H2. }
  assert (Hslash : oscAddressPattern m 0 = OscContentsTypeMessage).
  { rewrite Haddr by lia. destruct address as [|c address]; [congruence|]. cbn [nth].
    pose proof (Forall_inv Hnn) as Hc. cbv beta in Hc.
    revert EI. unfold OscMessageInitialise. cbn [hd].
    apply Ascii.eqb_neq in Hc. rewrite Hc. cbn [negb].
    unfold OscMessageSetAddressPattern, OscMessageAppendAddressPattern. cbn [hd].
    destruct (Ascii.eqb_spec c OscContentsTypeMessage) as [->|]; [reflexivity|].
    cbn [negb]. discriminate. }
  apply well_formed_message_intro; rewrite ?K4, ?I1, ?H1.
  - lia.
  - exact Hslash.
  - intros j Hj. rewrite Haddr by exact Hj. apply Forall_nth; [exact Hnn | exact Hj].
  - rewrite K3. exact I4.
  - rewrite Haddr by lia. rewrite <- (last_nth address "/"%char) by exact Hne. exact Hlast.
  - destruct l as [|a l]; [cbn [length]; lia|]. specialize (K2 ltac:(discriminate)). lia.
  - rewrite Htag by lia. reflexivity.
  - intros j Hj. rewrite Htag by exact Hj.
    assert (Hall : Forall (fun c => c <> "000"%char) (","%char :: map argument_tag l)).
    { constructor; [discriminate|]. apply Forall_forall. intros x Hx.
      apply in_map_iff in Hx. destruct Hx as (a & <- & _). apply argument_tag_not_null. }
    apply Forall_nth; [exact Hall | cbn [length]; rewrite length_map; lia].
  - exact H3.
  - rewrite H4. apply flat_map_argument_bytes_aligned.
  - rewrite K5. exact I6.
  - rewrite K6. exact I7.
  - exact Hsize.
Qed.

End BuiltMessages.

Lemma build_message_well_formed_witness :
  well_formed_message (L := udp_limits)
    (fst (build_message (L := udp_limits) blank_message ["/"; "t"; "e"; "s"; "t"]%char
            sample_arguments)) = true.
Proof.
  apply (build_message_well_formed (L := udp_limits) blank_message
           ["/"; "t"; "e"; "s"; "t"]%char sample_arguments).
  - reflexivity.
  - discriminate.
  - repeat constructor; discriminate.
  - discriminate.
  - unfold sample_arguments.
    repeat (apply Forall_cons; [cbn; try exact I; try lia;
                                try (repeat constructor; discriminate)|]).
    apply Forall_nil.
  - vm_compute. lia.
  - vm_compute. lia.
Defined.

(** ** Bounds of the writes *)

Section Bounds.
Context {L : Limits}.

Lemma OscSlipDecoderProcessByte_bounded (d : OscSlipDecoder) (byte : ascii) (junk : OscPacket) :
  bufferIndex d < OSC_SLIP_DECODER_BUFFER_SIZE ->
  let r := OscSlipDecoderProcessByte d byte junk in
  bufferIndex (fst (fst r)) < OSC_SLIP_DECODER_BUFFER_SIZE /\
  (forall j, j <> bufferIndex d -> buffer (fst (fst r)) j = buffer d j) /\
  buffer (fst (fst r)) (bufferIndex d) = byte /\
  processPacket (fst (fst r)) = processPacket d /\
  (snd (fst r) = 0%Z \/ snd (fst r) = 1%Z) /\
  (snd r <> None -> byte = SLIP_END /\ snd (fst r) = 0%Z).
Proof.
  intros Hi. unfold OscSlipDecoderProcessByte.
  destruct (Ascii.eqb_spec byte SLIP_END) as [->|Hb].
  - destruct (negb (processPacket d));
      [|destruct (decode_loop _ _ _ _)]; cbn [fst snd bufferIndex buffer processPacket];
      (split; [lia|]); (split; [intros j Hj; now apply store_neq|]);
      (split; [apply store_eq|]); (split; [reflexivity|]); (split; [auto|]);
      try (intros H; now auto); intros H; congruence.
  - cbn [fst snd bufferIndex buffer processPacket].
    split; [destruct (Nat.leb_spec OSC_SLIP_DECODER_BUFFER_SIZE (S (bufferIndex d))); lia|].
    split; [intros j Hj; now apply store_neq|]. split; [apply store_eq|].
    split; [reflexivity|]. split; [auto|]. congruence.
Qed.

(** X23: the decoder stays inside its buffer.  Whatever bytes are received,
    in whatever state, the write index stays below
    [OSC_SLIP_DECODER_BUFFER_SIZE] if it was below it, nothing is written at
    or beyond that size, every call returns 0 or 1, and the handler is called
    at most once for each END received. *)
Theorem decoder_stays_in_buffer (d : OscSlipDecoder) (input : list ascii) (junk : OscPacket) :
  bufferIndex d < OSC_SLIP_DECODER_BUFFER_SIZE ->
  let r := feed_bytes d input junk in
  bufferIndex (fst (fst r)) < OSC_SLIP_DECODER_BUFFER_SIZE /\
  (forall j, OSC_SLIP_DECODER_BUFFER_SIZE <= j -> buffer (fst (fst r)) j = buffer d j) /\
  length (snd (fst r)) = length input /\
  Forall (fun rc => rc = 0%Z \/ rc = 1%Z) (snd (fst r)) /\
  length (snd r) <= count_occ ascii_dec input SLIP_END.
Proof.
  revert d. induction input as [|byte input IH]; intros d Hi; cbn zeta.
  - cbn. auto.
  - cbn [feed_bytes].
    pose proof (OscSlipDecoderProcessByte_bounded d byte junk Hi) as H. cbv zeta in H.
    destruct (OscSlipDecoderProcessByte d byte junk) as [[d1 rc] call].
    cbn [fst snd] in H. destruct H as (H1 & H2 & _ & _ & H5 & H6).
    specialize (IH d1 H1). cbv zeta in IH.
    destruct (feed_bytes d1 input junk) as [[d2 rcs] calls].
    cbn [fst snd] in *. destruct IH as (I1 & I2 & I3 & I4 & I5).
    split; [exact I1|]. split; [intros j Hj; rewrite I2 by exact Hj; apply H2; lia|].
    split; [cbn [length]; lia|]. split; [constructor; assumption|].
    cbn [count_occ]. destruct call as [q|].
    + destruct (H6 ltac:(discriminate)) as [-> _].
      destruct (ascii_dec SLIP_END SLIP_END); [cbn [length]; lia | congruence].
    + destruct (ascii_dec byte SLIP_END); lia.
Qed.

Lemma TerminateOscString_loop_above room : forall (s : Mem) size,
  forall j, size + room <= j ->
  fst (fst (TerminateOscString_loop room s size)) j = s j.
Proof.
  induction room as [|room IH]; intros s size j Hj; cbn [TerminateOscString_loop];
    [reflexivity|].
  destruct (negb (S size mod 4 =? 0)).
  - rewrite IH by lia. apply store_neq. lia.
  - cbn [fst]. apply store_neq. lia.
Qed.

Lemma TerminateOscString_above (s : Mem) size max j :
  max <= j -> size <= j -> fst (fst (TerminateOscString s size max)) j = s j.
Proof.
  intros H1 H2. unfold TerminateOscString. apply TerminateOscString_loop_above. lia.
Qed.

Lemma OscMessageToCharArray_bounded (m : OscMessage) (destination : Mem)
    (destinationSize : nat) (j : nat) :
  destinationSize <= j ->
  fst (fst (OscMessageToCharArray m destination destinationSize)) j = destination j.
Proof.
  intros Hj. unfold OscMessageToCharArray.
  destruct (oscAddressPatternLength m =? 0); [reflexivity|].
  destruct (negb _); [reflexivity|].
  destruct (Nat.ltb_spec destinationSize (oscAddressPatternLength m)); [reflexivity|].
  match goal with
  | |- context [TerminateOscString ?s ?n destinationSize] =>
      pose proof (TerminateOscString_above s n destinationSize j Hj ltac:(lia)) as K1;
      destruct (TerminateOscString s n destinationSize) as [[d1 n1] rc1]
  end.
  cbn [fst snd] in K1. rewrite copy_bytes_above in K1 by lia.
  destruct (negb (rc1 =? 0)%Z); [exact K1|].
  destruct (Nat.ltb_spec destinationSize (n1 + oscTypeTagStringLength m)); [exact K1|].
  match goal with
  | |- context [TerminateOscString ?s ?n destinationSize] =>
      pose proof (TerminateOscString_above s n destinationSize j Hj ltac:(lia)) as K2;
      destruct (TerminateOscString s n destinationSize) as [[d2 n2] rc2]
  end.
  cbn [fst snd] in K2. rewrite copy_bytes_above in K2 by lia. rewrite K1 in K2.
  destruct (negb (rc2 =? 0)%Z); [exact K2|].
  destruct (Nat.ltb_spec destinationSize (n2 + argumentsSize m)); [exact K2|].
  cbn [fst]. rewrite copy_bytes_above by lia. exact K2.
Qed.

(** X24: the serializers stay inside the destination.  Whether they succeed
    or fail, [OscMessageToCharArray] and [OscBundleToCharArray] write nothing
    at or beyond [destinationSize]. *)
Theorem serializers_stay_in_destination (m : OscMessage) (b : OscBundle)
    (destination : Mem) (destinationSize : nat) (j : nat) :
  destinationSize <= j ->
  fst (fst (OscMessageToCharArray m destination destinationSize)) j = destination j /\
  fst (fst (OscBundleToCharArray b destination destinationSize)) j = destination j.
Proof.
  intros Hj. split; [now apply OscMessageToCharArray_bounded|].
  unfold OscBundleToCharArray.
  destruct (Nat.ltb_spec destinationSize (8 + 8 + oscBundleElementsSize b)); [reflexivity|].
  cbn [fst]. rewrite copy_bytes_above by lia. rewrite !store_neq by lia.
  apply copy_bytes_above. lia.
Qed.

End Bounds.

Lemma decoder_stays_in_buffer_witness :
  let d := set_processPacket (OscSlipDecoderInitialise blank_decoder) in
  let input := ["001"; "192"; "219"; "001"; "192"]%char in
  let r := feed_bytes (L := udp_limits) d input blank_packet in
  bufferIndex (fst (fst r)) < OSC_SLIP_DECODER_BUFFER_SIZE (L := udp_limits) /\
  (forall j, OSC_SLIP_DECODER_BUFFER_SIZE (L := udp_limits) <= j ->
             buffer (fst (fst r)) j = buffer d j) /\
  length (snd (fst r)) = length input /\
  Forall (fun rc => rc = 0%Z \/ rc = 1%Z) (snd (fst r)) /\
  length (snd r) <= count_occ ascii_dec input SLIP_END.
Proof.
  intros d input.
  apply (decoder_stays_in_buffer (L := udp_limits) d input blank_packet).
  vm_compute. lia.
Defined.

Lemma serializers_stay_in_destination_witness :
  fst (fst (OscMessageToCharArray sample_message zeros 20)) 20 = zeros 20 /\
  fst (fst (OscBundleToCharArray inner_bundle zeros 20)) 20 = zeros 20.
Proof.
  apply (serializers_stay_in_destination sample_message inner_bundle zeros 20 20). lia.
Defined.

(** ** What the parser accepts *)

Section Accepted.
Context {L : Limits}.

Lemma parse_address_loop_inv (source : Mem) : forall remaining i (m m' : OscMessage) i',
  parse_address_loop remaining source i m = (m', i', 0%Z) ->
  exists k, i' = i + k /\ k <= remaining /\
    oscAddressPatternLength m' = oscAddressPatternLength m + k /\
    (k = 0 \/ oscAddressPatternLength m' <= MAX_OSC_ADDRESS_PATTERN_LENGTH) /\
    (forall j, j < k -> source (i + j) <> "000"%char /\
                        oscAddressPattern m' (oscAddressPatternLength m + j) = source (i + j)) /\
    source i' = "000"%char /\
    (forall j, j < oscAddressPatternLength m -> oscAddressPattern m' j = oscAddressPattern m j) /\
    oscTypeTagString m' = oscTypeTagString m /\
    oscTypeTagStringLength m' = oscTypeTagStringLength m /\
    arguments m' = arguments m /\ argumentsSize m' = argumentsSize m /\
    oscTypeTagStringIndex m' = oscTypeTagStringIndex m /\
    argumentsIndex m' = argumentsIndex m.
Proof.
  induction remaining as [|remaining IH]; intros i m m' i' H; cbn [parse_address_loop] in H;
    destruct (source i =? "000")%char eqn:E0.
  - inversion H; subst. apply Ascii.eqb_eq in E0. exists 0.
    rewrite Nat.add_0_r. repeat split; auto; try lia.
  - destruct (_ <? _) in H; discriminate H.
  - inversion H; subst. apply Ascii.eqb_eq in E0. exists 0.
    rewrite Nat.add_0_r. repeat split; auto; try lia.
  - apply Ascii.eqb_neq in E0.
    destruct (Nat.ltb_spec MAX_OSC_ADDRESS_PATTERN_LENGTH
                (oscAddressPatternLength
                   (set_address m (store (oscAddressPattern m) (oscAddressPatternLength m)
                                         (source i)) (S (oscAddressPatternLength m)))))
      as [Hgt|Hle]; [discriminate H|].
    apply IH in H. fsimpl.
    destruct H as (k & Hi & Hk & Hlen & Hmax & Hcopy & Hnull & Hkeep & F1 & F2 & F3 & F4 & F5 & F6).
    exists (S k). repeat split; try assumption; try lia.
    + destruct j as [|j]; [now rewrite Nat.add_0_r|].
      replace (i + S j) with (S i + j) by lia. apply Hcopy. lia.
    + destruct j as [|j].
      * rewrite !Nat.add_0_r. rewrite Hkeep by lia. apply store_eq.
      * replace (oscAddressPatternLength m + S j) with (S (oscAddressPatternLength m) + j) by lia.
        replace (i + S j) with (S i + j) by lia. apply Hcopy. lia.
    + intros j Hj. rewrite Hkeep by lia. apply store_neq. lia.
Qed.

Lemma parse_comma_loop_inv (source : Mem) : forall remaining i i',
  parse_comma_loop remaining source i = (i', 0%Z) ->
  i <= i' <= i + remaining /\ source (i' - 1) = ","%char /\
  (forall j, i <= j < i' -> source (j - 1) <> ","%char).
Proof.
  induction remaining as [|remaining IH]; intros i i' H; cbn [parse_comma_loop] in H;
    destruct (source (i - 1) =? ",")%char eqn:E0.
  - inversion H; subst. apply Ascii.eqb_eq in E0. repeat split; auto; lia.
  - discriminate H.
  - inversion H; subst. apply Ascii.eqb_eq in E0. repeat split; auto; lia.
  - apply Ascii.eqb_neq in E0. apply IH in H. destruct H as (Hi & Hc & Hfirst).
    repeat split; try assumption; try lia.
    intros j Hj. destruct (Nat.eq_dec j i) as [->|Hne]; [exact E0|]. apply Hfirst. lia.
Qed.

Lemma parse_type_tag_loop_inv (source : Mem) : forall remaining i (m m' : OscMessage) i',
  parse_type_tag_loop remaining source i m = (m', i', 0%Z) ->
  exists k, i' = i + k /\ k <= remaining /\
    oscTypeTagStringLength m' = oscTypeTagStringLength m + k /\
    (k = 0 \/ oscTypeTagStringLength m' <= MAX_OSC_TYPE_TAG_STRING_LENGTH) /\
    (forall j, j < k -> source (i + j) <> "000"%char /\
                        oscTypeTagString m' (oscTypeTagStringLength m + j) = source (i + j)) /\
    source i' = "000"%char /\
    (forall j, j < oscTypeTagStringLength m -> oscTypeTagString m' j = oscTypeTagString m j) /\
    oscAddressPattern m' = oscAddressPattern m /\
    oscAddressPatternLength m' = oscAddressPatternLength m /\
    arguments m' = arguments m /\ argumentsSize m' = argumentsSize m /\
    oscTypeTagStringIndex m' = oscTypeTagStringIndex m /\
    argumentsIndex m' = argumentsIndex m.
Proof.
  induction remaining as [|remaining IH]; intros i m m' i' H; cbn [parse_type_tag_loop] in H;
    destruct (source i =? "000")%char eqn:E0.
  - inversion H; subst. apply Ascii.eqb_eq in E0. exists 0.
    rewrite Nat.add_0_r. repeat split; auto; try lia.
  - destruct (_ <? _) in H; discriminate H.
  - inversion H; subst. apply Ascii.eqb_eq in E0. exists 0.
    rewrite Nat.add_0_r. repeat split; auto; try lia.
  - apply Ascii.eqb_neq in E0.
    destruct (Nat.ltb_spec MAX_OSC_TYPE_TAG_STRING_LENGTH
                (oscTypeTagStringLength
                   (set_type_tags m (store (oscTypeTagString m) (oscTypeTagStringLength m)
                                           (source i)) (S (oscTypeTagStringLength m)))))
      as [Hgt|Hle]; [discriminate H|].
    apply IH in H. fsimpl.
    destruct H as (k & Hi & Hk & Hlen & Hmax & Hcopy & Hnull & Hkeep & F1 & F2 & F3 & F4 & F5 & F6).
    exists (S k). repeat split; try assumption; try lia.
    + destruct j as [|j]; [now rewrite Nat.add_0_r|].
      replace (i + S j) with (S i + j) by lia. apply Hcopy. lia.
    + destruct j as [|j].
      * rewrite !Nat.add_0_r. rewrite Hkeep by lia. apply store_eq.
      * replace (oscTypeTagStringLength m + S j) with (S (oscTypeTagStringLength m) + j) by lia.
        replace (i + S j) with (S i + j) by lia. apply Hcopy. lia.
    + intros j Hj. rewrite Hkeep by lia. apply store_neq. lia.
Qed.

Lemma parse_align_loop_inv : forall room i i',
  parse_align_loop room i = (i', 0%Z) ->
  i' = 4 * (i / 4 + 1) /\ i' <= i + room.
Proof.
  induction room as [|room IH]; intros i i' H; cbn [parse_align_loop] in H; [discriminate H|].
  destruct (S i mod 4 =? 0) eqn:E; cbn [negb] in H.
  - inversion H; subst. apply Nat.eqb_eq in E.
    pose proof (Nat.div_mod_eq (S i) 4). pose proof (Nat.div_mod_eq i 4).
    pose proof (Nat.mod_upper_bound i 4). lia.
  - apply IH in H. apply Nat.eqb_neq in E.
    pose proof (Nat.div_mod_eq (S i) 4). pose proof (Nat.div_mod_eq i 4).
    pose proof (Nat.mod_upper_bound i 4). pose proof (Nat.mod_upper_bound (S i) 4). lia.
Qed.

(** X25: what an accepted char array looks like.  When
    [OscMessageInitialiseFromCharArray] returns 0 and has found at most
    [MAX_ARGUMENTS_SIZE] argument bytes (a bound that the function does not
    test, and beyond which it writes past the arguments of the structure),
    whatever the bytes of the source: the size is a multiple of 4 within the message limits; the address
    pattern is the source up to its first null, starts with '/' and has 1 to
    [MAX_OSC_ADDRESS_PATTERN_LENGTH] characters; the type tag string is ','
    followed by the source bytes from just after the first comma found at or
    after the last character of the address, up to the next null; the
    arguments are all the bytes from the next multiple of 4 after that null
    to the end of the source; both strings are null-terminated and the read
    indexes are 1 and 0. *)
Theorem accepted_message (m0 : OscMessage) (source : Mem) (sourceSize : nat) :
  let r := OscMessageInitialiseFromCharArray m0 source sourceSize in
  let m := fst r in
  let a := oscAddressPatternLength m in
  let t := oscTypeTagStringLength m in
  snd r = 0%Z ->
  argumentsSize m <= MAX_ARGUMENTS_SIZE ->
  (sourceSize mod 4 = 0 /\ MIN_OSC_MESSAGE_SIZE <= sourceSize <= MAX_OSC_MESSAGE_SIZE) /\
  (1 <= a <= MAX_OSC_ADDRESS_PATTERN_LENGTH /\ source 0 = "/"%char /\
   (forall j, j < a -> source j <> "000"%char /\ oscAddressPattern m j = source j) /\
   source a = "000"%char /\ oscAddressPattern m a = "000"%char) /\
  (exists c,
     a <= c /\ source (c - 1) = ","%char /\
     (forall j, a <= j < c -> source (j - 1) <> ","%char) /\
     1 <= t <= Nat.max 1 MAX_OSC_TYPE_TAG_STRING_LENGTH /\
     oscTypeTagString m 0 = ","%char /\
     (forall j, j < t - 1 -> source (c + j) <> "000"%char /\
                             oscTypeTagString m (1 + j) = source (c + j)) /\
     source (c + (t - 1)) = "000"%char /\ oscTypeTagString m t = "000"%char /\
     c + (t - 1) < sourceSize /\
     let k := 4 * ((c + (t - 1)) / 4 + 1) in
     k <= sourceSize /\ argumentsSize m = sourceSize - k /\
     (forall j, j < sourceSize - k -> arguments m j = source (k + j))) /\
  oscTypeTagStringIndex m = 1 /\ argumentsIndex m = 0.
Proof.
  intros r m a t. subst a t m r. unfold OscMessageInitialiseFromCharArray.
  destruct (Nat.eqb_spec (sourceSize mod 4) 0) as [Hmod|]; cbn [negb]; [|discriminate].
  destruct (Nat.ltb_spec sourceSize MIN_OSC_MESSAGE_SIZE) as [|Hmin]; [discriminate|].
  destruct (Nat.ltb_spec MAX_OSC_MESSAGE_SIZE sourceSize) as [|Hmax]; [discriminate|].
  destruct (Ascii.eqb_spec (source 0) OscContentsTypeMessage) as [Hslash|]; cbn [negb];
    [|discriminate].
  set (mi := fst (OscMessageInitialise m0 [])).
  assert (Hmi : oscAddressPatternLength mi = 0 /\ oscTypeTagStringLength mi = 1 /\
                oscTypeTagString mi 0 = ","%char /\ argumentsSize mi = 0 /\
                oscTypeTagStringIndex mi = 1 /\ argumentsIndex mi = 0).
  { unfold mi. cbn. repeat split. }
  destruct Hmi as (Ma & Mt & Mt0 & Ms & Mti & Mai).
  destruct (parse_address_loop (sourceSize - 1) source 0 mi) as [[m1 i1] rc1] eqn:E1.
  destruct (Z.eqb_spec rc1 0) as [->|]; cbn [negb]; [|discriminate].
  apply parse_address_loop_inv in E1.
  destruct E1 as (k1 & Hi1 & Hk1 & Hlen1 & Hmax1 & Hcopy1 & Hnull1 & _ & A1 & A2 & A3 & A4 & A5 & A6).
  cbn [Nat.add] in Hi1. subst i1. fsimpl.
  assert (Hk1pos : 1 <= k1).
  { destruct k1; [|lia]. rewrite Hslash in Hnull1. discriminate Hnull1. }
  destruct (parse_comma_loop (sourceSize - (k1 + 1)) source k1) as [c rc2] eqn:E2.
  destruct (Z.eqb_spec rc2 0) as [->|]; cbn [negb]; [|discriminate].
  apply parse_comma_loop_inv in E2. destruct E2 as (Hc & Hcomma & Hfirst).
  match goal with
  | |- context [parse_type_tag_loop ?rem source c ?mm] =>
      destruct (parse_type_tag_loop rem source c mm) as [[m3 i3] rc3] eqn:E3
  end.
  destruct (Z.eqb_spec rc3 0) as [->|]; cbn [negb]; [|discriminate].
  apply parse_type_tag_loop_inv in E3.
  destruct E3 as (k3 & Hi3 & Hk3 & Hlen3 & Hmax3 & Hcopy3 & Hnull3 & Hkeep3
                  & B1 & B2 & B3 & B4 & B5 & B6).
  subst i3. fsimpl.
  destruct (parse_align_loop (sourceSize - (c + k3)) (c + k3)) as [i4 rc4] eqn:E4.
  destruct (Z.eqb_spec rc4 0) as [->|]; cbn [negb]; [|discriminate].
  apply parse_align_loop_inv in E4. destruct E4 as (Hi4 & Hroom).
  intros _ _. fsimpl.
  rewrite Hlen3, B2, Hlen1, Ma, Mt, B4, A4, Ms, B5, B6, A5, A6, B1, B3, A3, A2 in *.
  cbn [Nat.add] in *. replace (S k3 - 1) with k3 by lia.
  split; [split; [exact Hmod | lia]|].
  split.
  { split; [destruct Hmax1; lia|]. split; [exact Hslash|].
    split; [|split; [exact Hnull1 | apply store_eq]].
    intros j Hj. destruct (Hcopy1 j Hj) as [N1 N2]. cbn [Nat.add] in N1, N2.
    split; [exact N1|]. rewrite store_neq by lia. exact N2. }
  split; [|split; [exact Mti | exact Mai]].
  exists c. split; [lia|]. split; [exact Hcomma|]. split; [exact Hfirst|].
  split; [destruct Hmax3; lia|].
  split.
  { rewrite store_neq by lia. rewrite Hkeep3 by lia. rewrite A1. exact Mt0. }
  split.
  { intros j Hj. destruct (Hcopy3 j Hj) as [N1 N2]. split; [exact N1|].
    rewrite store_neq by lia. exact N2. }
  split; [exact Hnull3|]. split; [apply store_eq|].
  split; [lia|]. cbv zeta. rewrite <- Hi4.
  split; [lia|]. split; [reflexivity|].
  intros j Hj. rewrite <- (Nat.add_0_l j) at 1. rewrite copy_bytes_in by lia. reflexivity.
Qed.

End Accepted.

(** ** The destinations of the readers *)

Section ReaderDestinations.

Lemma get_string_loop_above (args : Mem) room : forall ai (dd : Mem) dj j,
  dj + room < j -> fst (fst (get_string_loop room args ai dd dj)) j = dd j.
Proof.
  induction room as [|room IH]; intros ai dd dj j Hj; cbn [get_string_loop].
  - cbn [fst]. apply store_neq. lia.
  - destruct (args ai =? "000")%char.
    + cbn [fst]. apply store_neq. lia.
    + rewrite IH by lia. apply store_neq. lia.
Qed.

Lemma get_string_loop_success (args : Mem) room : forall ai (dd : Mem) dj d2 x,
  get_string_loop room args ai dd dj = (d2, x, 0%Z) ->
  forall j, dj + room <= j -> d2 j = dd j.
Proof.
  induction room as [|room IH]; intros ai dd dj d2 x H j Hj; cbn [get_string_loop] in H.
  - discriminate H.
  - destruct (args ai =? "000")%char.
    + inversion H; subst. apply store_neq. lia.
    + rewrite (IH _ _ _ _ _ H) by lia. apply store_neq. lia.
Qed.

Lemma get_string_loop_overrun (args : Mem) room : forall ai (dd : Mem) dj,
  (forall k, k < room -> args (ai + k) <> "000"%char) ->
  snd (get_string_loop room args ai dd dj) = 1%Z /\
  fst (fst (get_string_loop room args ai dd dj)) (dj + room) = args (ai + room).
Proof.
  induction room as [|room IH]; intros ai dd dj Hnn; cbn [get_string_loop].
  - cbn [fst snd]. rewrite !Nat.add_0_r. split; [reflexivity | apply store_eq].
  - destruct (Ascii.eqb_spec (args ai) "000"%char) as [E|_].
    + exfalso. apply (Hnn 0); [lia|]. now rewrite Nat.add_0_r.
    + replace (dj + S room) with (S dj + room) by lia.
      replace (ai + S room) with (S ai + room) by lia.
      apply IH. intros k Hk. replace (S ai + k) with (ai + S k) by lia. apply Hnn. lia.
Qed.

(** X26: where [OscMessageGetString] writes.  It never writes beyond index
    [destinationSize], and a call that returns 0 has written nothing at or
    beyond [destinationSize].  But when the next argument is a string with at
    least 4 argument bytes left, [destinationSize] is at least 4 and the first
    [destinationSize] characters of the string are not null, the call returns 1, leaves the
    message as it was, and has written the next byte of the arguments at
    index [destinationSize], one past the end of the destination. *)
Theorem OscMessageGetString_writes (m : OscMessage) (destination : Mem) (destinationSize : nat) :
  let r := OscMessageGetString m destination destinationSize in
  let tag := oscTypeTagString m (oscTypeTagStringIndex m) in
  (forall j, destinationSize < j -> snd (fst r) j = destination j) /\
  (snd r = 0%Z -> forall j, destinationSize <= j -> snd (fst r) j = destination j) /\
  (tag = OscTypeTagString \/ tag = OscTypeTagAlternateString ->
   argumentsIndex m + 4 <= argumentsSize m -> 4 <= destinationSize ->
   (forall k, k < destinationSize -> arguments m (argumentsIndex m + k) <> "000"%char) ->
   snd r = 1%Z /\ fst (fst r) = m /\
   snd (fst r) destinationSize = arguments m (argumentsIndex m + destinationSize)).
Proof.
  intros r tag. subst r tag. unfold OscMessageGetString.
  set (tag := oscTypeTagString m (oscTypeTagStringIndex m)).
  split; [|split].
  - intros j Hj.
    destruct (negb (tag =? OscTypeTagString)%char && negb (tag =? OscTypeTagAlternateString)%char);
      [reflexivity|].
    destruct (argumentsSize m <? argumentsIndex m + 4); [reflexivity|].
    destruct (destinationSize <? 4); [reflexivity|].
    pose proof (get_string_loop_above (arguments m) destinationSize (argumentsIndex m)
                  destination 0 j ltac:(lia)) as K.
    destruct (get_string_loop destinationSize (arguments m) (argumentsIndex m) destination 0)
      as [[d2 x] rc]. cbn [fst] in K.
    destruct (negb (rc =? 0)%Z); [exact K|].
    destruct (get_align_loop (argumentsSize m - x) x) as [y rc2].
    destruct (negb (rc2 =? 0)%Z); exact K.
  - destruct (negb (tag =? OscTypeTagString)%char && negb (tag =? OscTypeTagAlternateString)%char);
      [discriminate|].
    destruct (argumentsSize m <? argumentsIndex m + 4); [discriminate|].
    destruct (destinationSize <? 4); [discriminate|].
    destruct (get_string_loop destinationSize (arguments m) (argumentsIndex m) destination 0)
      as [[d2 x] rc] eqn:E.
    destruct (Z.eqb_spec rc 0) as [->|]; cbn [negb]; [|discriminate].
    destruct (get_align_loop (argumentsSize m - x) x) as [y rc2].
    destruct (negb (rc2 =? 0)%Z); [discriminate|].
    intros _ j Hj. cbn [fst snd].
    apply (get_string_loop_success _ _ _ _ _ _ _ E). lia.
  - intros Htag Hargs Hds Hnn.
    replace (negb (tag =? OscTypeTagString)%char && negb (tag =? OscTypeTagAlternateString)%char)
      with false.
    2:{ symmetry. destruct Htag as [->| ->]; reflexivity. }
    replace (argumentsSize m <? argumentsIndex m + 4) with false
      by (symmetry; apply Nat.ltb_ge; lia).
    replace (destinationSize <? 4) with false by (symmetry; apply Nat.ltb_ge; lia).
    destruct (get_string_loop_overrun (arguments m) destinationSize (argumentsIndex m)
                destination 0 Hnn) as [K1 K2].
    destruct (get_string_loop destinationSize (arguments m) (argumentsIndex m) destination 0)
      as [[d2 x] rc]. cbn [fst snd] in K1, K2. subst rc. cbn [negb Z.eqb fst snd].
    repeat split. exact K2.
Qed.

Lemma get_align_loop_bound room : forall idx idx',
  get_align_loop room idx = (idx', 0%Z) -> idx <= idx' <= idx + room /\ idx' mod 4 = 0.
Proof.
  induction room as [|room IH]; intros idx idx' H; cbn [get_align_loop] in H;
    destruct (Nat.eqb_spec (idx mod 4) 0) as [E|E]; try discriminate H.
  - inversion H; subst. split; [lia | exact E].
  - inversion H; subst. split; [lia | exact E].
  - apply IH in H. split; [lia | apply H].
Qed.

(** X27: [OscMessageGetBlob] stays inside the destination and inside the
    message.  Whatever the message holds, the call writes nothing at or beyond
    [destinationSize]; and when it returns 0, the blob size it reports is
    between 0 and [destinationSize], the blob with its size prefix lies
    within the argument bytes, the destination starts with the bytes of the
    blob, and the read index has moved to a multiple of 4 within the
    arguments. *)
Theorem OscMessageGetBlob_bounded (m : OscMessage) (destination : Mem) (destinationSize : nat) :
  let r := OscMessageGetBlob m destination destinationSize in
  (forall j, destinationSize <= j -> snd (fst r) j = destination j) /\
  (snd r = 0%Z ->
   exists n,
     snd (fst (fst r)) = Some (Z.of_nat n) /\ n <= destinationSize /\
     argumentsIndex m + 4 + n <= argumentsSize m /\
     bytes (snd (fst r)) n = bytes (offset (arguments m) (argumentsIndex m + 4)) n /\
     argumentsIndex m + 4 + n <= argumentsIndex (fst (fst (fst r))) <= argumentsSize m /\
     argumentsIndex (fst (fst (fst r))) mod 4 = 0 /\
     oscTypeTagStringIndex (fst (fst (fst r))) = S (oscTypeTagStringIndex m)).
Proof.
  intros r. subst r. unfold OscMessageGetBlob.
  destruct (negb (oscTypeTagString m (oscTypeTagStringIndex m) =? OscTypeTagBlob)%char);
    [split; [reflexivity | discriminate]|].
  destruct (Nat.ltb_spec (argumentsSize m) (argumentsIndex m + 4)) as [|Hroom];
    [split; [reflexivity | discriminate]|].
  set (size := int32_of_bytes _ _ _ _).
  unfold gt_size_t.
  destruct (Z.ltb_spec (Z.of_nat (argumentsIndex m + 4) + size) 0) as [|H1]; cbn [orb];
    [split; [reflexivity | discriminate]|].
  destruct (Z.ltb_spec (Z.of_nat (argumentsSize m)) (Z.of_nat (argumentsIndex m + 4) + size))
    as [|H2]; [split; [reflexivity | discriminate]|].
  destruct (Z.ltb_spec size 0) as [|H3]; cbn [orb]; [split; [reflexivity | discriminate]|].
  destruct (Z.ltb_spec (Z.of_nat destinationSize) size) as [|H4];
    [split; [reflexivity | discriminate]|].
  destruct (get_align_loop _ _) as [y rc2] eqn:E.
  split.
  - intros j Hj. destruct (negb (rc2 =? 0)%Z); cbn [fst snd]; apply copy_bytes_above; lia.
  - destruct (Z.eqb_spec rc2 0) as [->|]; cbn [negb]; [|discriminate].
    intros _. cbn [fst snd]. fsimpl. apply get_align_loop_bound in E.
    exists (Z.to_nat size). split; [f_equal; lia|]. split; [lia|]. split; [lia|].
    split; [|split; [lia|split; [apply E | reflexivity]]].
    apply bytes_ext. intros j Hj. rewrite <- (Nat.add_0_l j) at 1.
    rewrite copy_bytes_in by exact Hj. reflexivity.
Qed.

End ReaderDestinations.

Lemma accepted_message_witness :
  let source := mem_of ["/"; "a"; "000"; "000"; "x"; "y"; ","; "i"; "000"; "000"; "000"; "000";
                        "000"; "000"; "000"; "007"]%char in
  let r := OscMessageInitialiseFromCharArray (L := udp_limits) blank_message source 16 in
  let m := fst r in
  let a := oscAddressPatternLength m in
  let t := oscTypeTagStringLength m in
  snd r = 0%Z /\
  ((16 mod 4 = 0 /\ @MIN_OSC_MESSAGE_SIZE udp_limits <= 16 <= @MAX_OSC_MESSAGE_SIZE udp_limits) /\
   (1 <= a <= @MAX_OSC_ADDRESS_PATTERN_LENGTH udp_limits /\ source 0 = "/"%char /\
    (forall j, j < a -> source j <> "000"%char /\ oscAddressPattern m j = source j) /\
    source a = "000"%char /\ oscAddressPattern m a = "000"%char) /\
   (exists c,
      a <= c /\ source (c - 1) = ","%char /\
      (forall j, a <= j < c -> source (j - 1) <> ","%char) /\
      1 <= t <= Nat.max 1 (@MAX_OSC_TYPE_TAG_STRING_LENGTH udp_limits) /\
      oscTypeTagString m 0 = ","%char /\
      (forall j, j < t - 1 -> source (c + j) <> "000"%char /\
                              oscTypeTagString m (1 + j) = source (c + j)) /\
      source (c + (t - 1)) = "000"%char /\ oscTypeTagString m t = "000"%char /\
      c + (t - 1) < 16 /\
      let k := 4 * ((c + (t - 1)) / 4 + 1) in
      k <= 16 /\ argumentsSize m = 16 - k /\
      (forall j, j < 16 - k -> arguments m j = source (k + j))) /\
   oscTypeTagStringIndex m = 1 /\ argumentsIndex m = 0).
Proof.
  intros source r m a t.
  split; [vm_compute; reflexivity|].
  apply (accepted_message (L := udp_limits) blank_message source 16).
  - vm_compute. reflexivity.
  - vm_compute. lia.
Defined.

Lemma OscMessageGetString_writes_witness :
  let m := fst (build_message (L := udp_limits) blank_message ["/"; "a"]%char
                  [ArgString ["h"; "e"; "l"; "l"; "o"]%char]) in
  let r := OscMessageGetString m zeros 4 in
  let tag := oscTypeTagString m (oscTypeTagStringIndex m) in
  (tag = OscTypeTagString \/ tag = OscTypeTagAlternateString) /\
  argumentsIndex m + 4 <= argumentsSize m /\ 4 <= 4 /\
  (forall k, k < 4 -> arguments m (argumentsIndex m + k) <> "000"%char) /\
  snd r = 1%Z /\ fst (fst r) = m /\
  snd (fst r) 4 = arguments m (argumentsIndex m + 4).
Proof.
  intros m r tag.
  assert (H1 : tag = OscTypeTagString \/ tag = OscTypeTagAlternateString)
    by (left; vm_compute; reflexivity).
  assert (H2 : argumentsIndex m + 4 <= argumentsSize m) by (vm_compute; lia).
  assert (H3 : forall k, k < 4 -> arguments m (argumentsIndex m + k) <> "000"%char).
  { intros k Hk. destruct k as [|[|[|[|k]]]]; [vm_compute; discriminate ..|lia]. }
  split; [exact H1|]. split; [exact H2|]. split; [lia|]. split; [exact H3|].
  apply (proj2 (proj2 (OscMessageGetString_writes m zeros 4)) H1 H2 (le_n 4) H3).
Defined.

Lemma OscMessageGetBlob_bounded_witness :
  let m := fst (build_message (L := udp_limits) blank_message ["/"; "a"]%char
                  [ArgBlob ["001"; "002"; "003"]%char]) in
  let r := OscMessageGetBlob m zeros 8 in
  snd r = 0%Z /\
  exists n,
    snd (fst (fst r)) = Some (Z.of_nat n) /\ n <= 8 /\
    argumentsIndex m + 4 + n <= argumentsSize m /\
    bytes (snd (fst r)) n = bytes (offset (arguments m) (argumentsIndex m + 4)) n /\
    argumentsIndex m + 4 + n <= argumentsIndex (fst (fst (fst r))) <= argumentsSize m /\
    argumentsIndex (fst (fst (fst r))) mod 4 = 0 /\
    oscTypeTagStringIndex (fst (fst (fst r))) = S (oscTypeTagStringIndex m).
Proof.
  intros m r.
  assert (H : snd r = 0%Z) by (vm_compute; reflexivity).
  split; [exact H|].
  exact (proj2 (OscMessageGetBlob_bounded m zeros 8) H).
Defined.

(** ** A malformed element *)

Section MalformedElement.
Context {L : Limits}.

(** The loop over the elements of a bundle whose element region holds, from
    the read index on, the elements [l] and then more bytes: the loop delivers
    the messages of [l] and goes on with what follows. *)
Lemma elements_loop_prefix (walk : option Z -> Mem -> nat -> option (Z * list MessageCall))
    (timeTag : Z) (l : list OscTree) : forall turns (b : OscBundle) (e : OscBundleElement),
  let i := oscBundleElementsIndex b in
  let flat := flat_map (fun t => element_wire (tree_wire t)) l in
  oscTimeTag b = timeTag ->
  bytes (offset (oscBundleElements b) i) (length flat) = flat ->
  i + length flat <= oscBundleElementsSize b ->
  Forall wire_size_ok l ->
  Forall (fun t => forall source,
            bytes source (length (tree_wire t)) = tree_wire t ->
            exists calls,
              walk (Some timeTag) source (length (tree_wire t)) = Some (0%Z, calls) /\
              map call_view calls = tree_calls (Some timeTag) t) l ->
  exists calls b' e',
    map call_view calls = flat_map (tree_calls (Some timeTag)) l /\
    oscTimeTag b' = timeTag /\
    oscBundleElements b' = oscBundleElements b /\
    oscBundleElementsSize b' = oscBundleElementsSize b /\
    oscBundleElementsIndex b' = i + length flat /\
    elements_loop walk (length l + turns) b e =
      match elements_loop walk turns b' e' with
      | None => None
      | Some (oscError, calls') => Some (oscError, calls ++ calls')
      end.
Proof.
  induction l as [|t l IH]; intros turns b e i flat Htt Hflat Hsize Hok Hwalk; subst i flat.
  - exists [], b, e. cbn [flat_map length map Nat.add]. rewrite Nat.add_0_r.
    repeat split; try assumption.
    destruct (elements_loop walk turns b e) as [[rc calls']|]; reflexivity.
  - pose proof (Forall_inv Hok) as (Hpos & Hal & H31).
    pose proof (Forall_inv_tail Hok) as Hok'.
    pose proof (Forall_inv Hwalk) as Hw. pose proof (Forall_inv_tail Hwalk) as Hwalk'.
    cbv beta in Hw.
    cbn [flat_map] in *. rewrite length_app in *.
    set (w := tree_wire t) in *.
    set (rest := flat_map (fun t => element_wire (tree_wire t)) l) in *.
    rewrite <- length_app in Hflat. apply bytes_app_inv in Hflat.
    destruct Hflat as [Hel Hrest]. rewrite length_element_wire in Hsize, Hrest.
    destruct (OscBundleGetBundleElement_element b e w Hel Hpos Hal H31 ltac:(lia))
      as (Hav & b1 & e1 & Hget & Btt & Bel & Bsz & Bix & Ec & Es).
    destruct (Hw (offset (oscBundleElements b) (oscBundleElementsIndex b + 4)))
      as (calls1 & Hwk & Hc1).
    { pose proof Hel as Hel'. unfold element_wire in Hel'.
      rewrite length_app in Hel'.
      change (length (big_endian32 (Z.of_nat (length w))) + length w)
        with (length (big_endian32 (Z.of_nat (length w)) ++ w)) in Hel'.
      apply bytes_app_inv in Hel'. destruct Hel' as [_ Hx].
      rewrite offset_offset in Hx. exact Hx. }
    destruct (IH turns b1 e1) as (calls2 & b' & e' & Hc2 & Ctt & Cel & Csz & Cix & Hloop).
    + congruence.
    + rewrite Bel, Bix. fold rest. rewrite offset_offset in Hrest.
      etransitivity; [|exact Hrest]. apply bytes_ext. intros j _. unfold offset.
      f_equal. lia.
    + rewrite Bsz, Bix. fold rest. lia.
    + exact Hok'.
    + exact Hwalk'.
    + exists (calls1 ++ calls2), b', e'.
      split; [rewrite map_app, Hc1, Hc2; reflexivity|].
      split; [exact Ctt|]. split; [congruence|]. split; [congruence|].
      split; [rewrite Cix, Bix, length_element_wire; fold rest; lia|].
      cbn [length Nat.add]. cbn [elements_loop]. rewrite Hav, Hget. cbn [negb Z.eqb].
      rewrite Btt, Htt, Ec, Es, Nat2Z.id, Hwk. cbn [negb Z.eqb].
      fold (elements_loop walk). rewrite Hloop.
      destruct (elements_loop walk turns b' e') as [[rc calls']|]; [|reflexivity].
      now rewrite app_assoc.
Qed.

(** An element whose size is negative, is not a multiple of 4 or exceeds the
    bytes that follow stops the loop with 1. *)
Lemma elements_loop_bad (walk : option Z -> Mem -> nat -> option (Z * list MessageCall))
    (turns : nat) (b : OscBundle) (e : OscBundleElement) (z : Z) :
  let i := oscBundleElementsIndex b in
  bytes (offset (oscBundleElements b) i) 4 = big_endian32 z ->
  (- 2 ^ 31 <= z < 2 ^ 31)%Z ->
  i + 4 < oscBundleElementsSize b ->
  (z < 0 \/ z mod 4 <> 0 \/ Z.of_nat (oscBundleElementsSize b - (i + 4)) < z)%Z ->
  elements_loop walk (S turns) b e = Some (1%Z, []).
Proof.
  intros i Hb Hz Hav Hbad.
  assert (Hat : forall j, j < 4 -> oscBundleElements b (i + j) = nth j (big_endian32 z) "000"%char).
  { intros j Hj. apply bytes_offset_nth; [exact Hb | exact Hj]. }
  assert (Hsize : int32_of_bytes (oscBundleElements b i) (oscBundleElements b (i + 1))
                    (oscBundleElements b (i + 2)) (oscBundleElements b (i + 3)) = z).
  { rewrite <- (Nat.add_0_r i) at 1. rewrite !Hat by lia. unfold big_endian32.
    cbn [nth]. now apply int32_of_big_endian. }
  cbn [elements_loop]. unfold OscBundleIsBundleElementAvailable. fold i.
  replace (i + 4 <? oscBundleElementsSize b) with true by (symmetry; apply Nat.ltb_lt; lia).
  cbn [negb]. unfold OscBundleGetBundleElement. fold i. rewrite Hsize.
  replace (oscBundleElementsSize b <=? i + 4) with false by (symmetry; apply Nat.leb_gt; lia).
  destruct (Z.ltb_spec z 0) as [|Hpos]; [reflexivity|].
  destruct (Z.eqb_spec (z mod 4) 0) as [Hmod|]; cbn [negb]; [|reflexivity].
  cbn [oscBundleElementsSize oscBundleElementsIndex].
  destruct (Z.ltb_spec (Z.of_nat (oscBundleElementsSize b)) (Z.of_nat (i + 4) + z)) as [|Hfit];
    [reflexivity|].
  exfalso. lia.
Qed.

Section Limits31.
Hypothesis min_message : MIN_OSC_MESSAGE_SIZE <= 8.
Hypothesis min_bundle : MIN_OSC_BUNDLE_SIZE <= 16.
Hypothesis max_message : (Z.of_nat MAX_OSC_MESSAGE_SIZE < 2 ^ 31)%Z.
Hypothesis max_bundle : (Z.of_nat MAX_OSC_BUNDLE_SIZE < 2 ^ 31)%Z.

(** X28: a malformed size prefix after well formed elements.  The packet
    holds a bundle whose first elements are well formed messages and bundles
    that fit the structures that receive them, followed by four more bytes
    that hold a size which is negative, is not a multiple of 4 or exceeds the
    number of bytes after them (the packet size is a multiple of 4, at most
    [MAX_OSC_PACKET_SIZE] and [MAX_OSC_BUNDLE_SIZE], with at most
    [MAX_OSC_BUNDLE_ELEMENTS_SIZE] bytes after the time tag).  When bytes follow these four,
    [OscPacketProcessMessages] returns 1; when the four bytes are the last of
    the packet, they are not looked at and it returns 0.  In both cases the
    handler has by then been called for every message of the elements before
    them, in order, and for nothing else. *)
Theorem malformed_element_stops_walk (fuel : nat) (m0 : OscMessage) (b0 : OscBundle)
    (e0 : OscBundleElement) (p : OscPacket) (timeTag : Z) (l : list OscTree)
    (z : Z) (rest : list ascii) :
  processMessage p = true ->
  size p <= MAX_OSC_PACKET_SIZE ->
  bytes (contents p) (size p) = tree_wire (TreeBundle timeTag l) ++ big_endian32 z ++ rest ->
  forallb tree_ok l = true ->
  forallb tree_fits l = true ->
  (0 <= timeTag < 2 ^ 64)%Z ->
  size p <= MAX_OSC_BUNDLE_SIZE ->
  size p - 16 <= MAX_OSC_BUNDLE_ELEMENTS_SIZE ->
  length rest mod 4 = 0 ->
  (- 2 ^ 31 <= z < 2 ^ 31)%Z ->
  (z < 0 \/ z mod 4 <> 0 \/ Z.of_nat (length rest) < z)%Z ->
  tree_fuel (TreeBundle timeTag l) <= fuel ->
  exists calls,
    OscPacketProcessMessages fuel m0 b0 e0 p
      = Some (match rest with [] => 0%Z | _ :: _ => 1%Z end, calls) /\
    map call_view calls = flat_map (tree_calls (Some timeTag)) l.
Proof.
  intros Hp _ Hb Hall _ Htag Hmax _ Hral Hz Hbad Hfuel.
  unfold OscPacketProcessMessages. rewrite Hp. cbn [negb].
  set (source := contents p) in *. set (n := size p) in *.
  cbn [tree_wire] in Hb. cbn [tree_fuel] in Hfuel.
  set (flat := flat_map (fun e => element_wire (tree_wire e)) l) in *.
  destruct (list_sum_fuel l) as [Hf1 Hf2].
  rewrite forallb_forall in Hall.
  assert (Hel : Forall wire_size_ok l).
  { apply Forall_forall. intros e He. apply tree_wire_size; auto. }
  pose proof (length_elements_aligned l Hel) as Hflat. fold flat in Hflat.
  assert (Hn : n = 8 + (8 + (length flat + (4 + length rest)))).
  { rewrite <- (bytes_length source n), Hb. rewrite !length_app, bytes_length. reflexivity. }
  assert (Hat : forall j, j < n ->
                  source j = nth j (bytes OSC_BUNDLE_HEADER 8 ++ big_endian64 timeTag ++
                                    flat ++ big_endian32 z ++ rest) "000"%char).
  { intros j Hj. rewrite <- (bytes_nth source n j "000"%char Hj), Hb.
    now rewrite <- !app_assoc. }
  assert (H0 : source 0 = OscContentsTypeBundle) by (rewrite Hat by lia; reflexivity).
  destruct fuel as [|fuel]; [lia|]. rewrite DeconstructContents_S.
  replace (n =? 0) with false by (symmetry; apply Nat.eqb_neq; lia).
  unfold OSC_CONTENTS_IS_MESSAGE, OSC_CONTENTS_IS_BUNDLE. rewrite H0.
  cbn [Ascii.eqb Bool.eqb OscContentsTypeMessage OscContentsTypeBundle andb].
  destruct (OscBundleInitialiseFromCharArray_ok b0 source n)
    as (b & -> & _ & Btt & Bsz & Bel & Bix); [lia | lia | exact H0 |].
  cbn [fst].
  assert (Htt : oscTimeTag b = timeTag).
  { rewrite Btt.
    replace (bytes (offset source 8) 8) with (big_endian64 timeTag).
    - rewrite uint64_of_bytes. apply Z.mod_small. lia.
    - apply nth_ext with (d := "000"%char) (d' := "000"%char);
        [rewrite bytes_length; reflexivity|].
      intros j Hj. cbn [length big_endian64] in Hj. rewrite bytes_nth by exact Hj.
      unfold offset. rewrite Hat by lia.
      rewrite app_nth2 by (rewrite bytes_length; lia). rewrite bytes_length.
      rewrite app_nth1 by (cbn [length big_endian64]; lia). f_equal. lia. }
  assert (Hin : forall j, j < length flat + (4 + length rest) ->
                  oscBundleElements b j = nth j (flat ++ big_endian32 z ++ rest) "000"%char).
  { intros j Hj. rewrite Bel by lia. rewrite Hat by lia.
    rewrite app_nth2 by (rewrite bytes_length; lia). rewrite bytes_length.
    rewrite app_nth2 by (cbn [length big_endian64]; lia). cbn [length big_endian64].
    f_equal. lia. }
  destruct (elements_loop_prefix (DeconstructContents fuel m0 b0 e0) timeTag l
              (fuel - length l) b e0)
    as (calls & b' & e' & Hcalls & Ctt & Cel & Csz & Cix & Hloop).
  - exact Htt.
  - rewrite Bix. fold flat. apply nth_ext with (d := "000"%char) (d' := "000"%char);
      [apply bytes_length|].
    intros j Hj. rewrite bytes_length in Hj. rewrite bytes_nth by exact Hj.
    unfold offset. cbn [Nat.add]. rewrite Hin by lia. now rewrite app_nth1 by exact Hj.
  - rewrite Bix, Bsz. fold flat. lia.
  - exact Hel.
  - apply Forall_forall. intros e He src Hsrc.
    apply DeconstructContents_tree; auto. specialize (Hf2 e He). lia.
  - replace (length l + (fuel - length l)) with fuel in Hloop by lia.
    rewrite Hloop. fold flat in Cix. rewrite Bix in Cix. cbn [Nat.add] in Cix.
    destruct (fuel - length l) as [|turns] eqn:Eturns; [lia|].
    destruct rest as [|c rest].
    { exists calls. cbn [elements_loop]. unfold OscBundleIsBundleElementAvailable.
      replace (oscBundleElementsIndex b' + 4 <? oscBundleElementsSize b') with false
        by (symmetry; apply Nat.ltb_ge; rewrite Cix, Csz, Bsz; cbn [length] in Hn; lia).
      cbn [negb]. rewrite app_nil_r. split; [reflexivity | exact Hcalls]. }
    set (rest' := c :: rest) in *.
    assert (Hrpos : 0 < length rest') by (unfold rest'; cbn [length]; lia).
    rewrite (elements_loop_bad _ turns b' e' z).
    + exists calls. rewrite app_nil_r. split; [reflexivity | exact Hcalls].
    + rewrite Cel, Cix. apply nth_ext with (d := "000"%char) (d' := "000"%char);
        [apply bytes_length|].
      intros j Hj. rewrite bytes_length in Hj. rewrite bytes_nth by exact Hj.
      unfold offset. rewrite Hin by lia. rewrite app_nth2 by lia.
      rewrite app_nth1 by (cbn [length big_endian32]; lia). f_equal. lia.
    + exact Hz.
    + rewrite Cix, Csz, Bsz. lia.
    + rewrite Cix, Csz, Bsz.
      replace (n - 17 + 1 - (length flat + 4)) with (length rest') by lia. exact Hbad.
Qed.

End Limits31.
End MalformedElement.

Lemma malformed_element_stops_walk_witness :
  let wire := tree_wire (TreeBundle 5 [TreeMessage example_message]) ++
              big_endian32 8 ++ ["/"; "a"; "000"; "000"]%char in
  let p := mkOscPacket (mem_of wire) (length wire) true in
  exists calls,
    OscPacketProcessMessages (L := udp_limits) 10 blank_message blank_bundle blank_element p
      = Some (1%Z, calls) /\
    map call_view calls = flat_map (tree_calls (Some 5%Z)) [TreeMessage example_message].
Proof.
  intros wire p.
  apply (malformed_element_stops_walk (L := udp_limits)) with (z := 8%Z)
    (rest := ["/"; "a"; "000"; "000"]%char).
  - vm_compute. lia.
  - vm_compute. lia.
  - vm_compute. reflexivity.
  - vm_compute. reflexivity.
  - reflexivity.
  - vm_compute. lia.
  - vm_compute. reflexivity.
  - vm_compute. reflexivity.
  - vm_compute. reflexivity.
  - split; [discriminate | reflexivity].
  - vm_compute. lia.
  - vm_compute. lia.
  - reflexivity.
  - split; [discriminate | reflexivity].
  - right. right. reflexivity.
  - vm_compute. lia.
Defined.

(** ** The receive loop *)

Section ReceiveLoop.
Context {L : Limits}.

Lemma after_reads_ok (dest : Mem) cap (post : list OscArgument) :
  forall (l pre : list OscArgument) (m : OscMessage),
  holds_arguments m (pre ++ l ++ post) ->
  oscTypeTagStringIndex m = S (length pre) ->
  argumentsIndex m = length (flat_map argument_bytes pre) ->
  Forall argument_ok l ->
  4 <= cap -> argumentsSize m <= cap ->
  after_reads dest cap m l =
    set_indexes m (S (length (pre ++ l))) (length (flat_map argument_bytes (pre ++ l))).
Proof.
  induction l as [|a l IH]; intros pre m Hh Hti Hai Hok Hcap Hsize.
  - rewrite app_nil_r. cbn [after_reads fold_left]. rewrite <- Hti, <- Hai.
    destruct m; reflexivity.
  - inversion Hok as [|? ? Ha Hok']; subst.
    pose proof Hh as (H1 & H2 & H3 & H4 & H5).
    assert (Hlen : length (pre ++ (a :: l) ++ post) = length pre + S (length (l ++ post)))
      by (rewrite length_app; reflexivity).
    assert (Hflat : flat_map argument_bytes (pre ++ (a :: l) ++ post) =
                    flat_map argument_bytes pre ++ argument_bytes a ++
                    flat_map argument_bytes (l ++ post))
      by (rewrite flat_map_app; reflexivity).
    assert (Hsz : argumentsSize m = length (flat_map argument_bytes pre) +
                  (length (argument_bytes a) + length (flat_map argument_bytes (l ++ post)))).
    { rewrite H4, Hflat, !length_app. reflexivity. }
    change (after_reads dest cap m (a :: l))
      with (after_reads dest cap (fst (read_argument dest cap m a)) l).
    rewrite (read_argument_ok m a dest cap).
    + cbn [fst]. rewrite (IH (pre ++ [a])).
      * rewrite <- app_assoc. reflexivity.
      * rewrite <- !app_assoc. exact Hh.
      * fsimpl. rewrite Hti, length_app. simpl. lia.
      * fsimpl. rewrite Hai, flat_map_app, length_app. simpl. now rewrite app_nil_r.
      * exact Hok'.
      * exact Hcap.
      * exact Hsize.
    + rewrite Hti.
      rewrite <- (bytes_nth (oscTypeTagString m) (S (length (pre ++ (a :: l) ++ post)))
                    (S (length pre)) "000"%char) by lia.
      rewrite H2. cbn [nth]. rewrite map_app, app_nth2 by (rewrite length_map; lia).
      rewrite length_map, Nat.sub_diag. reflexivity.
    + rewrite Hti, H1. lia.
    + rewrite Hai. rewrite H4, Hflat in H5.
      apply bytes_app_inv in H5. destruct H5 as [_ H5].
      apply bytes_app_inv in H5. destruct H5 as [H5 _]. exact H5.
    + rewrite Hai. lia.
    + rewrite Hai. apply flat_map_argument_bytes_aligned.
    + exact Ha.
    + exact Hcap.
    + lia.
Qed.

(** X29: the receive loop sees the arguments that were added.  A message is
    built with [OscMessageInitialise] and [OscMessageAdd...] calls that all
    return 0, and some of its arguments, from the first on, are read with the
    reader of their kind.  Then [OscMessageIsArgumentAvailable] is true
    exactly when an argument is left, and [OscMessageGetArgumentType] is the
    type tag of the next argument, or the null character when none is
    left. *)
Theorem receive_loop_tags (m0 : OscMessage) (address : list ascii)
    (read left : list OscArgument) (scratch : Mem) (scratchSize : nat) :
  let built := build_message m0 address (read ++ left) in
  let m := after_reads scratch scratchSize (fst built) read in
  snd built = 0%Z ->
  Forall (fun c => c <> "000"%char) address ->
  Forall argument_ok (read ++ left) ->
  4 <= scratchSize -> argumentsSize (fst built) <= scratchSize ->
  OscMessageIsArgumentAvailable m = match left with [] => false | _ :: _ => true end /\
  OscMessageGetArgumentType m =
    match left with [] => "000"%char | a :: _ => argument_tag a end.
Proof.
  intros built m Hb Hnn Hok Hcap Hsize. subst m built.
  unfold build_message in *.
  destruct (OscMessageInitialise m0 address) as [mi rc] eqn:EI.
  destruct (Z.eqb_spec rc 0) as [->|Hrc]; [|cbn [snd] in Hb; congruence].
  apply OscMessageInitialise_ok in EI; [|exact Hnn].
  destruct EI as (_ & _ & _ & _ & I5 & I6 & I7).
  destruct (add_arguments mi (read ++ left)) as [m rc] eqn:EA. cbn [fst snd] in *. subst rc.
  destruct (add_arguments_ok (read ++ left) [] mi m EA Hok I5) as (K1 & _ & _ & _ & K5 & K6).
  cbn [app] in K1.
  apply Forall_app in Hok. destruct Hok as [Hokr _].
  rewrite (after_reads_ok scratch scratchSize left read [] m); cbn [app length flat_map];
    try assumption; try congruence.
  destruct K1 as (H1 & H2 & H3 & _).
  split.
  - unfold OscMessageIsArgumentAvailable. fsimpl. rewrite H1, length_app.
    destruct left as [|a left]; cbn [length].
    + apply Nat.leb_gt. lia.
    + apply Nat.leb_le. lia.
  - rewrite GetArgumentType_at by (fsimpl; rewrite H1, length_app; lia). fsimpl.
    destruct left as [|a left].
    + rewrite app_nil_r in H3. exact H3.
    + rewrite <- (bytes_nth (oscTypeTagString m) (S (length (read ++ a :: left)))
                    (S (length read)) "000"%char) by (rewrite length_app; cbn [length]; lia).
      rewrite H2. cbn [nth]. rewrite map_app, app_nth2 by (rewrite length_map; lia).
      rewrite length_map, Nat.sub_diag. reflexivity.
Qed.

End ReceiveLoop.

Lemma receive_loop_tags_witness :
  let read := [ArgInt32 (-5); ArgString ["h"; "i"]%char] in
  let left := [ArgBlob ["001"]%char; ArgBool true] in
  let built := build_message (L := udp_limits) blank_message ["/"; "a"]%char (read ++ left) in
  let m := after_reads zeros 64 (fst built) read in
  OscMessageIsArgumentAvailable m = true /\
  OscMessageGetArgumentType m = OscTypeTagBlob.
Proof.
  intros read left built m.
  apply (receive_loop_tags (L := udp_limits) blank_message ["/"; "a"]%char read left zeros 64).
  - vm_compute. reflexivity.
  - repeat constructor; discriminate.
  - apply Forall_cons; [cbn; lia|].
    apply Forall_cons; [cbn; repeat constructor; discriminate|].
    apply Forall_cons; [cbn; lia|]. apply Forall_cons; [exact I|]. constructor.
  - lia.
  - vm_compute. lia.
Defined.

(** ** The capacity of a message that is built *)

Section BuilderBounds.
Context {L : Limits}.





End BuilderBounds.

